(** * Trait markup rendering

    A shallow embedding of the markup renderer of [ide/test_aml.py] and
    [ide/test_aml_scenarios.py]: the attribute parser, the escaper, the tag
    scanner, the closing-tag search of both files, the widget rules and the
    document composer [render_aml].

    Modelling conventions.
    - A Python [str] is a [string]: the sequence of the bytes of its UTF-8
      encoding.  The character classes below ([\s], [\w], [str.lower],
      [str.strip]) are exact on ASCII characters; bytes above 127 are never
      whitespace, word characters, digits or cased letters in the model.
    - [str.find] returns [option nat]; [None] is Python's [-1].
    - A Python exception is a value of [exn] carried by [Raise]; a loop that
      has not finished within the given number of iterations is [OutOfFuel].
    - In the literals handed to [Q] a backquote stands for a double quote;
      so it does where a comment quotes a pattern of the program, and there
      the parentheses of a group are set off by blanks. *)

From Stdlib Require Import Ascii String ZArith Lia.
From stdpp Require Import gmap strings list pretty.

Local Open Scope string_scope.
Local Open Scope list_scope.
Local Open Scope stdpp_scope.

(** ** Characters *)

Definition code (a : ascii) : nat := nat_of_ascii a.

Definition in_range (lo hi : nat) (a : ascii) : bool :=
  (lo <=? code a)%nat && (code a <=? hi)%nat.

Definition is_char (c a : ascii) : bool := Ascii.eqb c a.
Definition not_char (c a : ascii) : bool := negb (Ascii.eqb c a).

(** [str.isspace] on ASCII, also the class [\s]: tab to carriage return,
    the four separators 28..31 and the space. *)
Definition is_space (a : ascii) : bool := in_range 9 13 a || in_range 28 32 a.

(** The whitespace that [int()] skips around a number written in ASCII: tab
    to carriage return and the space.  The separators 28..31, which
    [str.strip] takes, are not skipped: [int] raises a [ValueError] on
    them. *)
Definition is_c_space (a : ascii) : bool := in_range 9 13 a || is_char " " a.

Definition is_digit (a : ascii) : bool := in_range 48 57 a.
Definition is_upper (a : ascii) : bool := in_range 65 90 a.
Definition is_lower (a : ascii) : bool := in_range 97 122 a.

(** [[a-z]] under [re.IGNORECASE]. *)
Definition is_letter (a : ascii) : bool := is_upper a || is_lower a.

(** [\w] on ASCII. *)
Definition is_word (a : ascii) : bool := is_letter a || is_digit a || is_char "_" a.

(** [[\w-]] *)
Definition is_name_char (a : ascii) : bool := is_word a || is_char "-" a.

Definition dquote : ascii := "034".
Definition squote : ascii := "039".
Definition newline : ascii := "010".

(** The class of the two quote characters, and its complement. *)
Definition is_quote (a : ascii) : bool := is_char dquote a || is_char squote a.
Definition not_quote (a : ascii) : bool := negb (is_quote a).

Definition any_char (_ : ascii) : bool := true.

Definition lower_char (a : ascii) : ascii :=
  if is_upper a then ascii_of_nat (code a + 32) else a.

(** ** Strings *)

Definition str (a : ascii) : string := String a EmptyString.

(** Literal with backquotes read as double quotes. *)
Fixpoint Q (s : string) : string :=
  match s with
  | EmptyString => EmptyString
  | String a r => String (if is_char "`" a then dquote else a) (Q r)
  end.

Fixpoint lower (s : string) : string :=
  match s with
  | EmptyString => EmptyString
  | String a r => String (lower_char a) (lower r)
  end.

Fixpoint sdrop (n : nat) (s : string) : string :=
  match n, s with
  | O, _ => s
  | S k, String _ r => sdrop k r
  | S _, EmptyString => EmptyString
  end.

Fixpoint stake (n : nat) (s : string) : string :=
  match n, s with
  | O, _ => EmptyString
  | S k, String a r => String a (stake k r)
  | S _, EmptyString => EmptyString
  end.

(** [s[a:b]] for non-negative [a] and [b]. *)
Definition slice (a b : nat) (s : string) : string := stake (b - a) (sdrop a s).

(** [s.startswith(p)], returning what follows the prefix. *)
Fixpoint strip_prefix (p s : string) : option string :=
  match p, s with
  | EmptyString, _ => Some s
  | String a p', String b s' => if Ascii.eqb a b then strip_prefix p' s' else None
  | String _ _, EmptyString => None
  end.

(** The same, comparing lower-cased characters. *)
Fixpoint strip_prefix_ci (p s : string) : option string :=
  match p, s with
  | EmptyString, _ => Some s
  | String a p', String b s' =>
      if Ascii.eqb (lower_char a) (lower_char b) then strip_prefix_ci p' s' else None
  | String _ _, EmptyString => None
  end.

Definition startswith (p s : string) : bool := bool_decide (is_Some (strip_prefix p s)).

Fixpoint srev_onto (s acc : string) : string :=
  match s with
  | EmptyString => acc
  | String a r => srev_onto r (String a acc)
  end.

Definition srev (s : string) : string := srev_onto s EmptyString.

Definition endswith (p s : string) : bool := startswith (srev p) (srev s).

Fixpoint lstrip_by (c : ascii -> bool) (s : string) : string :=
  match s with
  | String a r => if c a then lstrip_by c r else s
  | EmptyString => EmptyString
  end.

Definition rstrip_by (c : ascii -> bool) (s : string) : string := srev (lstrip_by c (srev s)).

Definition rstrip (s : string) : string := rstrip_by is_space s.
Definition strip (s : string) : string := rstrip_by is_space (lstrip_by is_space s).

(** [s.find(sub)] *)
Fixpoint find_in (sub s : string) : option nat :=
  match strip_prefix sub s with
  | Some _ => Some O
  | None => match s with
            | String _ r => S <$> find_in sub r
            | EmptyString => None
            end
  end.

(** [s.find(sub, start)] *)
Definition find (sub s : string) (start : nat) : option nat :=
  if (start <=? String.length s)%nat then (λ i, start + i)%nat <$> find_in sub (sdrop start s)
  else None.

(** [s.split(c)] for a one-character separator: the current piece is
    accumulated in reverse. *)
Fixpoint split_go (c : ascii) (s : string) (cur : string) : list string :=
  match s with
  | EmptyString => [srev cur]
  | String a r => if Ascii.eqb a c then srev cur :: split_go c r EmptyString
                  else split_go c r (String a cur)
  end.

Definition split (c : ascii) (s : string) : list string := split_go c s EmptyString.

(** [''.join(l)] and [sep.join(l)] *)
Definition concat (l : list string) : string := foldr String.app EmptyString l.

Fixpoint join (sep : string) (l : list string) : string :=
  match l with
  | [] => EmptyString
  | [x] => x
  | x :: r => x +:+ sep +:+ join sep r
  end.

(** [s.replace(old, new)] for a one-character [old]. *)
Fixpoint replace_char (old : ascii) (new : string) (s : string) : string :=
  match s with
  | EmptyString => EmptyString
  | String a r => (if Ascii.eqb a old then new else str a) +:+ replace_char old new r
  end.

(** [s.replace(old, new)] for a non-empty [old]: occurrences are replaced
    from the left and do not overlap; [skip] counts the characters of an
    occurrence that are still to be dropped. *)
Fixpoint replace_go (old new : string) (s : string) (skip : nat) : string :=
  match s with
  | EmptyString => EmptyString
  | String a r =>
      match skip with
      | S k => replace_go old new r k
      | O => match strip_prefix old s with
             | Some _ => new +:+ replace_go old new r (String.length old - 1)
             | None => String a (replace_go old new r O)
             end
      end
  end.

Definition replace (old new s : string) : string := replace_go old new s O.

(** [html.escape(s)] with its default [quote=True]: five replacements, the
    ampersand first. *)
Definition escape (s : string) : string :=
  let s := replace_char "&" "&amp;" s in
  let s := replace_char "<" "&lt;" s in
  let s := replace_char ">" "&gt;" s in
  let s := replace_char dquote "&quot;" s in
  replace_char squote "&#x27;" s.

(** [str(n)] for an integer. *)
Definition str_of_int (z : Z) : string := pretty z.

(** ** Regular expressions

    The patterns of the program only repeat single-character classes, so a
    pattern is a flat list of tokens; [Open] and [Close] bracket a capture
    group.  Matching is Python's backtracking search: a greedy repetition
    tries the longest run first, a lazy one the shortest. *)

Inductive tok : Type :=
| Lit (s : string)             (* literal text *)
| One (c : ascii -> bool)      (* one character of a class *)
| Star (c : ascii -> bool)     (* c*  *)
| Plus (c : ascii -> bool)     (* c+  *)
| Lazy (c : ascii -> bool)     (* c*? *)
| Open
| Close.

Definition pattern : Type := list tok.

Section Backtracking.
Context {R : Type}.

Fixpoint greedy (c : ascii -> bool) (k : string -> option R) (s : string) : option R :=
  match s with
  | String a r =>
      if c a then match greedy c k r with
                  | Some x => Some x
                  | None => k s
                  end
      else k s
  | EmptyString => k s
  end.

Fixpoint lazy (c : ascii -> bool) (k : string -> option R) (s : string) : option R :=
  match k s with
  | Some x => Some x
  | None => match s with
            | String a r => if c a then lazy c k r else None
            | EmptyString => None
            end
  end.
End Backtracking.

(** The text between the position [s0] and the later position [s]. *)
Definition consumed (s0 s : string) : string :=
  stake (String.length s0 - String.length s) s0.

(** [exec ic p opens caps s] matches [p] at the start of [s]; [ic] is
    [re.IGNORECASE].  The result is the captured groups and the text after
    the match. *)
Fixpoint exec (ic : bool) (p : pattern) (opens caps : list string) (s : string)
  : option (list string * string) :=
  match p with
  | [] => Some (caps, s)
  | Lit l :: p' =>
      match (if ic then strip_prefix_ci l s else strip_prefix l s) with
      | Some r => exec ic p' opens caps r
      | None => None
      end
  | One c :: p' =>
      match s with
      | String a r => if c a then exec ic p' opens caps r else None
      | EmptyString => None
      end
  | Star c :: p' => greedy c (exec ic p' opens caps) s
  | Plus c :: p' =>
      match s with
      | String a r => if c a then greedy c (exec ic p' opens caps) r else None
      | EmptyString => None
      end
  | Lazy c :: p' => lazy c (exec ic p' opens caps) s
  | Open :: p' => exec ic p' (s :: opens) caps s
  | Close :: p' =>
      match opens with
      | s0 :: opens' => exec ic p' opens' (caps ++ [consumed s0 s]) s
      | [] => None
      end
  end.

(** A match object: where it starts, its groups, its text ([group(0)]). *)
Record rmatch : Type := RMatch {
  m_start : nat;
  m_groups : list string;
  m_text : string
}.

Definition group (m : rmatch) (i : nat) : string :=
  match i with
  | O => m_text m
  | S j => nth j (m_groups m) EmptyString
  end.

(** [re.search]: the first position, from the left, at which the pattern
    matches. *)
Fixpoint search_at (ic : bool) (p : pattern) (s : string) (i : nat) : option rmatch :=
  match exec ic p [] [] s with
  | Some (caps, rest) => Some (RMatch i caps (consumed s rest))
  | None => match s with
            | String _ r => search_at ic p r (S i)
            | EmptyString => None
            end
  end.

Definition search (ic : bool) (p : pattern) (s : string) : option rmatch :=
  search_at ic p s O.

(** [re.finditer] and [re.findall]: the matches from left to right, none
    overlapping another; [at_] tries a match at a position and [skip]
    counts the characters of the last match that the scan still has to
    pass. *)
Fixpoint scan_with (at_ : string -> option (list string * string)) (s : string) (skip : nat)
  : list (list string) :=
  match skip with
  | S k => match s with
           | String _ r => scan_with at_ r k
           | EmptyString => []
           end
  | O =>
      match at_ s with
      | Some (caps, rest) =>
          caps :: match s with
                  | String _ r => scan_with at_ r (String.length s - String.length rest - 1)
                  | EmptyString => []
                  end
      | None => match s with
                | String _ r => scan_with at_ r O
                | EmptyString => []
                end
      end
  end.

Definition finditer (p : pattern) (s : string) : list (list string) :=
  scan_with (exec false p [] []) s O.

(** [re.findall] with one group gives strings, with two groups pairs. *)
Definition findall1 (p : pattern) (s : string) : list string :=
  (λ g, nth 0 g EmptyString) <$> finditer p s.

Definition pair_of_groups (g : list string) : string * string :=
  (nth 0 g EmptyString, nth 1 g EmptyString).

Definition findall2 (p : pattern) (s : string) : list (string * string) :=
  pair_of_groups <$> finditer p s.

(** ** Attribute parser *)

(** The pattern [( [\w-]+ )=[`']( [^`']* )[`']]. *)
Definition ATTR_RE : pattern :=
  [Open; Plus is_name_char; Close; Lit "="; One is_quote;
   Open; Star not_quote; Close; One is_quote].

(** The loop [attrs[match.group(1)] = match.group(2)] over the matches. *)
Definition store_attrs (ms : list (string * string)) : gmap string string :=
  foldl (λ attrs kv, <[kv.1 := kv.2]> attrs) ∅ ms.

Definition parse_attrs (attr_str : string) : gmap string string :=
  store_attrs (findall2 ATTR_RE attr_str).

(** [attrs.get(k, d)] and [k in attrs] *)
Definition get (attrs : gmap string string) (k d : string) : string := default d (attrs !! k).
Definition has (attrs : gmap string string) (k : string) : bool := bool_decide (is_Some (attrs !! k)).

(** ** Outcomes, exceptions, numbers *)

Inductive exn : Type := ValueError | ZeroDivisionError | OverflowError.

Inductive outcome (A : Type) : Type :=
| Ok (a : A)
| Raise (e : exn)
| OutOfFuel.
Arguments Ok {A} a.
Arguments Raise {A} e.
Arguments OutOfFuel {A}.

#[global] Instance outcome_ret : MRet outcome := λ A a, Ok a.
#[global] Instance outcome_bind : MBind outcome := λ A B f r,
  match r with
  | Ok a => f a
  | Raise e => Raise e
  | OutOfFuel => OutOfFuel
  end.

(** The comprehension [[f(x) for x in l]] when [f] can raise. *)
Fixpoint mapR {A B : Type} (f : A -> outcome B) (l : list A) : outcome (list B) :=
  match l with
  | [] => Ok []
  | x :: r => y ← f x; ys ← mapR f r; Ok (y :: ys)
  end.

(** [int(s)] on a string: optional whitespace, an optional sign, decimal
    digits in which single underscores may separate digits, optional
    whitespace.  Anything else is a [ValueError].  (The cap that recent
    interpreters put on the number of digits is not modelled.) *)
Inductive int_state : Type := AtStart | AfterDigit | AfterUnderscore.

Fixpoint int_digits (s : string) (acc : Z) (st : int_state) : option Z :=
  match s with
  | String a r =>
      if is_digit a then int_digits r (acc * 10 + Z.of_nat (code a - 48)) AfterDigit
      else if is_char "_" a then
        match st with
        | AfterDigit => int_digits r acc AfterUnderscore
        | _ => None
        end
      else match st, lstrip_by is_c_space s with
           | AfterDigit, EmptyString => Some acc
           | _, _ => None
           end
  | EmptyString => match st with
                   | AfterDigit => Some acc
                   | _ => None
                   end
  end.

Definition int_of_str (s : string) : outcome Z :=
  let body (neg : bool) (s : string) : outcome Z :=
    match int_digits s 0 AtStart with
    | Some z => Ok (if neg then - z else z)%Z
    | None => Raise ValueError
    end in
  match lstrip_by is_c_space s with
  | String "-" r => body true r
  | String "+" r => body false r
  | s' => body false s'
  end.

(** [int(attrs.get(k, d))] with an integer default [d]. *)
Definition int_attr (attrs : gmap string string) (k : string) (d : Z) : outcome Z :=
  match attrs !! k with
  | Some s => int_of_str s
  | None => Ok d
  end.

(** Binary floating point is an interface: the quotient of two integers,
    its product with an integer, its comparisons with an integer and its
    printed form are those of the interpreter. *)
Class PyFloat : Type := {
  pyfloat : Type;
  (* [a / b] for [b] not zero; [None] is the OverflowError of a quotient
     too large for a float *)
  truediv : Z -> Z -> option pyfloat;
  fmul : pyfloat -> Z -> pyfloat;      (* [x * n] *)
  flt : pyfloat -> Z -> bool;          (* [x < n] *)
  fgt : pyfloat -> Z -> bool;          (* [x > n] *)
  float_str : pyfloat -> string        (* [str(x)] *)
}.

Inductive number `{PyFloat} : Type :=
| NInt (z : Z)
| NFloat (x : pyfloat).

Section Numbers.
Context `{PyFloat}.

(** [(a / b) * k] *)
Definition scaled_ratio (a b k : Z) : outcome pyfloat :=
  if (b =? 0)%Z then Raise ZeroDivisionError
  else match truediv a b with
       | Some q => Ok (fmul q k)
       | None => Raise OverflowError
       end.

(** [max(n, x)] keeps its first argument unless the second is greater;
    [min(n, y)] keeps its first argument unless the second is smaller. *)
Definition max_int_float (n : Z) (x : pyfloat) : number :=
  if fgt x n then NFloat x else NInt n.

Definition min_int_number (n : Z) (y : number) : number :=
  match y with
  | NInt z => if (z <? n)%Z then NInt z else NInt n
  | NFloat x => if flt x n then NFloat x else NInt n
  end.

Definition str_of_number (y : number) : string :=
  match y with
  | NInt z => str_of_int z
  | NFloat x => float_str x
  end.
End Numbers.

(** ** Patterns of the program *)

Definition NL : string := str newline.
Definition DQ : string := str dquote.

(** [<( trait:[a-z]+ )( [^>]* )>], used with [re.IGNORECASE] *)
Definition TAG_RE : pattern :=
  [Lit "<"; Open; Lit "trait:"; Plus is_letter; Close;
   Open; Star (not_char ">"); Close; Lit ">"].

(** [<trait:NAME[^>]*>( .*? )</trait:NAME>]; [dot] is the class of [.]:
    every character with [re.DOTALL], every character but the newline
    without it. *)
Definition child_re (name : string) (dot : ascii -> bool) : pattern :=
  [Lit ("<trait:" +:+ name); Star (not_char ">"); Lit ">";
   Open; Lazy dot; Close; Lit ("</trait:" +:+ name +:+ ">")].

(** [<trait:NAME\s+KEY=`( [^`]* )`[^>]*>( .*? )</trait:NAME>] with [re.DOTALL] *)
Definition keyed_child_re (name key : string) : pattern :=
  [Lit ("<trait:" +:+ name); Plus is_space; Lit (key +:+ "=" +:+ DQ);
   Open; Star (not_char dquote); Close; Lit DQ; Star (not_char ">"); Lit ">";
   Open; Lazy any_char; Close; Lit ("</trait:" +:+ name +:+ ">")].

Definition ITEM_RE : pattern := child_re "item" any_char.
Definition ROW_RE : pattern := child_re "row" any_char.
Definition CELL_RE : pattern := child_re "cell" any_char.
Definition COMMAND_RE : pattern := child_re "command" any_char.
Definition CRUMB_RE : pattern := child_re "tag" (not_char newline).
Definition TODO_ITEM_RE : pattern := keyed_child_re "item" "done".
Definition OUTPUT_RE : pattern := keyed_child_re "output" "type".

(** [<trait:row\s+header=`true`[^>]*>( .*? )</trait:row>] with [re.DOTALL] *)
Definition HEADER_ROW_RE : pattern :=
  [Lit "<trait:row"; Plus is_space; Lit (Q "header=`true`"); Star (not_char ">"); Lit ">";
   Open; Lazy any_char; Close; Lit "</trait:row>"].

(** [<trait:data\s+label=`( [^`]* )`\s+value=`( [^`]* )`[^/]*/>] *)
Definition DATA_RE : pattern :=
  [Lit "<trait:data"; Plus is_space; Lit (Q "label=`");
   Open; Star (not_char dquote); Close; Lit DQ; Plus is_space; Lit (Q "value=`");
   Open; Star (not_char dquote); Close; Lit DQ; Star (not_char "/"); Lit "/>"].

Definition nonempty (s : string) : bool :=
  match s with
  | EmptyString => false
  | String _ _ => true
  end.

(** ** Widget rules shared by the two files

    Each rule below is a function of [test_aml.py]; the branch of
    [render_widget] for the same tag in [test_aml_scenarios.py] has the same
    text.  [render] is the composer, for the container rules. *)

Definition attrs_t : Type := gmap string string.

Definition render_button (attrs : attrs_t) (content : string) : string :=
  Q "<span class=`trait-button`>" +:+ escape content +:+ "</span>".

Definition render_coderef (attrs : attrs_t) : string :=
  let text := get attrs "text" (get attrs "path" "") in
  Q "<code class=`trait-coderef`>" +:+ escape text +:+ "</code>".

Definition diff_line (line : string) : string :=
  if startswith "+" line then
    Q "<div class=`trait-diff-line trait-diff-added`><span class=`trait-diff-marker`>+</span><span class=`trait-diff-text`>"
    +:+ escape (sdrop 1 line) +:+ "</span></div>"
  else if startswith "-" line then
    Q "<div class=`trait-diff-line trait-diff-removed`><span class=`trait-diff-marker`>-</span><span class=`trait-diff-text`>"
    +:+ escape (sdrop 1 line) +:+ "</span></div>"
  else
    Q "<div class=`trait-diff-line`><span class=`trait-diff-marker`> </span><span class=`trait-diff-text`>"
    +:+ escape line +:+ "</span></div>".

Definition render_diff (attrs : attrs_t) (content : string) : string :=
  let lines := split newline (strip content) in
  let lines_html := diff_line <$> lines in
  let header := if has attrs "file"
                then Q "<div class=`trait-diff-header`>" +:+ get attrs "file" "" +:+ "</div>"
                else "" in
  Q "<div class=`trait-diff`>" +:+ header +:+ Q "<div class=`trait-diff-content`>"
  +:+ concat lines_html +:+ "</div></div>".

Definition render_list (attrs : attrs_t) (content : string) : string :=
  let items := findall1 ITEM_RE content in
  let items_html :=
    concat ((λ item, Q "<li class=`trait-item`>" +:+ escape (strip item) +:+ "</li>") <$> items) in
  let tag := if bool_decide (attrs !! "ordered" = Some "true") then "ol" else "ul" in
  "<" +:+ tag +:+ Q " class=`trait-list`>" +:+ items_html +:+ "</" +:+ tag +:+ ">".

Definition todo_item (it : string * string) : string :=
  let '(done, text) := it in
  Q "<li class=`trait-todo-item " +:+ (if String.eqb done "true" then "trait-todo-done" else "")
  +:+ Q "`><input type=`checkbox` " +:+ (if String.eqb done "true" then "checked" else "")
  +:+ " disabled> <span>" +:+ escape (strip text) +:+ "</span></li>".

Definition render_todo (attrs : attrs_t) (content : string) : string :=
  let items := findall2 TODO_ITEM_RE content in
  let items_html := concat (todo_item <$> items) in
  let title := if has attrs "title"
               then Q "<div class=`trait-todo-header`>" +:+ get attrs "title" "Tasks" +:+ "</div>"
               else "" in
  Q "<div class=`trait-todo`>" +:+ title +:+ Q "<ul class=`trait-todo-list`>"
  +:+ items_html +:+ "</ul></div>".

Definition render_cells (row_content : string) : string :=
  let cells := findall1 CELL_RE row_content in
  concat ((λ cell, Q "<td class=`trait-cell`>" +:+ escape (strip cell) +:+ "</td>") <$> cells).

(** [x in l] on a list of strings *)
Definition mem (x : string) (l : list string) : bool := existsb (String.eqb x) l.

Definition render_table (attrs : attrs_t) (content : string) : string :=
  let rows := findall1 HEADER_ROW_RE content in
  let data_rows := findall1 ROW_RE content in
  let header_html :=
    match rows with
    | row0 :: _ =>
        Q "<tr class=`trait-row trait-row-header`>"
        +:+ replace "/td>" "/th>" (replace "<td" "<th" (render_cells row0)) +:+ "</tr>"
    | [] => ""
    end in
  let data_html :=
    concat ((λ row, Q "<tr class=`trait-row`>" +:+ render_cells row +:+ "</tr>")
            <$> filter (λ row, mem row rows = false) data_rows) in
  Q "<table class=`trait-table`><tbody>" +:+ header_html +:+ data_html +:+ "</tbody></table>".

Definition render_badge (attrs : attrs_t) (content : string) : string :=
  let variant := get attrs "variant" "default" in
  Q "<span class=`trait-badge trait-badge-" +:+ variant +:+ Q "`>" +:+ escape content +:+ "</span>".

Definition render_tag (attrs : attrs_t) (content : string) : string :=
  Q "<span class=`trait-tag`>" +:+ escape content +:+ "</span>".

Definition command_line (cmd : string) : string :=
  Q "<div class=`trait-command`>" +:+ escape (strip cmd) +:+ "</div>".

Definition output_line (out : string * string) : string :=
  let '(t, o) := out in
  Q "<div class=`trait-output trait-output-" +:+ t +:+ Q "`>" +:+ escape (strip o) +:+ "</div>".

Definition render_terminal (attrs : attrs_t) (content : string) : string :=
  let commands := findall1 COMMAND_RE content in
  let outputs := findall2 OUTPUT_RE content in
  let cmd_html := concat (command_line <$> commands) in
  let out_html := concat (output_line <$> outputs) in
  let title := get attrs "title" "Terminal" in
  Q "<div class=`trait-terminal`><div class=`trait-terminal-header`><span class=`trait-terminal-title`>"
  +:+ title +:+ Q "</span></div><div class=`trait-terminal-content`>"
  +:+ cmd_html +:+ out_html +:+ "</div></div>".

(** [icons.get(type_, default)] *)
Definition alert_icon (type_ : string) : string :=
  if String.eqb type_ "info" then "ℹ"
  else if String.eqb type_ "warning" then "⚠"
  else if String.eqb type_ "error" then "✕"
  else if String.eqb type_ "success" then "✓"
  else if String.eqb type_ "tip" then "💡"
  else "ℹ".

Definition render_alert (type_ : string) (content : string) : string :=
  Q "<div class=`trait-alert trait-alert-" +:+ type_ +:+ Q "`><span class=`trait-alert-icon`>"
  +:+ alert_icon type_ +:+ "</span><span>" +:+ escape (strip content) +:+ "</span></div>".

Definition render_breadcrumb (attrs : attrs_t) (content : string) : string :=
  let tags := findall1 CRUMB_RE content in
  let items := (λ t, Q "<span class=`trait-tag`>" +:+ escape t +:+ "</span>") <$> tags in
  let sep := Q "<span class=`trait-breadcrumb-separator`>/</span>" in
  Q "<div class=`trait-breadcrumb`>" +:+ join sep items +:+ "</div>".

Definition render_divider : string := Q "<hr class=`trait-divider`>".

Definition render_spacer (attrs : attrs_t) : string :=
  let size := get attrs "size" "12px" in
  Q "<div style=`height: " +:+ size +:+ Q "`></div>".

Definition render_br : string := "<br>".

Definition render_timestamp (attrs : attrs_t) : string :=
  Q "<span class=`trait-timestamp`>" +:+ get attrs "value" "" +:+ "</span>".

Definition render_link (attrs : attrs_t) (content : string) : string :=
  Q "<span class=`trait-link`>" +:+ escape content +:+ "</span>".

Definition unknown_widget (tag_name : string) : string :=
  Q "<span style=`color: #d95555;`>Unknown: " +:+ tag_name +:+ "</span>".

(** The paragraph that wraps a run of text outside tags. *)
Definition paragraph (text : string) : string :=
  Q "<div class=`trait-text-content`><p>" +:+ escape text +:+ "</p></div>".

Section Containers.
Variable render : string -> outcome string.

Definition render_card (attrs : attrs_t) (content : string) : outcome string :=
  let title := if has attrs "title"
               then Q "<div class=`trait-card-title`>" +:+ escape (get attrs "title" "") +:+ "</div>"
               else "" in
  inner ← render content;
  Ok (Q "<div class=`trait-card`>" +:+ title +:+ Q "<div class=`trait-card-content`>"
      +:+ inner +:+ "</div></div>").

Definition render_grid (attrs : attrs_t) (content : string) : outcome string :=
  let cols := get attrs "cols" "3" in
  children ← render content;
  Ok (Q "<div class=`trait-grid` style=`grid-template-columns: repeat(" +:+ cols
      +:+ Q ", 1fr);`>" +:+ children +:+ "</div>").

Definition render_filetree (attrs : attrs_t) (content : string) : outcome string :=
  let root := get attrs "root" "Files" in
  inner ← render content;
  Ok (Q "<div class=`trait-filetree`><div class=`trait-filetree-header`>" +:+ root
      +:+ "</div>" +:+ inner +:+ "</div>").

Definition render_folder (attrs : attrs_t) (content : string) : outcome string :=
  let name := get attrs "name" "folder" in
  inner ← render content;
  Ok (Q "<div class=`trait-folder`><div class=`trait-folder-header`>▼ " +:+ escape name
      +:+ Q "</div><div class=`trait-folder-children`>" +:+ inner +:+ "</div></div>").
End Containers.

Section Charts.
Context `{PyFloat}.

(** [min(100, max(0, (value / max_val) * 100))] *)
Definition progress_pct (value max_val : Z) : outcome number :=
  x ← scaled_ratio value max_val 100;
  Ok (min_int_number 100 (max_int_float 0 x)).

(** [max(floor, (int(v) / max_val) * scale)] *)
Definition bar_height (floor scale v max_val : Z) : outcome number :=
  x ← scaled_ratio v max_val scale;
  Ok (max_int_float floor x).

(** [max([int(v) for _, v in data_points], default=1)] *)
Definition max_value (data_points : list (string * string)) : outcome Z :=
  vs ← mapR (λ p, int_of_str p.2) data_points;
  Ok (match vs with
      | [] => 1%Z
      | v :: r => foldl (λ m x, if (m <? x)%Z then x else m) v r
      end).

Definition chart_bar (floor scale max_val : Z) (p : string * string) : outcome string :=
  let '(l, v) := p in
  n ← int_of_str v;
  h ← bar_height floor scale n max_val;
  Ok (Q "<div class=`trait-chart-bar` style=`height: " +:+ str_of_number h
      +:+ Q "%`><div class=`trait-chart-bar-value`>" +:+ v
      +:+ Q "</div><div class=`trait-chart-bar-label`>" +:+ l +:+ "</div></div>").

(** [render_chart] of [test_aml.py] has [floor = 10] and [scale = 80]; the
    chart branch of [test_aml_scenarios.py] has 15 and 90. *)
Definition render_chart_with (floor scale : Z) (attrs : attrs_t) (content : string)
  : outcome string :=
  let data_points := findall2 DATA_RE content in
  max_val ← max_value data_points;
  bars ← mapR (chart_bar floor scale max_val) data_points;
  let title := if has attrs "title"
               then Q "<div class=`trait-chart-title`>" +:+ get attrs "title" "" +:+ "</div>"
               else "" in
  Ok (Q "<div class=`trait-chart`>" +:+ title +:+ Q "<div class=`trait-chart-content`>"
      +:+ concat bars +:+ "</div></div>").
End Charts.

(** ** The composer's loop

    One pass of the [while pos < len(content)] loop of [render_aml] either
    leaves the loop ([break]) or goes on with a new cursor; both carry the
    fragments emitted so far. *)

Inductive pass : Type :=
| Break (result : list string)
| Continue (pos : nat) (result : list string).

(** The flush of the text between the cursor and the tag, or after the
    last tag. *)
Definition flush_text (result : list string) (text : string) : list string :=
  if nonempty text then result ++ [paragraph text] else result.

Section Loop.
Variable iteration : string -> nat -> list string -> outcome pass.

Fixpoint loop (content : string) (fuel : nat) (pos : nat) (result : list string)
  : outcome string :=
  if (pos <? String.length content)%nat then
    match fuel with
    | O => OutOfFuel
    | S fuel' =>
        p ← iteration content pos result;
        match p with
        | Break result' => Ok (concat result')
        | Continue pos' result' => loop content fuel' pos' result'
        end
    end
  else Ok (concat result).
End Loop.

(** [renderers.get(tag_name)] *)
Fixpoint lookup_renderer {A : Type} (name : string) (table : list (string * A)) : option A :=
  match table with
  | [] => None
  | (k, v) :: rest => if String.eqb k name then Some v else lookup_renderer name rest
  end.

(** ** ide/test_aml.py *)

Module TestAml.

Section Widgets.
Context `{PyFloat}.
Variable render_aml : string -> outcome string.

Definition render_code (attrs : attrs_t) (content : string) : string :=
  let file_attr := if has attrs "file"
                   then Q "<span class=`trait-code-file`>" +:+ get attrs "file" "" +:+ "</span>"
                   else "" in
  let lang_attr := if has attrs "language"
                   then Q "<span class=`trait-code-lang`>" +:+ get attrs "language" "" +:+ "</span>"
                   else "" in
  Q "<div class=`trait-code-block`>" +:+ NL
  +:+ Q "    <div class=`trait-code-header`>" +:+ file_attr +:+ lang_attr +:+ "</div>" +:+ NL
  +:+ Q "    <pre class=`trait-code`>" +:+ escape content +:+ "</pre>" +:+ NL
  +:+ "</div>".

Definition render_file (attrs : attrs_t) : string :=
  let name := get attrs "name" (List.last (split "/" (get attrs "path" "")) "") in
  let line := match attrs !! "line" with
              | Some l => ":" +:+ l
              | None => ""
              end in
  Q "<span class=`trait-file`>/" +:+ escape name +:+ line +:+ "</span>".

Definition render_progress (attrs : attrs_t) : outcome string :=
  value ← int_attr attrs "value" 0;
  max_val ← int_attr attrs "max" 100;
  pct ← progress_pct value max_val;
  let label := get attrs "label" (str_of_int value +:+ "/" +:+ str_of_int max_val) in
  Ok (Q "<div class=`trait-progress`>" +:+ NL
      +:+ Q "    <div class=`trait-progress-label`><span>" +:+ label +:+ "</span><span>"
      +:+ str_of_int value +:+ "/" +:+ str_of_int max_val +:+ "</span></div>" +:+ NL
      +:+ Q "    <div class=`trait-progress-bar`><div class=`trait-progress-fill` style=`width: "
      +:+ str_of_number pct +:+ Q "%`></div></div>" +:+ NL
      +:+ "</div>").

Definition render_metric (attrs : attrs_t) : string :=
  Q "<div class=`trait-metric`>" +:+ NL
  +:+ Q "    <div class=`trait-metric-value`>" +:+ get attrs "value" "" +:+ "</div>" +:+ NL
  +:+ Q "    <div class=`trait-metric-label`>" +:+ get attrs "label" "" +:+ "</div>" +:+ NL
  +:+ "</div>".

Definition render_chart : attrs_t -> string -> outcome string := render_chart_with 10 80.

Definition render_search (attrs : attrs_t) : string :=
  let query := get attrs "query" "" in
  let results := get attrs "results" "" in
  let res_html := if nonempty results
                  then Q "<span class=`trait-search-results`>" +:+ results +:+ "</span>"
                  else "" in
  Q "<div class=`trait-search`>🔍 <span class=`trait-search-query`>" +:+ escape query
  +:+ "</span>" +:+ res_html +:+ "</div>".

Definition renderers : list (string * (attrs_t -> string -> outcome string)) :=
  [("trait:button", λ a c, Ok (render_button a c));
   ("trait:code", λ a c, Ok (render_code a c));
   ("trait:coderef", λ a c, Ok (render_coderef a));
   ("trait:diff", λ a c, Ok (render_diff a c));
   ("trait:file", λ a c, Ok (render_file a));
   ("trait:list", λ a c, Ok (render_list a c));
   ("trait:todo", λ a c, Ok (render_todo a c));
   ("trait:table", λ a c, Ok (render_table a c));
   ("trait:badge", λ a c, Ok (render_badge a c));
   ("trait:tag", λ a c, Ok (render_tag a c));
   ("trait:progress", λ a c, render_progress a);
   ("trait:metric", λ a c, Ok (render_metric a));
   ("trait:chart", λ a c, render_chart a c);
   ("trait:barchart", λ a c, render_chart a c);
   ("trait:terminal", λ a c, Ok (render_terminal a c));
   ("trait:info", λ a c, Ok (render_alert "info" c));
   ("trait:warning", λ a c, Ok (render_alert "warning" c));
   ("trait:error", λ a c, Ok (render_alert "error" c));
   ("trait:success", λ a c, Ok (render_alert "success" c));
   ("trait:tip", λ a c, Ok (render_alert "tip" c));
   ("trait:card", λ a c, render_card render_aml a c);
   ("trait:grid", λ a c, render_grid render_aml a c);
   ("trait:divider", λ a c, Ok render_divider);
   ("trait:spacer", λ a c, Ok (render_spacer a));
   ("trait:br", λ a c, Ok render_br);
   ("trait:filetree", λ a c, render_filetree render_aml a c);
   ("trait:folder", λ a c, render_folder render_aml a c);
   ("trait:search", λ a c, Ok (render_search a));
   ("trait:breadcrumb", λ a c, Ok (render_breadcrumb a c));
   ("trait:timestamp", λ a c, Ok (render_timestamp a));
   ("trait:link", λ a c, Ok (render_link a c));
   ("trait:item", λ a c, Ok (escape c))].

Definition render_widget (tag_name : string) (attrs : attrs_t) (content : string)
  : outcome string :=
  match lookup_renderer tag_name renderers with
  | Some renderer => renderer attrs content
  | None => Ok (unknown_widget tag_name)
  end.

(** The self-closing test of this file: the attribute text ends in a
    slash, or the character at the last index of the tag is a slash. *)
Definition self_closing (content attrs_str : string) (tag_end : nat) : bool :=
  endswith "/" attrs_str
  || bool_decide (String.get (tag_end - 1) content = Some "/"%char).

(** The body of the [while] loop of [render_aml]. *)
Definition iteration (content : string) (pos : nat) (result : list string) : outcome pass :=
  match search true TAG_RE (sdrop pos content) with
  | None => Ok (Break (flush_text result (strip (sdrop pos content))))
  | Some m =>
      let tag_start := (pos + m_start m)%nat in
      let tag_name := lower (group m 1) in
      let attrs_str := group m 2 in
      let result := if (pos <? tag_start)%nat
                    then flush_text result (strip (slice pos tag_start content))
                    else result in
      let tag_end := (tag_start + String.length (group m 0))%nat in
      if self_closing content attrs_str tag_end then
        w ← render_widget tag_name (parse_attrs attrs_str) "";
        Ok (Continue tag_end (result ++ [w]))
      else
        let close_tag := "</" +:+ tag_name +:+ ">" in
        match find close_tag (lower content) tag_end with
        | None => Ok (Continue tag_end (result ++ [escape (group m 0)]))
        | Some close_pos =>
            let inner_content := slice tag_end close_pos content in
            w ← render_widget tag_name (parse_attrs attrs_str) inner_content;
            Ok (Continue (close_pos + String.length close_tag) (result ++ [w]))
        end
  end.
End Widgets.

Fixpoint render_aml `{PyFloat} (fuel : nat) (content : string) : outcome string :=
  match fuel with
  | O => OutOfFuel
  | S fuel' => loop (iteration (render_aml fuel')) content fuel 0 []
  end.

End TestAml.

(** ** ide/test_aml_scenarios.py *)

Module Scenarios.

(** How the inner [while search_pos < len(content) and depth > 0] loop
    ends: at the closing tag that brings the depth to zero, by the [break]
    taken when no closing tag is left, or by its condition turning false,
    which alone runs the [else] clause of the loop. *)
Inductive close_search : Type :=
| Matched (close_start end_pos : nat)
| NoCloseLeft
| Exhausted.

Fixpoint find_close (content tag_name close_tag : string)
    (fuel depth search_pos : nat) : outcome close_search :=
  if (search_pos <? String.length content)%nat && (0 <? depth)%nat then
    match fuel with
    | O => OutOfFuel
    | S fuel' =>
        let remaining := sdrop search_pos content in
        let next_open := find_in ("<" +:+ tag_name) (lower remaining) in
        let next_close := find_in close_tag (lower remaining) in
        match next_close with
        | None => Ok NoCloseLeft
        | Some nc =>
            let opening_first := match next_open with
                                 | Some no => (no <? nc)%nat
                                 | None => false
                                 end in
            if opening_first then
              find_close content tag_name close_tag fuel' (depth + 1)
                         (search_pos + default 0%nat next_open + String.length tag_name + 1)
            else if (depth - 1 =? 0)%nat then
              Ok (Matched (search_pos + nc) (search_pos + nc + String.length close_tag))
            else
              find_close content tag_name close_tag fuel' (depth - 1)
                         (search_pos + nc + String.length close_tag)
        end
    end
  else Ok Exhausted.

Section Widgets.
Context `{PyFloat}.
Variable render_aml : string -> outcome string.

Definition void_elements : list string := ["trait:divider"; "trait:spacer"; "trait:br"].

Definition render_widget (tag_name : string) (attrs : attrs_t) (content : string)
  : outcome string :=
  if String.eqb tag_name "trait:button" then Ok (render_button attrs content)
  else if String.eqb tag_name "trait:code" then
    let file_html := if has attrs "file"
                     then Q "<span class=`trait-code-file`>" +:+ get attrs "file" "" +:+ "</span>"
                     else "" in
    let lang_html := if has attrs "language"
                     then Q "<span class=`trait-code-lang`>" +:+ get attrs "language" "" +:+ "</span>"
                     else "" in
    let header := if nonempty file_html || nonempty lang_html
                  then Q "<div class=`trait-code-header`>" +:+ file_html +:+ lang_html +:+ "</div>"
                  else "" in
    Ok (Q "<div class=`trait-code-block`>" +:+ header +:+ Q "<pre class=`trait-code`>"
        +:+ escape content +:+ "</pre></div>")
  else if String.eqb tag_name "trait:coderef" then Ok (render_coderef attrs)
  else if String.eqb tag_name "trait:diff" then Ok (render_diff attrs content)
  else if String.eqb tag_name "trait:file" then
    let name := get attrs "name" (List.last (split "/" (get attrs "path" "")) "") in
    Ok (Q "<span class=`trait-file`>/" +:+ escape name +:+ "</span>")
  else if String.eqb tag_name "trait:list" then Ok (render_list attrs content)
  else if String.eqb tag_name "trait:todo" then Ok (render_todo attrs content)
  else if String.eqb tag_name "trait:table" then Ok (render_table attrs content)
  else if String.eqb tag_name "trait:badge" then Ok (render_badge attrs content)
  else if String.eqb tag_name "trait:tag" then Ok (render_tag attrs content)
  else if String.eqb tag_name "trait:progress" then
    value ← int_attr attrs "value" 0;
    max_val ← int_attr attrs "max" 100;
    pct ← progress_pct value max_val;
    let label := get attrs "label" (str_of_int value +:+ "/" +:+ str_of_int max_val) in
    Ok (Q "<div class=`trait-progress`><div class=`trait-progress-label`><span>" +:+ label
        +:+ "</span><span>" +:+ str_of_int value +:+ "/" +:+ str_of_int max_val
        +:+ Q "</span></div><div class=`trait-progress-bar`><div class=`trait-progress-fill` style=`width: "
        +:+ str_of_number pct +:+ Q "%`></div></div></div>")
  else if String.eqb tag_name "trait:metric" then
    let change_html :=
      match attrs !! "change" with
      | Some change =>
          let direction := if startswith "+" change then "up" else "down" in
          Q "<div class=`trait-metric-change trait-metric-change-" +:+ direction +:+ Q "`>"
          +:+ change +:+ "</div>"
      | None => ""
      end in
    Ok (Q "<div class=`trait-metric`><div class=`trait-metric-value`>" +:+ get attrs "value" ""
        +:+ Q "</div><div class=`trait-metric-label`>" +:+ get attrs "label" "" +:+ "</div>"
        +:+ change_html +:+ "</div>")
  else if mem tag_name ["trait:chart"; "trait:barchart"] then
    render_chart_with 15 90 attrs content
  else if String.eqb tag_name "trait:terminal" then Ok (render_terminal attrs content)
  else if mem tag_name ["trait:info"; "trait:warning"; "trait:error"; "trait:success"; "trait:tip"] then
    Ok (render_alert (nth 1 (split ":" tag_name) "") content)
  else if String.eqb tag_name "trait:card" then render_card render_aml attrs content
  else if String.eqb tag_name "trait:grid" then render_grid render_aml attrs content
  else if String.eqb tag_name "trait:filetree" then render_filetree render_aml attrs content
  else if String.eqb tag_name "trait:folder" then render_folder render_aml attrs content
  else if String.eqb tag_name "trait:search" then
    let query := get attrs "query" "" in
    let results := get attrs "results" "" in
    let res_html := if nonempty results
                    then Q "<span class=`trait-search-results`>" +:+ results +:+ " results</span>"
                    else "" in
    Ok (Q "<div class=`trait-search`>🔍 <span class=`trait-search-query`>" +:+ escape query
        +:+ "</span>" +:+ res_html +:+ "</div>")
  else if String.eqb tag_name "trait:breadcrumb" then Ok (render_breadcrumb attrs content)
  else if String.eqb tag_name "trait:timestamp" then Ok (render_timestamp attrs)
  else if String.eqb tag_name "trait:link" then Ok (render_link attrs content)
  else if mem tag_name void_elements then
    if String.eqb tag_name "trait:divider" then Ok render_divider
    else if String.eqb tag_name "trait:spacer" then Ok (render_spacer attrs)
    else Ok render_br
  else Ok (unknown_widget tag_name).

(** The self-closing test of this file. *)
Definition self_closing (tag_name attrs_str : string) : bool :=
  endswith "/" (rstrip attrs_str) || mem tag_name void_elements.

(** The body of the outer [while] loop of [render_aml]. *)
Definition iteration (content : string) (pos : nat) (result : list string) : outcome pass :=
  let remaining := sdrop pos content in
  match search true TAG_RE remaining with
  | None => Ok (Break (flush_text result (strip (sdrop pos content))))
  | Some m =>
      let tag_start := (pos + m_start m)%nat in
      let tag_name := lower (group m 1) in
      let attrs_str := group m 2 in
      let result := if (pos <? tag_start)%nat
                    then flush_text result (strip (slice pos tag_start content))
                    else result in
      let tag_end := (tag_start + String.length (group m 0))%nat in
      if self_closing tag_name attrs_str then
        w ← render_widget tag_name (parse_attrs attrs_str) "";
        Ok (Continue tag_end (result ++ [w]))
      else
        let close_tag := "</" +:+ tag_name +:+ ">" in
        found ← find_close content tag_name close_tag (String.length content) 1 tag_end;
        match found with
        | Matched close_start end_pos =>
            let inner_content := slice tag_end close_start content in
            w ← render_widget tag_name (parse_attrs attrs_str) inner_content;
            Ok (Continue end_pos (result ++ [w]))
        | NoCloseLeft => Ok (Continue pos result)
        | Exhausted => Ok (Continue tag_end (result ++ [escape (group m 0)]))
        end
  end.
End Widgets.

Fixpoint render_aml `{PyFloat} (fuel : nat) (content : string) : outcome string :=
  match fuel with
  | O => OutOfFuel
  | S fuel' => loop (iteration (render_aml fuel')) content fuel 0 []
  end.

End Scenarios.

(** ** Reference readings

    The definitions of this part do not come from the program.  They write
    down inputs of a known shape and what the specification says about
    them, to be compared with the program. *)

(** *** Attribute texts *)

Fixpoint take_while (c : ascii -> bool) (s : string) : string :=
  match s with
  | String a r => if c a then String a (take_while c r) else EmptyString
  | EmptyString => EmptyString
  end.

Fixpoint all_chars (c : ascii -> bool) (s : string) : bool :=
  match s with
  | String a r => c a && all_chars c r
  | EmptyString => true
  end.

(** The attribute grammar in the words of the specification: an
    identifier, the equals sign, and a value between two quotes of the same
    kind that holds no quote of that kind. *)
Definition spec_attr_at (s : string) : option (list string * string) :=
  let name := take_while is_name_char s in
  if nonempty name then
    match sdrop (String.length name) s with
    | String "=" (String q r) =>
        if is_quote q then
          let value := take_while (not_char q) r in
          match sdrop (String.length value) r with
          | String _ rest => Some ([name; value], rest)
          | EmptyString => None
          end
        else None
    | _ => None
    end
  else None.

Definition spec_attr_pairs (attr_str : string) : list (string * string) :=
  pair_of_groups <$> scan_with spec_attr_at attr_str O.

(** One attribute as the program reads it: some text that is skipped, a
    name, the equals sign, a quote of either kind, a value, a quote of
    either kind. *)
Record attr_item : Type := AttrItem {
  a_skipped : string;
  a_name : string;
  a_open : ascii;
  a_value : string;
  a_close : ascii
}.

Definition attr_item_text (it : attr_item) : string :=
  a_skipped it +:+ a_name it +:+ "=" +:+ str (a_open it) +:+ a_value it +:+ str (a_close it).

Definition attr_text (items : list attr_item) (trailing : string) : string :=
  concat (attr_item_text <$> items) +:+ trailing.

(** Text without an equals sign directly followed by a quote. *)
Fixpoint no_assignment (s : string) : bool :=
  match s with
  | String a r =>
      negb (is_char "=" a && match r with
                             | String b _ => is_quote b
                             | EmptyString => false
                             end)
      && no_assignment r
  | EmptyString => true
  end.

Fixpoint last_char (s : string) : option ascii :=
  match s with
  | EmptyString => None
  | String a EmptyString => Some a
  | String _ r => last_char r
  end.

(** Skipped text holds no assignment and does not run into the name that
    follows it: its last character is an ASCII character that cannot be
    part of a name. *)
Definition skippable (s : string) : bool :=
  no_assignment s && match last_char s with
                     | Some a => negb (is_name_char a) && (code a <? 128)%nat
                     | None => true
                     end.

Definition attr_item_ok (it : attr_item) : bool :=
  skippable (a_skipped it)
  && nonempty (a_name it) && all_chars is_name_char (a_name it)
  && is_quote (a_open it)
  && all_chars not_quote (a_value it)
  && is_quote (a_close it).

Definition attr_binding (it : attr_item) : string * string := (a_name it, a_value it).

(** The attribute pattern read from left to right without backtracking:
    the longest run of name characters, the equals sign, a quote, the
    longest run of characters that are not quotes, a quote. *)
Definition attr_value_at (name t : string) : option (list string * string) :=
  match t with
  | String e (String q u) =>
      if Ascii.eqb "=" e then
        if is_quote q then
          let w := lstrip_by not_quote u in
          match w with
          | String q' rest => if is_quote q' then Some ([name; consumed u w], rest) else None
          | EmptyString => None
          end
        else None
      else None
  | _ => None
  end.

Definition attr_at (s : string) : option (list string * string) :=
  match s with
  | String a r =>
      if is_name_char a then
        let t := lstrip_by is_name_char r in attr_value_at (consumed s t) t
      else None
  | EmptyString => None
  end.

(** *** Terminal children *)

Inductive terminal_child : Type :=
| Command (text : string)
| Output (type_ text : string)
| Filler (text : string).

Definition child_markup (c : terminal_child) : string :=
  match c with
  | Command text => "<trait:command>" +:+ text +:+ "</trait:command>"
  | Output type_ text => Q "<trait:output type=`" +:+ type_ +:+ Q "`>" +:+ text +:+ "</trait:output>"
  | Filler text => text
  end.

Definition terminal_markup (children : list terminal_child) : string :=
  concat (child_markup <$> children).

Definition no_lt (s : string) : bool := all_chars (not_char "<") s.

Definition child_ok (c : terminal_child) : bool :=
  match c with
  | Command text => no_lt text
  | Output type_ text => no_lt type_ && all_chars (not_char dquote) type_ && no_lt text
  | Filler text => no_lt text
  end.

Definition child_line (c : terminal_child) : string :=
  match c with
  | Command text => command_line text
  | Output type_ text => output_line (type_, text)
  | Filler _ => ""
  end.

Definition is_command (c : terminal_child) : bool :=
  match c with
  | Command _ => true
  | _ => false
  end.

Definition is_output (c : terminal_child) : bool :=
  match c with
  | Output _ _ => true
  | _ => false
  end.

Definition command_texts (children : list terminal_child) : list string :=
  omap (λ c, match c with
             | Command text => Some text
             | _ => None
             end) children.

Definition output_pairs (children : list terminal_child) : list (string * string) :=
  omap (λ c, match c with
             | Output type_ text => Some (type_, text)
             | _ => None
             end) children.

(** The wrapper that [render_terminal] puts around the lines. *)
Definition terminal_frame (attrs : attrs_t) (lines : string) : string :=
  Q "<div class=`trait-terminal`><div class=`trait-terminal-header`><span class=`trait-terminal-title`>"
  +:+ get attrs "title" "Terminal" +:+ Q "</span></div><div class=`trait-terminal-content`>"
  +:+ lines +:+ "</div></div>".

(** The lines in the order of the document, as the specification has
    them, and grouped by kind. *)
Definition lines_in_document_order (children : list terminal_child) : string :=
  concat (child_line <$> children).

Definition lines_by_kind (children : list terminal_child) : string :=
  concat (child_line <$> List.filter is_command children)
  +:+ concat (child_line <$> List.filter is_output children).

(** *** Nesting

    The closing tag that belongs to an opening tag, in the words of the
    specification: from the position [from], at depth [depth], the next
    occurrence of the opening or of the closing text is looked for; an
    opening occurrence raises the depth, a closing occurrence lowers it,
    and the closing occurrence met at depth 1 is the one that matches.
    [closes_at open_text close_text text depth from close_start] says that
    this walk ends at [close_start]. *)

Definition occurs_at (lit text : string) (i : nat) : bool := startswith lit (sdrop i text).

Definition quiet_between (open_text close_text text : string) (from n : nat) : Prop :=
  forall i, (from <= i < n)%nat ->
            occurs_at open_text text i = false /\ occurs_at close_text text i = false.

Inductive closes_at (open_text close_text text : string) : nat -> nat -> nat -> Prop :=
| closes_here (from n : nat) :
    (from <= n)%nat ->
    quiet_between open_text close_text text from n ->
    occurs_at close_text text n = true ->
    closes_at open_text close_text text 1 from n
| closes_after_closing (depth from n close_start : nat) :
    (1 <= depth)%nat -> (from <= n)%nat ->
    quiet_between open_text close_text text from n ->
    occurs_at close_text text n = true ->
    closes_at open_text close_text text depth (n + String.length close_text) close_start ->
    closes_at open_text close_text text (S depth) from close_start
| closes_after_opening (depth from n close_start : nat) :
    (from <= n)%nat ->
    quiet_between open_text close_text text from n ->
    occurs_at open_text text n = true ->
    closes_at open_text close_text text (S depth) (n + String.length open_text) close_start ->
    closes_at open_text close_text text depth from close_start.

(** *** Notions used in the proofs *)

(** No match starts at any position of [x] when [rest] follows it. *)
Fixpoint dead_in (at_ : string -> option (list string * string)) (x rest : string) : Prop :=
  match x with
  | EmptyString => True
  | String _ x' => at_ (x +:+ rest) = None /\ dead_in at_ x' rest
  end.

Definition head_not_quote (rest : string) : Prop :=
  match rest with
  | String b _ => is_quote b = false
  | EmptyString => True
  end.

Definition ends_outside_name (j : string) : Prop :=
  match last_char j with
  | Some b => is_name_char b = false
  | None => True
  end.

(** The matcher [at_] needs the character [<] to start a match. *)
Definition starts_with_lt (at_ : string -> option (list string * string)) : Prop :=
  forall a t, Ascii.eqb "<" a = false -> at_ (String a t) = None.

(** ** Further reference readings *)

(** An implementation of the float interface by exact fractions; it gives
    the statements made for every implementation an instance. *)
Definition fraction_floats : PyFloat :=
  {| pyfloat := Z * Z;
     truediv := λ a b, Some (a, b);
     fmul := λ x n, (x.1 * n, x.2)%Z;
     flt := λ x n, (x.1 * Z.sgn x.2 <? n * Z.abs x.2)%Z;
     fgt := λ x n, (n * Z.abs x.2 <? x.1 * Z.sgn x.2)%Z;
     float_str := λ x, str_of_int x.1 +:+ "/" +:+ str_of_int x.2 |}.



(** Text in ASCII.  On such text [str.lower] keeps every index, and
    [str.strip], [int] and the character classes of the patterns are the
    ASCII ones of this file. *)
Definition ascii_text (s : string) : bool := all_chars (λ a, (code a <? 128)%nat) s.

(** *** Children written one after another

    The content of a list, of a breadcrumb or of a table row: children
    [<trait:NAME...>text</trait:NAME>], where the opening tag may carry
    any attribute text, and text between them. *)
Inductive element : Type :=
| Element (attr_text text : string)
| Text (text : string).

Definition element_markup (name : string) (e : element) : string :=
  match e with
  | Element attr_text text =>
      ("<trait:" +:+ name) +:+ attr_text +:+ ">" +:+ text +:+ ("</trait:" +:+ name +:+ ">")
  | Text text => text
  end.

Definition elements_markup (name : string) (es : list element) : string :=
  concat (element_markup name <$> es).

(** [dot] is the class of the characters that the text of a child may
    have. *)
Definition element_ok (dot : ascii -> bool) (e : element) : bool :=
  match e with
  | Element attr_text text =>
      all_chars (not_char ">") attr_text && all_chars dot text && no_lt text
  | Text text => no_lt text
  end.

Definition element_texts (es : list element) : list string :=
  omap (λ e, match e with
             | Element _ text => Some text
             | Text _ => None
             end) es.

(** A child is tidy when the text of its opening tag has no [<] either, as
    the crumbs of a breadcrumb and the cells of a table are written; a
    text is on one line when it has no newline. *)
Definition element_tidy (e : element) : bool :=
  match e with
  | Element attr_text text => all_chars (not_char ">") attr_text && no_lt attr_text && no_lt text
  | Text text => no_lt text
  end.

Definition one_line (s : string) : bool := all_chars (not_char newline) s.

(** *** The children of a todo

    Items with a [done] attribute, items without one, and text between
    them. *)
Inductive todo_child : Type :=
| Task (done text : string)
| Plain (text : string)
| Aside (text : string).

Definition todo_markup (c : todo_child) : string :=
  match c with
  | Task done text => Q "<trait:item done=`" +:+ done +:+ Q "`>" +:+ text +:+ "</trait:item>"
  | Plain text => "<trait:item>" +:+ text +:+ "</trait:item>"
  | Aside text => text
  end.

Definition todo_ok (c : todo_child) : bool :=
  match c with
  | Task done text => all_chars (not_char dquote) done && no_lt text
  | Plain text => no_lt text
  | Aside text => no_lt text
  end.

Definition tasks (children : list todo_child) : list (string * string) :=
  omap (λ c, match c with
             | Task done text => Some (done, text)
             | _ => None
             end) children.

(** *** Passes seen from a later cursor

    The outcome of a pass, or of the search for a closing tag, made on the
    text from the position [pos] on, read as an outcome on the whole
    text. *)
Definition shifted (pos : nat) (result : list string) (p : outcome pass) : outcome pass :=
  match p with
  | Ok (Break r) => Ok (Break (result ++ r))
  | Ok (Continue q r) => Ok (Continue (pos + q) (result ++ r))
  | Raise e => Raise e
  | OutOfFuel => OutOfFuel
  end.

Definition shift_found (pos : nat) (found : outcome Scenarios.close_search)
  : outcome Scenarios.close_search :=
  match found with
  | Ok (Scenarios.Matched close_start end_pos) =>
      Ok (Scenarios.Matched (pos + close_start) (pos + end_pos))
  | other => other
  end.

(** *** The rows of a table

    Rows, with or without [header=`true`], whose content is a sequence of
    cells, and text outside the rows. *)
Inductive table_child : Type :=
| Row (header : bool) (cells : list element)
| Outside (text : string).

Definition row_attr_text (header : bool) : string :=
  if header then Q " header=`true`" else "".

Definition row_inner (cells : list element) : string := elements_markup "cell" cells.

Definition table_markup (c : table_child) : string :=
  match c with
  | Row header cells =>
      "<trait:row" +:+ row_attr_text header +:+ ">" +:+ row_inner cells +:+ "</trait:row>"
  | Outside text => text
  end.

Definition table_ok (c : table_child) : bool :=
  match c with
  | Row _ cells => forallb element_tidy cells
  | Outside text => no_lt text
  end.

Definition header_rows (children : list table_child) : list (list element) :=
  omap (λ c, match c with
             | Row true cells => Some cells
             | _ => None
             end) children.

Definition all_rows (children : list table_child) : list (list element) :=
  omap (λ c, match c with
             | Row _ cells => Some cells
             | Outside _ => None
             end) children.

(** The cells of a row as [render_cells] writes them. *)
Definition cells_html (cells : list element) : string :=
  concat ((λ text, Q "<td class=`trait-cell`>" +:+ escape (strip text) +:+ "</td>")
          <$> element_texts cells).

(** *** An element in front of a document

    The opening and the closing tag as they are written, and the test
    that a text does not go on with a character of the class [c]. *)
Definition opening_tag (name attrs_text : string) : string :=
  "<trait:" +:+ name +:+ attrs_text +:+ ">".


Definition head_outside (c : ascii -> bool) (s : string) : bool :=
  match s with
  | String a _ => negb (c a)
  | EmptyString => true
  end.

(** * Properties *)

(** ** Strings *)

#[local] Arguments String.append !s1 s2 / : simpl nomatch.

Lemma sapp_nil_r (s : string) : s +:+ "" = s.
Proof. induction s as [|a s IH]; cbn; [reflexivity | now f_equal]. Qed.

Lemma sapp_assoc (s t u : string) : (s +:+ t) +:+ u = s +:+ (t +:+ u).
Proof. induction s as [|a s IH]; cbn; [reflexivity | now f_equal]. Qed.

Lemma slength_app (s t : string) :
  String.length (s +:+ t) = (String.length s + String.length t)%nat.
Proof. induction s as [|a s IH]; cbn; [reflexivity | now f_equal]. Qed.

Lemma sdrop_length (n : nat) (s : string) :
  String.length (sdrop n s) = (String.length s - n)%nat.
Proof.
  revert s; induction n as [|n IH]; intros [|a s]; simpl; try reflexivity.
  apply IH.
Qed.

Lemma stake_length (n : nat) (s : string) :
  (String.length (stake n s) <= n)%nat.
Proof.
  revert s; induction n as [|n IH]; intros [|a s]; simpl; try lia.
  specialize (IH s); lia.
Qed.

Lemma stake_length_le (n : nat) (s : string) :
  (String.length (stake n s) <= String.length s)%nat.
Proof.
  revert s; induction n as [|n IH]; intros [|a s]; simpl; try lia.
  specialize (IH s); lia.
Qed.

Lemma slice_length (a b : nat) (s : string) :
  (String.length (slice a b s) <= String.length s - a)%nat.
Proof.
  unfold slice. etransitivity; [apply stake_length_le|]. now rewrite sdrop_length.
Qed.

Lemma stake_length_eq (n : nat) (s : string) :
  (n <= String.length s)%nat -> String.length (stake n s) = n.
Proof.
  revert s; induction n as [|n IH]; intros [|a s]; simpl; try lia.
  intros Hn. f_equal. apply IH. lia.
Qed.

Lemma stake_app (s t : string) : stake (String.length s) (s +:+ t) = s.
Proof. induction s as [|a s IH]; cbn; [now destruct t | now f_equal]. Qed.


Lemma consumed_app (m rest : string) : consumed (m +:+ rest) rest = m.
Proof.
  unfold consumed. rewrite slength_app.
  replace (String.length m + String.length rest - String.length rest)%nat
    with (String.length m) by lia.
  apply stake_app.
Qed.

Lemma strip_prefix_app (p s r : string) :
  strip_prefix p s = Some r -> s = p +:+ r.
Proof.
  revert s; induction p as [|a p IH]; intros s Hs; simpl in *.
  - congruence.
  - destruct s as [|b s]; [discriminate|].
    destruct (Ascii.eqb_spec a b) as [->|]; [|discriminate].
    cbn. f_equal. now apply IH.
Qed.

Lemma strip_prefix_here (p r : string) : strip_prefix p (p +:+ r) = Some r.
Proof.
  induction p as [|a p IH]; simpl; [reflexivity|].
  now rewrite Ascii.eqb_refl.
Qed.

Lemma strip_prefix_length (p s r : string) :
  strip_prefix p s = Some r -> String.length s = (String.length p + String.length r)%nat.
Proof. intros Hs. rewrite (strip_prefix_app _ _ _ Hs). apply slength_app. Qed.

Lemma strip_prefix_ci_length (p s r : string) :
  strip_prefix_ci p s = Some r -> String.length s = (String.length p + String.length r)%nat.
Proof.
  revert s; induction p as [|a p IH]; intros s Hs; simpl in *.
  - now inversion Hs.
  - destruct s as [|b s]; [discriminate|].
    destruct (Ascii.eqb _ _); [|discriminate].
    simpl. now rewrite (IH _ Hs).
Qed.

(** ** The matcher only moves forward *)

Lemma greedy_length {R : Type} (P : R -> nat -> Prop) c (k : string -> option R) :
  (forall s x, k s = Some x -> P x (String.length s)) ->
  (forall x n m, P x n -> (n <= m)%nat -> P x m) ->
  forall s x, greedy c k s = Some x -> P x (String.length s).
Proof.
  intros Hk Hmono s; induction s as [|a s IH]; intros x; simpl.
  - apply Hk.
  - destruct (c a); [|apply Hk].
    destruct (greedy c k s) as [y|] eqn:Hg.
    + intros [= <-]. eapply Hmono; [apply IH; reflexivity | simpl; lia].
    + apply Hk.
Qed.

Lemma lazy_length {R : Type} (P : R -> nat -> Prop) c (k : string -> option R) :
  (forall s x, k s = Some x -> P x (String.length s)) ->
  (forall x n m, P x n -> (n <= m)%nat -> P x m) ->
  forall s x, lazy c k s = Some x -> P x (String.length s).
Proof.
  intros Hk Hmono s; induction s as [|a s IH]; intros x; simpl.
  - destruct (k "") eqn:Hk0; [|discriminate]. intros [= <-]. now apply (Hk "").
  - destruct (k (String a s)) eqn:Hk0.
    + intros [= <-]. now apply (Hk (String a s)).
    + destruct (c a); [|discriminate].
      intros Hl. eapply Hmono; [apply IH, Hl | simpl; lia].
Qed.

(** What is left after a match is no longer than the text matched
    against. *)
Lemma exec_length ic p opens caps s caps' rest :
  exec ic p opens caps s = Some (caps', rest) ->
  (String.length rest <= String.length s)%nat.
Proof.
  revert opens caps s caps' rest.
  induction p as [|t p IH]; intros opens caps s caps' rest; simpl.
  - now intros [= _ <-].
  - destruct t as [l|c|c|c|c| |].
    + destruct ic.
      * destruct (strip_prefix_ci l s) as [r|] eqn:Hl; [|discriminate].
        intros He. apply IH in He. apply strip_prefix_ci_length in Hl. lia.
      * destruct (strip_prefix l s) as [r|] eqn:Hl; [|discriminate].
        intros He. apply IH in He. apply strip_prefix_length in Hl. lia.
    + destruct s as [|a s]; [discriminate|]. destruct (c a); [|discriminate].
      intros He. apply IH in He. simpl. lia.
    + apply (greedy_length (fun x n => String.length x.2 <= n)%nat c
               (exec ic p opens caps)).
      * intros s' [c' r'] He. simpl. now apply IH in He.
      * intros; lia.
    + destruct s as [|a s]; [discriminate|]. destruct (c a); [|discriminate].
      intros He.
      apply (greedy_length (fun x n => String.length x.2 <= n)%nat c
               (exec ic p opens caps)) in He; simpl in *; [lia | | intros; lia].
      intros s' [c' r'] He'. simpl. now apply IH in He'.
    + apply (lazy_length (fun x n => String.length x.2 <= n)%nat c
               (exec ic p opens caps)).
      * intros s' [c' r'] He. simpl. now apply IH in He.
      * intros; lia.
    + apply IH.
    + destruct opens; [discriminate|]. apply IH.
Qed.

Lemma exec_lit_length ic l p opens caps s caps' rest :
  exec ic (Lit l :: p) opens caps s = Some (caps', rest) ->
  (String.length l + String.length rest <= String.length s)%nat.
Proof.
  simpl. destruct ic.
  - destruct (strip_prefix_ci l s) as [r|] eqn:Hl; [|discriminate].
    intros He. apply exec_length in He. apply strip_prefix_ci_length in Hl. lia.
  - destruct (strip_prefix l s) as [r|] eqn:Hl; [|discriminate].
    intros He. apply exec_length in He. apply strip_prefix_length in Hl. lia.
Qed.

Lemma search_at_start ic p s i m :
  search_at ic p s i = Some m -> (i <= m_start m)%nat.
Proof.
  revert i; induction s as [|a s IH]; intros i; simpl.
  - destruct (exec ic p [] [] "") as [[caps rest]|]; [|discriminate].
    now intros [= <-].
  - destruct (exec ic p [] [] (String a s)) as [[caps rest]|].
    + now intros [= <-].
    + intros Hs. apply IH in Hs. lia.
Qed.

(** A tag found by the scanner is at least one character long. *)
Lemma search_tag_text s i m :
  search_at true TAG_RE s i = Some m -> (1 <= String.length (m_text m))%nat.
Proof.
  revert i; induction s as [|a s IH]; intros i.
  - simpl. discriminate.
  - cbn [search_at].
    destruct (exec true TAG_RE [] [] (String a s)) as [[caps rest]|] eqn:He.
    + intros [= <-]. cbn [m_text]. unfold consumed.
      apply exec_lit_length in He. change (String.length "<") with 1%nat in He.
      rewrite stake_length_eq; lia.
    + apply IH.
Qed.

(** ** More fuel does not change an outcome *)

Lemma bind_unfold {A B : Type} (f : A -> outcome B) (x : outcome A) :
  x ≫= f = match x with
           | Ok a => f a
           | Raise e => Raise e
           | OutOfFuel => OutOfFuel
           end.
Proof. reflexivity. Qed.

Lemma bind_stable {A B : Type} (f : A -> outcome B) (x x' : outcome A) :
  (x <> OutOfFuel -> x' = x) ->
  x ≫= f <> OutOfFuel -> x' ≫= f = x ≫= f.
Proof.
  intros Hx. rewrite !bind_unfold. destruct x as [a|e|]; intros Hf.
  - now rewrite Hx.
  - now rewrite Hx.
  - congruence.
Qed.

Lemma loop_unfold it content fuel pos result :
  loop it content fuel pos result =
  if (pos <? String.length content)%nat then
    match fuel with
    | O => OutOfFuel
    | S fuel' =>
        p ← it content pos result;
        match p with
        | Break result' => Ok (concat result')
        | Continue pos' result' => loop it content fuel' pos' result'
        end
    end
  else Ok (concat result).
Proof. destruct fuel; reflexivity. Qed.

Section MoreFuel.
Variables it it' : string -> nat -> list string -> outcome pass.
Hypothesis it_stable :
  forall content pos result,
    it content pos result <> OutOfFuel -> it' content pos result = it content pos result.

Lemma loop_more_fuel content fuel fuel' pos result :
  (fuel <= fuel')%nat ->
  loop it content fuel pos result <> OutOfFuel ->
  loop it' content fuel' pos result = loop it content fuel pos result.
Proof.
  revert fuel' pos result; induction fuel as [|fuel IH]; intros fuel' pos result Hle;
    rewrite (loop_unfold it), (loop_unfold it');
    destruct (pos <? String.length content)%nat; try reflexivity; try congruence.
  destruct fuel' as [|fuel']; [lia|].
  rewrite !bind_unfold.
  destruct (it content pos result) as [p|e|] eqn:Hit; try congruence;
    rewrite it_stable, Hit by congruence; try reflexivity.
  destruct p as [r|pos' r]; [reflexivity|].
  apply IH. lia.
Qed.
End MoreFuel.

Section ContainersStable.
Variables render render' : string -> outcome string.
Hypothesis render_stable :
  forall content, render content <> OutOfFuel -> render' content = render content.

Lemma render_card_stable attrs content :
  render_card render attrs content <> OutOfFuel ->
  render_card render' attrs content = render_card render attrs content.
Proof. unfold render_card. apply bind_stable, render_stable. Qed.

Lemma render_grid_stable attrs content :
  render_grid render attrs content <> OutOfFuel ->
  render_grid render' attrs content = render_grid render attrs content.
Proof. unfold render_grid. apply bind_stable, render_stable. Qed.

Lemma render_filetree_stable attrs content :
  render_filetree render attrs content <> OutOfFuel ->
  render_filetree render' attrs content = render_filetree render attrs content.
Proof. unfold render_filetree. apply bind_stable, render_stable. Qed.

Lemma render_folder_stable attrs content :
  render_folder render attrs content <> OutOfFuel ->
  render_folder render' attrs content = render_folder render attrs content.
Proof. unfold render_folder. apply bind_stable, render_stable. Qed.

Context `{PyFloat}.

Ltac by_cases_on_tag :=
  repeat match goal with
    | |- context [if String.eqb ?a ?b then _ else _] => destruct (String.eqb a b)
    | |- context [if mem ?a ?l then _ else _] => destruct (mem a l)
    end;
  first [ apply render_card_stable | apply render_grid_stable
        | apply render_filetree_stable | apply render_folder_stable
        | reflexivity ].

Lemma test_aml_widget_stable tag_name attrs content :
  TestAml.render_widget render tag_name attrs content <> OutOfFuel ->
  TestAml.render_widget render' tag_name attrs content
  = TestAml.render_widget render tag_name attrs content.
Proof.
  unfold TestAml.render_widget, TestAml.renderers. cbn [lookup_renderer].
  by_cases_on_tag.
Qed.

Lemma scenarios_widget_stable tag_name attrs content :
  Scenarios.render_widget render tag_name attrs content <> OutOfFuel ->
  Scenarios.render_widget render' tag_name attrs content
  = Scenarios.render_widget render tag_name attrs content.
Proof. unfold Scenarios.render_widget. by_cases_on_tag. Qed.

Lemma test_aml_iteration_stable content pos result :
  TestAml.iteration render content pos result <> OutOfFuel ->
  TestAml.iteration render' content pos result = TestAml.iteration render content pos result.
Proof.
  unfold TestAml.iteration.
  destruct (search true TAG_RE (sdrop pos content)) as [m|]; [|reflexivity].
  cbv zeta.
  destruct (TestAml.self_closing _ _ _).
  - apply bind_stable, test_aml_widget_stable.
  - destruct (find _ _ _); [|reflexivity].
    apply bind_stable, test_aml_widget_stable.
Qed.

Lemma scenarios_iteration_stable content pos result :
  Scenarios.iteration render content pos result <> OutOfFuel ->
  Scenarios.iteration render' content pos result
  = Scenarios.iteration render content pos result.
Proof.
  unfold Scenarios.iteration. cbv zeta.
  destruct (search true TAG_RE (sdrop pos content)) as [m|]; [|reflexivity].
  destruct (Scenarios.self_closing _ _).
  - apply bind_stable, scenarios_widget_stable.
  - rewrite !bind_unfold.
    match goal with
    | |- context [Scenarios.find_close ?a ?b ?c ?d ?e ?f] =>
        generalize (Scenarios.find_close a b c d e f)
    end.
    intros [[cs e| |]|e|];
      [apply bind_stable, scenarios_widget_stable | reflexivity ..].
Qed.
End ContainersStable.

Section FuelIndependence.
Context `{PyFloat}.

Lemma test_aml_more_fuel fuel fuel' content :
  (fuel <= fuel')%nat ->
  TestAml.render_aml fuel content <> OutOfFuel ->
  TestAml.render_aml fuel' content = TestAml.render_aml fuel content.
Proof.
  revert fuel' content; induction fuel as [|fuel IH]; intros fuel' content Hle Hok.
  - now contradict Hok.
  - destruct fuel' as [|fuel']; [lia|].
    cbn [TestAml.render_aml] in *.
    apply loop_more_fuel; [|lia|exact Hok].
    intros c p r. apply test_aml_iteration_stable.
    intros c' Hc'. apply IH; [lia | exact Hc'].
Qed.

Lemma scenarios_more_fuel fuel fuel' content :
  (fuel <= fuel')%nat ->
  Scenarios.render_aml fuel content <> OutOfFuel ->
  Scenarios.render_aml fuel' content = Scenarios.render_aml fuel content.
Proof.
  revert fuel' content; induction fuel as [|fuel IH]; intros fuel' content Hle Hok.
  - now contradict Hok.
  - destruct fuel' as [|fuel']; [lia|].
    cbn [Scenarios.render_aml] in *.
    apply loop_more_fuel; [|lia|exact Hok].
    intros c p r. apply scenarios_iteration_stable.
    intros c' Hc'. apply IH; [lia | exact Hc'].
Qed.

(** An outcome computed with some fuel is the outcome with any larger
    amount. *)
Lemma test_aml_settled fuel content out n :
  TestAml.render_aml fuel content = out -> out <> OutOfFuel ->
  TestAml.render_aml (fuel + n) content = out.
Proof. intros <- Hok. apply test_aml_more_fuel; [lia | exact Hok]. Qed.

Lemma scenarios_settled fuel content out n :
  Scenarios.render_aml fuel content = out -> out <> OutOfFuel ->
  Scenarios.render_aml (fuel + n) content = out.
Proof. intros <- Hok. apply scenarios_more_fuel; [lia | exact Hok]. Qed.
End FuelIndependence.

(** ** The composer on particular documents *)

Lemma loop_stuck it content pos result :
  (pos <? String.length content)%nat = true ->
  it content pos result = Ok (Continue pos result) ->
  forall fuel, loop it content fuel pos result = OutOfFuel.
Proof.
  intros Hpos Hit fuel; induction fuel as [|fuel IH];
    rewrite loop_unfold, Hpos; [reflexivity|].
  rewrite Hit, bind_unfold. exact IH.
Qed.

Section Documents.
Context `{PyFloat}.

(** C1.  In [test_aml.py] the opening tag is paired with the first closing
    tag of its name, whatever the nesting: of two nested cards only the
    outer one becomes a card wrapper, its content stops at the first
    closing tag, the inner opening tag is printed as escaped text and the
    last closing tag as a paragraph. *)
Theorem test_aml_nested_cards_first_closer (n : nat) :
  TestAml.render_aml (3 + n) "<trait:card><trait:card>X</trait:card></trait:card>"
  = Ok (Q "<div class=`trait-card`><div class=`trait-card-content`>&lt;trait:card&gt;<div class=`trait-text-content`><p>X</p></div></div></div><div class=`trait-text-content`><p>&lt;/trait:card&gt;</p></div>").
Proof. apply test_aml_settled; [vm_compute; reflexivity | discriminate]. Qed.

(** The sibling [render_aml] of [test_aml_scenarios.py] counts the depth
    and renders the same document as two nested card wrappers. *)
Lemma scenarios_nested_cards (n : nat) :
  Scenarios.render_aml (3 + n) "<trait:card><trait:card>X</trait:card></trait:card>"
  = Ok (Q "<div class=`trait-card`><div class=`trait-card-content`><div class=`trait-card`><div class=`trait-card-content`><div class=`trait-text-content`><p>X</p></div></div></div></div></div>").
Proof. apply scenarios_settled; [vm_compute; reflexivity | discriminate]. Qed.

(** C2.  In [test_aml_scenarios.py] the composer does not terminate on an
    opening tag that no closing tag follows: whatever the number of passes
    allowed, the loop has not finished. *)
Theorem scenarios_unclosed_tag_never_returns (fuel : nat) :
  Scenarios.render_aml fuel "<trait:list>no closing tag here" = OutOfFuel.
Proof.
  destruct fuel as [|fuel]; [reflexivity|].
  cbn [Scenarios.render_aml].
  apply loop_stuck; vm_compute; reflexivity.
Qed.

(** C3.  A progress tag whose [value] or [max] is not a number, and a chart
    whose data child has a [value] that is not a number, make the whole
    render raise [ValueError], in both files. *)
Theorem non_numeric_value_raises (n : nat) :
  TestAml.render_aml (1 + n) (Q "<trait:progress value=`abc` max=`100`/>") = Raise ValueError
  /\ TestAml.render_aml (1 + n) (Q "<trait:progress value=`5` max=`ten`/>") = Raise ValueError
  /\ TestAml.render_aml (1 + n)
       (Q "<trait:chart><trait:data label=`a` value=`lots`/></trait:chart>") = Raise ValueError
  /\ Scenarios.render_aml (1 + n) (Q "<trait:progress value=`abc` max=`100`/>") = Raise ValueError
  /\ Scenarios.render_aml (1 + n) (Q "<trait:progress value=`5` max=`ten`/>") = Raise ValueError
  /\ Scenarios.render_aml (1 + n)
       (Q "<trait:chart><trait:data label=`a` value=`lots`/></trait:chart>") = Raise ValueError.
Proof.
  repeat split;
    first [ apply test_aml_settled | apply scenarios_settled ];
    first [ vm_compute; reflexivity | discriminate ].
Qed.

(** C4.  The [value] and [label] of a metric and the [file] and [language]
    of a code block reach the output as they are written: the [<] and the
    [&] of the attribute values below are not escaped. *)
Theorem attribute_values_not_escaped (n : nat) :
  TestAml.render_aml (1 + n) (Q "<trait:metric value=`<b` label=`R&D`/>")
  = Ok (Q "<div class=`trait-metric`>" +:+ NL
        +:+ Q "    <div class=`trait-metric-value`><b</div>" +:+ NL
        +:+ Q "    <div class=`trait-metric-label`>R&D</div>" +:+ NL
        +:+ "</div>")
  /\ TestAml.render_aml (1 + n) (Q "<trait:code file=`a<b` language=`c&d`>x</trait:code>")
     = Ok (Q "<div class=`trait-code-block`>" +:+ NL
           +:+ Q "    <div class=`trait-code-header`><span class=`trait-code-file`>a<b</span><span class=`trait-code-lang`>c&d</span></div>" +:+ NL
           +:+ Q "    <pre class=`trait-code`>x</pre>" +:+ NL
           +:+ "</div>")
  /\ Scenarios.render_aml (1 + n) (Q "<trait:metric value=`<b` label=`R&D`/>")
     = Ok (Q "<div class=`trait-metric`><div class=`trait-metric-value`><b</div><div class=`trait-metric-label`>R&D</div></div>")
  /\ escape "<b" = "&lt;b" /\ escape "R&D" = "R&amp;D".
Proof.
  repeat split;
    first [ apply test_aml_settled | apply scenarios_settled | idtac ];
    first [ vm_compute; reflexivity | discriminate ].
Qed.

(** C5.  In [test_aml_scenarios.py] a pass of the loop over an opening tag
    that no closing tag follows emits nothing and leaves the cursor where
    it was: the tag is not printed as escaped text and the scan does not
    resume after it. *)
Theorem scenarios_unclosed_tag_pass (render : string -> outcome string)
    (result : list string) :
  Scenarios.iteration render "<trait:list>no closing tag here" 0 result
  = Ok (Continue 0 result).
Proof. vm_compute. reflexivity. Qed.

(** On the same document [test_aml.py] prints the opening tag escaped and
    goes on after it. *)
Lemma test_aml_unclosed_tag (n : nat) :
  TestAml.render_aml (2 + n) "<trait:list>no closing tag here"
  = Ok (Q "&lt;trait:list&gt;<div class=`trait-text-content`><p>no closing tag here</p></div>").
Proof. apply test_aml_settled; [vm_compute; reflexivity | discriminate]. Qed.

(** C7.  A data row whose content is the text of the header row is left
    out of the body: one header row and two data rows give one header row
    and a single body row, in both files. *)
Theorem table_drops_row_equal_to_header (n : nat) :
  let document :=
    Q "<trait:table><trait:row header=`true`><trait:cell>Name</trait:cell></trait:row><trait:row><trait:cell>Name</trait:cell></trait:row><trait:row><trait:cell>Ann</trait:cell></trait:row></trait:table>" in
  let rendered :=
    Q "<table class=`trait-table`><tbody><tr class=`trait-row trait-row-header`><th class=`trait-cell`>Name</th></tr><tr class=`trait-row`><td class=`trait-cell`>Ann</td></tr></tbody></table>" in
  TestAml.render_aml (1 + n) document = Ok rendered
  /\ Scenarios.render_aml (1 + n) document = Ok rendered.
Proof.
  split; first [ apply test_aml_settled | apply scenarios_settled ];
    first [ vm_compute; reflexivity | discriminate ].
Qed.

(** C8.  In [test_aml.py] a void element written without a slash, and a
    tag whose slash is followed by a blank, are not self-closing: no
    closing tag follows, so each is printed as escaped text. *)
Theorem test_aml_void_element_not_self_closing (n : nat) :
  TestAml.render_aml (1 + n) "<trait:br>" = Ok "&lt;trait:br&gt;"
  /\ TestAml.render_aml (1 + n) "<trait:divider>" = Ok "&lt;trait:divider&gt;"
  /\ TestAml.render_aml (1 + n) (Q "<trait:metric value=`1` / >")
     = Ok "&lt;trait:metric value=&quot;1&quot; / &gt;".
Proof.
  repeat split; apply test_aml_settled;
    first [ vm_compute; reflexivity | discriminate ].
Qed.

(** The same documents in [test_aml_scenarios.py]. *)
Lemma scenarios_void_element_self_closing (n : nat) :
  Scenarios.render_aml (1 + n) "<trait:br>" = Ok "<br>"
  /\ Scenarios.render_aml (1 + n) "<trait:divider>" = Ok (Q "<hr class=`trait-divider`>")
  /\ Scenarios.render_aml (1 + n) (Q "<trait:metric value=`1` / >")
     = Ok (Q "<div class=`trait-metric`><div class=`trait-metric-value`>1</div><div class=`trait-metric-label`></div></div>").
Proof.
  repeat split; apply scenarios_settled;
    first [ vm_compute; reflexivity | discriminate ].
Qed.

End Documents.

(** ** The attribute mapping *)

Lemma store_step_other (ms : list (string * string)) (attrs : gmap string string) (k : string) :
  k ∉ ms.*1 ->
  foldl (λ attrs kv, <[kv.1 := kv.2]> attrs) attrs ms !! k = attrs !! k.
Proof.
  revert attrs; induction ms as [|[k' v'] ms IH]; intros attrs Hk; simpl; [reflexivity|].
  rewrite fmap_cons, not_elem_of_cons in Hk. destruct Hk as [Hne Hk].
  rewrite IH by exact Hk. simpl in *. now rewrite lookup_insert_ne.
Qed.

Lemma store_attrs_last (earlier later : list (string * string)) (k v : string) :
  k ∉ later.*1 ->
  store_attrs (earlier ++ (k, v) :: later) !! k = Some v.
Proof.
  intros Hk. unfold store_attrs. rewrite foldl_app. simpl.
  rewrite store_step_other by exact Hk. apply lookup_insert_eq.
Qed.

Lemma store_attrs_absent (ms : list (string * string)) (k : string) :
  k ∉ ms.*1 -> store_attrs ms !! k = None.
Proof. intros Hk. unfold store_attrs. now rewrite store_step_other. Qed.

(** C10.  Of the pairs that the pattern finds in an attribute text, the
    last one with a given name decides the value bound to that name. *)
Theorem parse_attrs_last_wins (attr_str name value : string)
    (earlier later : list (string * string)) :
  findall2 ATTR_RE attr_str = earlier ++ (name, value) :: later ->
  name ∉ later.*1 ->
  parse_attrs attr_str !! name = Some value.
Proof.
  intros Hfound Hlast. unfold parse_attrs. rewrite Hfound.
  now apply store_attrs_last.
Qed.

Lemma parse_attrs_last_wins_witness :
  parse_attrs (Q "color=`red` size='3' color=`blue`") !! "color" = Some "blue".
Proof.
  apply (parse_attrs_last_wins (Q "color=`red` size='3' color=`blue`") "color" "blue"
           [("color", "red"); ("size", "3")] []).
  - vm_compute. reflexivity.
  - simpl. apply not_elem_of_nil.
Defined.

(** ** Scanning a text piece by piece *)

Lemma scan_skip at_ (m rest : string) :
  scan_with at_ (m +:+ rest) (String.length m) = scan_with at_ rest 0.
Proof. induction m as [|a m IH]; simpl; [reflexivity | exact IH]. Qed.

(** A match at the head of the text is reported and the scan goes on
    after it. *)
Lemma scan_hit at_ (a : ascii) (m rest : string) (caps : list string) :
  at_ (String a m +:+ rest) = Some (caps, rest) ->
  scan_with at_ (String a m +:+ rest) 0 = caps :: scan_with at_ rest 0.
Proof.
  intros Hat. simpl. simpl in Hat. rewrite Hat. f_equal.
  rewrite slength_app.
  replace (S (String.length m + String.length rest) - String.length rest - 1)%nat
    with (String.length m) by lia.
  apply scan_skip.
Qed.

Lemma scan_dead at_ (x rest : string) :
  dead_in at_ x rest -> scan_with at_ (x +:+ rest) 0 = scan_with at_ rest 0.
Proof.
  induction x as [|a x IH]; [reflexivity|].
  intros [Hat Hx]. simpl in *. rewrite Hat. now apply IH.
Qed.

Lemma dead_in_app at_ (x y rest : string) :
  dead_in at_ x (y +:+ rest) -> dead_in at_ y rest -> dead_in at_ (x +:+ y) rest.
Proof.
  induction x as [|a x IH]; [now intros _ ?|].
  intros [Hat Hx] Hy. split.
  - simpl in *. now rewrite sapp_assoc.
  - now apply IH.
Qed.

(** A pattern that starts with the literal [<] matches nowhere in a text
    without that character. *)
Lemma exec_starts_with_lt (l : string) (p : pattern) :
  starts_with_lt (exec false (Lit (String "<" l) :: p) [] []).
Proof. intros a t Ha. cbn [exec strip_prefix]. now rewrite Ha. Qed.

Lemma dead_in_no_lt at_ (x rest : string) :
  starts_with_lt at_ -> no_lt x = true -> dead_in at_ x rest.
Proof.
  intros Hat. induction x as [|a x IH]; [easy|].
  unfold no_lt. simpl. intros [Ha Hx]%andb_prop. split.
  - apply Hat. unfold not_char in Ha. now destruct (Ascii.eqb "<" a).
  - now apply IH.
Qed.

Lemma dead_in_tag at_ (y rest : string) :
  starts_with_lt at_ -> no_lt y = true ->
  at_ (String "<" y +:+ rest) = None ->
  dead_in at_ (String "<" y) rest.
Proof. intros Hat Hy Hhere. split; [exact Hhere | now apply dead_in_no_lt]. Qed.

(** ** Repetitions without backtracking *)

(** A greedy repetition whose continuation fails in front of every
    character of the class stops at the end of the longest run. *)
Lemma greedy_det {R : Type} c (k : string -> option R) (s : string) :
  (forall a t, c a = true -> k (String a t) = None) ->
  greedy c k s = k (lstrip_by c s).
Proof.
  intros Hk. induction s as [|a s IH]; simpl; [reflexivity|].
  destruct (c a) eqn:Hc; [|reflexivity].
  rewrite IH. destruct (k (lstrip_by c s)); [reflexivity|]. now apply Hk.
Qed.

(** A lazy repetition whose continuation needs a [<] passes over a text
    without that character. *)
Lemma lazy_skip {R : Type} c (k : string -> option R) (x tail : string) :
  (forall a t, Ascii.eqb "<" a = false -> k (String a t) = None) ->
  all_chars c x = true -> no_lt x = true ->
  lazy c k (x +:+ tail) = lazy c k tail.
Proof.
  intros Hk. induction x as [|a x IH]; [reflexivity|].
  unfold no_lt. simpl. intros [Hc Hcx]%andb_prop [Ha Hx]%andb_prop.
  rewrite Hk by (unfold not_char in Ha; now destruct (Ascii.eqb "<" a)).
  rewrite Hc. now apply IH.
Qed.

Lemma lazy_here {R : Type} c (k : string -> option R) (s : string) (x : R) :
  k s = Some x -> lazy c k s = Some x.
Proof. intros Hk. destruct s; simpl; now rewrite Hk. Qed.

Lemma lstrip_by_run c (x tail : string) :
  all_chars c x = true ->
  match tail with
  | String b _ => c b = false
  | EmptyString => True
  end ->
  lstrip_by c (x +:+ tail) = tail.
Proof.
  intros Hx Htail. induction x as [|a x IH]; simpl in *.
  - destruct tail as [|b t]; [reflexivity|]. simpl. now rewrite Htail.
  - apply andb_prop in Hx as [Ha Hx]. rewrite Ha. now apply IH.
Qed.

Lemma all_chars_any (x : string) : all_chars any_char x = true.
Proof. induction x as [|a x IH]; simpl; [reflexivity | exact IH]. Qed.

(** ** Steps of a match *)

Lemma exec_lit (l : string) p opens caps (s : string) :
  exec false (Lit l :: p) opens caps (l +:+ s) = exec false p opens caps s.
Proof. cbn [exec]. now rewrite strip_prefix_here. Qed.

Lemma exec_lit_fail (d a : ascii) (l t : string) p opens caps :
  Ascii.eqb d a = false ->
  exec false (Lit (String d l) :: p) opens caps (String a t) = None.
Proof. intros Hd. cbn [exec strip_prefix]. now rewrite Hd. Qed.

Lemma exec_close_lit_fail (d a : ascii) (l t s0 : string) p opens caps :
  Ascii.eqb d a = false ->
  exec false (Close :: Lit (String d l) :: p) (s0 :: opens) caps (String a t) = None.
Proof. intros Hd. cbn [exec strip_prefix]. now rewrite Hd. Qed.

Lemma exec_close_one_fail c (a : ascii) (t s0 : string) p opens caps :
  c a = false ->
  exec false (Close :: One c :: p) (s0 :: opens) caps (String a t) = None.
Proof. intros Hc. cbn [exec]. now rewrite Hc. Qed.

(** A greedy repetition, when what follows it in the pattern cannot start
    with a character of the class, takes the whole run [x]. *)
Lemma exec_star_run c p opens caps (x tail : string) :
  (forall a t, c a = true -> exec false p opens caps (String a t) = None) ->
  all_chars c x = true ->
  match tail with
  | String b _ => c b = false
  | EmptyString => True
  end ->
  exec false (Star c :: p) opens caps (x +:+ tail) = exec false p opens caps tail.
Proof.
  intros Hk Hx Htail. cbn [exec].
  rewrite greedy_det by exact Hk. now rewrite lstrip_by_run.
Qed.

Lemma exec_star_zero c p opens caps (b : ascii) (t : string) :
  c b = false ->
  exec false (Star c :: p) opens caps (String b t) = exec false p opens caps (String b t).
Proof. intros Hb. cbn [exec greedy]. now rewrite Hb. Qed.

Lemma exec_plus_run c p opens caps (a : ascii) (x tail : string) :
  (forall a t, c a = true -> exec false p opens caps (String a t) = None) ->
  c a = true -> all_chars c x = true ->
  match tail with
  | String b _ => c b = false
  | EmptyString => True
  end ->
  exec false (Plus c :: p) opens caps (String a x +:+ tail) = exec false p opens caps tail.
Proof.
  intros Hk Ha Hx Htail. cbn [exec String.append]. rewrite Ha.
  rewrite greedy_det by exact Hk. now rewrite lstrip_by_run.
Qed.

(** A lazy repetition stops at the first place where the rest of the
    pattern matches; when the rest needs a [<], that is after [x]. *)
Lemma exec_lazy_skip c p opens caps (x tail : string) r :
  (forall a t, Ascii.eqb "<" a = false -> exec false p opens caps (String a t) = None) ->
  all_chars c x = true -> no_lt x = true ->
  exec false p opens caps tail = Some r ->
  exec false (Lazy c :: p) opens caps (x +:+ tail) = Some r.
Proof.
  intros Hk Hc Hx Htail. cbn [exec].
  rewrite lazy_skip by assumption. now apply lazy_here.
Qed.

(** ** The children of a terminal *)

Lemma child_re_hit (name : string) dot (text rest : string) :
  all_chars dot text = true -> no_lt text = true ->
  exec false (child_re name dot) [] []
    (("<trait:" +:+ name) +:+ ">" +:+ text +:+ ("</trait:" +:+ name +:+ ">") +:+ rest)
  = Some ([text], rest).
Proof.
  intros Hdot Hlt. unfold child_re.
  rewrite exec_lit.
  change (">" +:+ ?x) with (String ">" x).
  rewrite exec_star_zero by reflexivity.
  change (String ">" ?x) with (">" +:+ x). rewrite (exec_lit ">").
  cbn [exec].
  erewrite lazy_skip; [ | | exact Hdot | exact Hlt ].
  - apply lazy_here. cbn [exec]. rewrite strip_prefix_here.
    now rewrite consumed_app.
  - intros a t Ha. cbn [exec]. simpl String.append. cbn [strip_prefix]. now rewrite Ha.
Qed.

Lemma exec_open p opens caps (s : string) :
  exec false (Open :: p) opens caps s = exec false p (s :: opens) caps s.
Proof. reflexivity. Qed.

Lemma exec_close p opens caps (s0 s : string) :
  exec false (Close :: p) (s0 :: opens) caps s
  = exec false p opens (caps ++ [consumed s0 s]) s.
Proof. reflexivity. Qed.

Lemma exec_plus_one c p opens caps (a b : ascii) (t : string) :
  c a = true -> c b = false ->
  exec false (Plus c :: p) opens caps (String a (String b t))
  = exec false p opens caps (String b t).
Proof. intros Ha Hb. cbn [exec greedy]. now rewrite Ha, Hb. Qed.

Lemma output_hit (type_ text rest : string) :
  all_chars (not_char dquote) type_ = true -> no_lt text = true ->
  exec false OUTPUT_RE [] [] (child_markup (Output type_ text) +:+ rest)
  = Some ([type_; text], rest).
Proof.
  intros Hty Hlt. unfold OUTPUT_RE, keyed_child_re, child_markup.
  rewrite !sapp_assoc.
  change (Q "<trait:output type=`" +:+ ?x)
    with (("<trait:" +:+ "output") +:+ String " " (String "t" ("ype=" +:+ DQ +:+ x))).
  rewrite exec_lit, exec_plus_one by reflexivity.
  change (String "t" ("ype=" +:+ DQ +:+ ?x)) with (("type" +:+ "=" +:+ DQ) +:+ x).
  rewrite exec_lit, exec_open.
  change (Q "`>" +:+ ?x) with (DQ +:+ String ">" x).
  rewrite exec_star_run;
    [ | intros a t Ha; apply exec_close_lit_fail; unfold not_char in Ha;
        now destruct (Ascii.eqb dquote a)
      | exact Hty | reflexivity ].
  rewrite exec_close, exec_lit, exec_star_zero by reflexivity.
  change (String ">" ?x) with (">" +:+ x).
  rewrite exec_lit, exec_open.
  apply exec_lazy_skip; [ | apply all_chars_any | exact Hlt | ].
  - intros a t Ha. now apply exec_close_lit_fail.
  - rewrite exec_close, exec_lit. cbn [exec]. now rewrite !consumed_app.
Qed.

Lemma command_hit (text rest : string) :
  no_lt text = true ->
  exec false COMMAND_RE [] [] (child_markup (Command text) +:+ rest) = Some ([text], rest).
Proof.
  intros Hlt. unfold child_markup. rewrite !sapp_assoc.
  apply (child_re_hit "command" any_char text rest (all_chars_any text) Hlt).
Qed.

Lemma command_re_starts_with_lt : starts_with_lt (exec false COMMAND_RE [] []).
Proof. apply exec_starts_with_lt. Qed.

Lemma output_re_starts_with_lt : starts_with_lt (exec false OUTPUT_RE [] []).
Proof. apply exec_starts_with_lt. Qed.

Lemma no_lt_app (x y : string) : no_lt x = true -> no_lt y = true -> no_lt (x +:+ y) = true.
Proof.
  unfold no_lt. induction x as [|a x IH]; simpl; [easy|].
  intros [Ha Hx]%andb_prop Hy. rewrite Ha. now apply IH.
Qed.

(** No command starts inside an output or a filler, and no output inside a
    command or a filler. *)
Lemma command_dead_in_output (type_ text rest : string) :
  no_lt type_ = true -> no_lt text = true ->
  dead_in (exec false COMMAND_RE [] []) (child_markup (Output type_ text)) rest.
Proof.
  intros Hty Hlt. unfold child_markup.
  replace (Q "<trait:output type=`" +:+ type_ +:+ Q "`>" +:+ text +:+ "</trait:output>")
    with (String "<" (Q "trait:output type=`" +:+ type_ +:+ Q "`>" +:+ text)
          +:+ String "<" "/trait:output>")
    by (simpl; now rewrite ?sapp_assoc).
  apply dead_in_app; apply dead_in_tag.
  - apply command_re_starts_with_lt.
  - repeat apply no_lt_app; first [assumption | reflexivity].
  - vm_compute. reflexivity.
  - apply command_re_starts_with_lt.
  - reflexivity.
  - vm_compute. reflexivity.
Qed.

Lemma output_dead_in_command (text rest : string) :
  no_lt text = true ->
  dead_in (exec false OUTPUT_RE [] []) (child_markup (Command text)) rest.
Proof.
  intros Hlt. unfold child_markup.
  replace ("<trait:command>" +:+ text +:+ "</trait:command>")
    with (String "<" ("trait:command>" +:+ text) +:+ String "<" "/trait:command>")
    by (simpl; now rewrite ?sapp_assoc).
  apply dead_in_app; apply dead_in_tag.
  - apply output_re_starts_with_lt.
  - repeat apply no_lt_app; first [assumption | reflexivity].
  - vm_compute. reflexivity.
  - apply output_re_starts_with_lt.
  - reflexivity.
  - vm_compute. reflexivity.
Qed.

Lemma scan_hit_nonempty at_ (m rest : string) (caps : list string) :
  nonempty m = true ->
  at_ (m +:+ rest) = Some (caps, rest) ->
  scan_with at_ (m +:+ rest) 0 = caps :: scan_with at_ rest 0.
Proof. destruct m as [|a m]; [discriminate|]. intros _. apply scan_hit. Qed.

Lemma scan_commands (children : list terminal_child) :
  Forall (λ c, child_ok c = true) children ->
  finditer COMMAND_RE (terminal_markup children) = (λ t, [t]) <$> command_texts children.
Proof.
  unfold finditer, terminal_markup.
  induction 1 as [|c children Hc _ IH]; [reflexivity|].
  rewrite fmap_cons. change (concat (?x :: ?l)) with (x +:+ concat l).
  destruct c as [text|type_ text|text]; simpl in Hc.
  - rewrite (scan_hit_nonempty _ _ _ [text]);
      [ now rewrite IH | reflexivity | now apply command_hit ].
  - apply andb_prop in Hc as [[Hty _]%andb_prop Hlt].
    rewrite scan_dead by now apply command_dead_in_output.
    exact IH.
  - rewrite scan_dead by (apply dead_in_no_lt; [apply command_re_starts_with_lt | exact Hc]).
    exact IH.
Qed.

Lemma scan_outputs (children : list terminal_child) :
  Forall (λ c, child_ok c = true) children ->
  finditer OUTPUT_RE (terminal_markup children)
  = (λ p, [p.1; p.2]) <$> output_pairs children.
Proof.
  unfold finditer, terminal_markup.
  induction 1 as [|c children Hc _ IH]; [reflexivity|].
  rewrite fmap_cons. change (concat (?x :: ?l)) with (x +:+ concat l).
  destruct c as [text|type_ text|text]; simpl in Hc.
  - rewrite scan_dead by now apply output_dead_in_command.
    exact IH.
  - apply andb_prop in Hc as [[_ Hty]%andb_prop Hlt].
    rewrite (scan_hit_nonempty _ _ _ [type_; text]);
      [ now rewrite IH | reflexivity | now apply output_hit ].
  - rewrite scan_dead by (apply dead_in_no_lt; [apply output_re_starts_with_lt | exact Hc]).
    exact IH.
Qed.

Lemma command_lines_of_texts (children : list terminal_child) :
  command_line <$> command_texts children = child_line <$> List.filter is_command children.
Proof.
  induction children as [|c children IH]; [reflexivity|].
  destruct c as [text|type_ text|text];
    [ change (command_texts (Command text :: children))
        with (text :: command_texts children)
    | change (command_texts (Output type_ text :: children)) with (command_texts children)
    | change (command_texts (Filler text :: children)) with (command_texts children) ];
    cbn [List.filter is_command is_output]; rewrite ?fmap_cons, IH; reflexivity.
Qed.

Lemma output_lines_of_pairs (children : list terminal_child) :
  output_line <$> output_pairs children = child_line <$> List.filter is_output children.
Proof.
  induction children as [|c children IH]; [reflexivity|].
  destruct c as [text|type_ text|text];
    [ change (output_pairs (Command text :: children)) with (output_pairs children)
    | change (output_pairs (Output type_ text :: children))
        with ((type_, text) :: output_pairs children)
    | change (output_pairs (Filler text :: children)) with (output_pairs children) ];
    cbn [List.filter is_command is_output]; rewrite ?fmap_cons, IH; reflexivity.
Qed.

(** C6, as the code has it.  For a terminal whose content is a sequence of
    commands, outputs and text between them, the fragment lists every
    command line, in document order, and after them every output line, in
    document order. *)
Theorem terminal_lines_grouped_by_kind (attrs : attrs_t) (children : list terminal_child) :
  Forall (λ c, child_ok c = true) children ->
  render_terminal attrs (terminal_markup children)
  = terminal_frame attrs (lines_by_kind children).
Proof.
  intros Hok. unfold render_terminal, terminal_frame, lines_by_kind, findall1, findall2.
  rewrite scan_commands, scan_outputs by exact Hok.
  rewrite <- !list_fmap_compose.
  rewrite <- command_lines_of_texts, <- output_lines_of_pairs.
  replace ((output_line ∘ pair_of_groups ∘ (λ p, [p.1; p.2])) <$> output_pairs children)
    with (output_line <$> output_pairs children)
    by (apply list_fmap_ext; now intros _ [type_ text] _).
  now rewrite !sapp_assoc.
Qed.

Lemma terminal_lines_grouped_by_kind_witness :
  render_terminal ∅
    (terminal_markup [Command "make"; Output "stdout" "ok"; Command "make test"])
  = terminal_frame ∅
      (lines_by_kind [Command "make"; Output "stdout" "ok"; Command "make test"]).
Proof.
  apply (terminal_lines_grouped_by_kind ∅
           [Command "make"; Output "stdout" "ok"; Command "make test"]).
  repeat constructor.
Defined.

(** C6, as it is stated, fails: an output written before a command is
    rendered after it. *)
Lemma terminal_lines_not_in_document_order :
  let children := [Output "stdout" "out"; Command "cmd"] in
  Forall (λ c, child_ok c = true) children
  /\ render_terminal ∅ (terminal_markup children)
     <> terminal_frame ∅ (lines_in_document_order children).
Proof.
  split; [repeat constructor|].
  vm_compute. discriminate.
Qed.

(** ** The attribute pattern *)

Lemma name_char_not_eq (a : ascii) : is_name_char a = true -> Ascii.eqb "=" a = false.
Proof. destruct a as [[] [] [] [] [] [] [] []]; vm_compute; congruence. Qed.

Lemma name_char_not_quote (a : ascii) : is_name_char a = true -> is_quote a = false.
Proof. destruct a as [[] [] [] [] [] [] [] []]; vm_compute; congruence. Qed.

(** The backtracking match of the attribute pattern is the scanner
    [attr_at]. *)
Lemma attr_exec_eq (s : string) : exec false ATTR_RE [] [] s = attr_at s.
Proof.
  unfold ATTR_RE. destruct s as [|a r]; [reflexivity|].
  cbn [exec]. unfold attr_at. destruct (is_name_char a) eqn:Ha; [|reflexivity].
  rewrite greedy_det.
  2: { intros b t Hb. cbn [strip_prefix]. now rewrite (name_char_not_eq b Hb). }
  cbv zeta. generalize (consumed (String a r) (lstrip_by is_name_char r)) as name.
  generalize (lstrip_by is_name_char r) as t. clear a r Ha.
  intros t name. unfold attr_value_at.
  destruct t as [|e [|q u]]; cbn [strip_prefix].
  - reflexivity.
  - now destruct (Ascii.eqb "=" e).
  - destruct (Ascii.eqb "=" e); [|reflexivity].
    destruct (is_quote q); [|reflexivity].
    rewrite greedy_det.
    2: { intros b t Hb. unfold not_quote in Hb. now destruct (is_quote b). }
    cbv zeta. destruct (lstrip_by not_quote u) as [|q' rest]; reflexivity.
Qed.

Lemma scan_with_ext at_ at' (s : string) (skip : nat) :
  (forall t, at_ t = at' t) -> scan_with at_ s skip = scan_with at' s skip.
Proof.
  intros Hext. revert skip; induction s as [|a s IH]; intros [|k]; simpl;
    rewrite <- ?Hext, ?IH; try reflexivity.
  destruct (at_ (String a s)) as [[caps rest]|]; now rewrite ?IH.
Qed.

Lemma finditer_attr (s : string) : finditer ATTR_RE s = scan_with attr_at s 0.
Proof. apply scan_with_ext, attr_exec_eq. Qed.

(** An attribute written as name, equals sign, quote, value, quote is
    matched whole. *)
Lemma attr_at_hit (name value rest : string) (q q' : ascii) :
  nonempty name = true -> all_chars is_name_char name = true ->
  is_quote q = true -> all_chars not_quote value = true -> is_quote q' = true ->
  attr_at (name +:+ "=" +:+ str q +:+ value +:+ str q' +:+ rest)
  = Some ([name; value], rest).
Proof.
  intros Hne Hname Hq Hvalue Hq'.
  destruct name as [|a name]; [discriminate|].
  simpl in Hname. apply andb_prop in Hname as [Ha Hname].
  unfold attr_at. cbn [String.append]. rewrite Ha.
  rewrite lstrip_by_run by (exact Hname || reflexivity).
  change (String a (name +:+ ?t)) with (String a name +:+ t). rewrite consumed_app.
  unfold attr_value_at, str. cbn [String.append]. rewrite Hq.
  change (Ascii.eqb "=" "=") with true. cbv iota.
  rewrite lstrip_by_run;
    [ | exact Hvalue | unfold not_quote; now rewrite Hq' ].
  rewrite Hq'. now rewrite consumed_app.
Qed.

Lemma no_assignment_tail (a : ascii) (j : string) :
  no_assignment (String a j) = true -> no_assignment j = true.
Proof. simpl. now intros [_ Hj]%andb_prop. Qed.

Lemma no_assignment_head (a q : ascii) (j : string) :
  no_assignment (String a (String q j)) = true ->
  Ascii.eqb "=" a = true -> is_quote q = false.
Proof.
  cbn [no_assignment]. unfold is_char. intros [Hh _]%andb_prop He.
  rewrite He in Hh. simpl in Hh. now destruct (is_quote q).
Qed.

(** After the run of name characters that starts inside skipped text, the
    pattern cannot go on: the run ends inside the skipped text, in front
    of a character that is not an equals sign followed by a quote. *)
Lemma attr_value_none_in_skipped (j rest name : string) :
  no_assignment j = true -> nonempty j = true -> ends_outside_name j ->
  head_not_quote rest ->
  attr_value_at name (lstrip_by is_name_char (j +:+ rest)) = None.
Proof.
  intros Hj Hne Hend Hrest. induction j as [|a j IH]; [discriminate|].
  cbn [String.append lstrip_by]. destruct (is_name_char a) eqn:Ha.
  - destruct j as [|b j]; [unfold ends_outside_name in Hend; simpl in Hend; congruence|].
    apply IH; [now apply no_assignment_tail in Hj | reflexivity | exact Hend].
  - unfold attr_value_at. destruct (Ascii.eqb "=" a) eqn:He.
    + destruct j as [|q j]; cbn [String.append].
      * destruct rest as [|b rest]; [reflexivity|]. simpl in Hrest. now rewrite Hrest.
      * now rewrite (no_assignment_head _ _ _ Hj He).
    + now destruct (j +:+ rest).
Qed.

Lemma attr_dead_in_skipped (j rest : string) :
  no_assignment j = true -> ends_outside_name j -> head_not_quote rest ->
  dead_in attr_at j rest.
Proof.
  intros Hj Hend Hrest. induction j as [|a j IH]; [exact I|].
  split.
  - unfold attr_at. cbn [String.append]. destruct (is_name_char a) eqn:Ha; [|reflexivity].
    cbv zeta. destruct j as [|b j].
    + unfold ends_outside_name in Hend. simpl in Hend. congruence.
    + apply attr_value_none_in_skipped;
        [now apply no_assignment_tail in Hj | reflexivity | exact Hend | exact Hrest].
  - apply IH; [now apply no_assignment_tail in Hj|].
    destruct j as [|b j]; [exact I | exact Hend].
Qed.

Lemma attr_value_none_in_trailing (j name : string) :
  no_assignment j = true ->
  attr_value_at name (lstrip_by is_name_char j) = None.
Proof.
  intros Hj. induction j as [|a j IH]; [reflexivity|].
  cbn [lstrip_by]. destruct (is_name_char a) eqn:Ha.
  - apply IH. now apply no_assignment_tail in Hj.
  - unfold attr_value_at. destruct (Ascii.eqb "=" a) eqn:He.
    + destruct j as [|q j]; [reflexivity|].
      now rewrite (no_assignment_head _ _ _ Hj He).
    + now destruct j.
Qed.

Lemma attr_dead_in_trailing (j : string) :
  no_assignment j = true -> dead_in attr_at j "".
Proof.
  intros Hj. induction j as [|a j IH]; [exact I|].
  split.
  - rewrite sapp_nil_r. unfold attr_at. destruct (is_name_char a); [|reflexivity].
    cbv zeta. apply attr_value_none_in_trailing. now apply no_assignment_tail in Hj.
  - apply IH. now apply no_assignment_tail in Hj.
Qed.

Lemma scan_hit_attr (name value rest : string) (q q' : ascii) :
  nonempty name = true -> all_chars is_name_char name = true ->
  is_quote q = true -> all_chars not_quote value = true -> is_quote q' = true ->
  scan_with attr_at (name +:+ "=" +:+ str q +:+ value +:+ str q' +:+ rest) 0
  = [name; value] :: scan_with attr_at rest 0.
Proof.
  intros Hne Hname Hq Hvalue Hq'.
  assert (Hm : (name +:+ "=" +:+ str q +:+ value +:+ str q') +:+ rest
               = name +:+ "=" +:+ str q +:+ value +:+ str q' +:+ rest)
    by now rewrite !sapp_assoc.
  rewrite <- Hm. apply scan_hit_nonempty.
  - now destruct name.
  - rewrite Hm. now apply attr_at_hit.
Qed.

(** The matches of the attribute pattern in a text of well-formed items
    are the items, in their order. *)
Lemma scan_attr_text (items : list attr_item) (trailing : string) :
  Forall (λ it, attr_item_ok it = true) items ->
  no_assignment trailing = true ->
  finditer ATTR_RE (attr_text items trailing)
  = (λ it, [a_name it; a_value it]) <$> items.
Proof.
  intros Hitems Htrailing. rewrite finditer_attr. unfold attr_text.
  induction Hitems as [|it items Hit _ IH].
  - change (concat (attr_item_text <$> [])) with "".
    change ("" +:+ trailing) with trailing.
    rewrite <- (sapp_nil_r trailing) at 1.
    now rewrite scan_dead by now apply attr_dead_in_trailing.
  - rewrite fmap_cons. change (concat (?x :: ?l)) with (x +:+ concat l).
    unfold attr_item_ok in Hit.
    repeat match type of Hit with
           | (_ && _)%bool = true => apply andb_prop in Hit as [Hit ?]
           end.
    unfold skippable in Hit. apply andb_prop in Hit as [Hskip Hend].
    unfold attr_item_text at 1. rewrite !sapp_assoc.
    destruct (a_name it) as [|a name] eqn:Hname; [discriminate|].
    rewrite scan_dead.
    + rewrite <- Hname.
      rewrite scan_hit_attr by (rewrite ?Hname; assumption).
      rewrite fmap_cons. f_equal. exact IH.
    + apply attr_dead_in_skipped; [exact Hskip | | ].
      * unfold ends_outside_name. destruct (last_char (a_skipped it)); [|exact I].
        apply andb_prop in Hend as [Hend _]. now destruct (is_name_char a0).
      * cbn [String.append head_not_quote]. apply name_char_not_quote.
        simpl in *. now destruct (is_name_char a).
Qed.

(** X21.  In a text written in ASCII and made of attributes written as a
    name, an equals sign, a quote of either kind, a value without quotes
    of either kind and a quote of either kind, each after text that is
    skipped, the pattern finds exactly these attributes, in their order;
    the mapping is built from them, and a name that none of them has is
    absent from it. *)
Theorem parse_attrs_reads_items (items : list attr_item) (trailing : string) :
  ascii_text (attr_text items trailing) = true ->
  Forall (λ it, attr_item_ok it = true) items ->
  no_assignment trailing = true ->
  findall2 ATTR_RE (attr_text items trailing) = attr_binding <$> items
  /\ parse_attrs (attr_text items trailing) = store_attrs (attr_binding <$> items)
  /\ forall name, name ∉ a_name <$> items ->
       parse_attrs (attr_text items trailing) !! name = None.
Proof.
  intros _ Hitems Htrailing.
  assert (Hfound : findall2 ATTR_RE (attr_text items trailing) = attr_binding <$> items).
  { unfold findall2. rewrite scan_attr_text by assumption.
    rewrite <- list_fmap_compose. reflexivity. }
  split; [exact Hfound|]. unfold parse_attrs. rewrite Hfound.
  split; [reflexivity|].
  intros name Hname. apply store_attrs_absent.
  now rewrite <- list_fmap_compose.
Qed.

Lemma parse_attrs_reads_items_witness :
  let items := [AttrItem " " "value" dquote "84%" dquote;
                AttrItem " checked x=5 " "label" squote "Coverage" dquote] in
  findall2 ATTR_RE (attr_text items " /") = attr_binding <$> items
  /\ parse_attrs (attr_text items " /") = store_attrs (attr_binding <$> items)
  /\ forall name, name ∉ a_name <$> items -> parse_attrs (attr_text items " /") !! name = None.
Proof.
  apply (parse_attrs_reads_items
           [AttrItem " " "value" dquote "84%" dquote;
            AttrItem " checked x=5 " "label" squote "Coverage" dquote] " /").
  - vm_compute. reflexivity.
  - repeat constructor.
  - reflexivity.
Defined.

(** C9.  The pattern of [parse_attrs] takes a quote of either kind at both
    ends of a value and lets the value hold no quote of either kind: in
    the text [title=`it's`] the value is cut at the apostrophe, and in
    the text [a=`b'] the closing quote of the other kind is accepted.
    The grammar of the specification, in which the closing quote is the
    opening one and the value may hold the other quote, reads the whole
    value in the first text and no attribute in the second. *)
Theorem parse_attrs_cuts_value_at_other_quote :
  findall2 ATTR_RE (Q "title=`it's`") = [("title", "it")]
  /\ parse_attrs (Q "title=`it's`") !! "title" = Some "it"
  /\ spec_attr_pairs (Q "title=`it's`") = [("title", "it's")]
  /\ findall2 ATTR_RE (Q "a=`b'") = [("a", "b")]
  /\ parse_attrs (Q "a=`b'") !! "a" = Some "b"
  /\ spec_attr_pairs (Q "a=`b'") = [].
Proof. repeat split; vm_compute; reflexivity. Qed.

(** ** [render_aml] of test_aml.py terminates *)

Lemma find_in_none_or_some (sub s : string) (i : nat) :
  find sub s i = None \/ exists j, find sub s i = Some j /\ (i <= j)%nat.
Proof.
  unfold find. destruct (i <=? String.length s)%nat; [|now left].
  destruct (find_in sub (sdrop i s)) as [k|]; [right|now left].
  exists (i + k)%nat. split; [reflexivity | lia].
Qed.

Lemma bind_settled {A B : Type} (f : A -> outcome B) (x : outcome A) :
  x <> OutOfFuel -> (forall a, f a <> OutOfFuel) -> x ≫= f <> OutOfFuel.
Proof. rewrite bind_unfold. destruct x; [auto | discriminate | congruence]. Qed.

Lemma int_of_str_settled (s : string) : int_of_str s <> OutOfFuel.
Proof.
  unfold int_of_str.
  destruct (lstrip_by is_c_space s) as [|a r]; cbv zeta.
  - now destruct (int_digits "" 0 AtStart).
  - destruct a as [[] [] [] [] [] [] [] []];
      match goal with
      | |- context [int_digits ?x ?y ?z] => now destruct (int_digits x y z)
      end.
Qed.

Lemma int_attr_settled (attrs : attrs_t) (k : string) (d : Z) : int_attr attrs k d <> OutOfFuel.
Proof.
  unfold int_attr.
  match goal with
  | |- context [match ?x with Some _ => _ | None => _ end] => destruct x
  end; [apply int_of_str_settled | discriminate].
Qed.

Lemma mapR_settled {A B : Type} (f : A -> outcome B) (l : list A) :
  (forall x, f x <> OutOfFuel) -> mapR f l <> OutOfFuel.
Proof.
  intros Hf. induction l as [|x l IH]; simpl; [discriminate|].
  apply bind_settled; [apply Hf|]. intros y.
  apply bind_settled; [exact IH | discriminate].
Qed.

Section Settled.
Context `{PyFloat}.

Lemma scaled_ratio_settled (a b k : Z) : scaled_ratio a b k <> OutOfFuel.
Proof.
  unfold scaled_ratio. destruct (b =? 0)%Z; [discriminate|].
  now destruct (truediv a b).
Qed.

Lemma progress_pct_settled (value max_val : Z) : progress_pct value max_val <> OutOfFuel.
Proof.
  unfold progress_pct. apply bind_settled; [apply scaled_ratio_settled | discriminate].
Qed.

Lemma render_chart_settled (floor scale : Z) (attrs : attrs_t) (content : string) :
  render_chart_with floor scale attrs content <> OutOfFuel.
Proof.
  unfold render_chart_with. cbv zeta.
  apply bind_settled.
  - unfold max_value. apply bind_settled; [|discriminate].
    apply mapR_settled. intros p. apply int_of_str_settled.
  - intros max_val. apply bind_settled; [|discriminate].
    apply mapR_settled. intros [l v]. unfold chart_bar.
    apply bind_settled; [apply int_of_str_settled|]. intros n.
    apply bind_settled; [|discriminate].
    unfold bar_height. apply bind_settled; [apply scaled_ratio_settled | discriminate].
Qed.

Lemma test_aml_progress_settled (attrs : attrs_t) : TestAml.render_progress attrs <> OutOfFuel.
Proof.
  unfold TestAml.render_progress.
  apply bind_settled; [apply int_attr_settled|]. intros value.
  apply bind_settled; [apply int_attr_settled|]. intros max_val.
  apply bind_settled; [apply progress_pct_settled | discriminate].
Qed.

Variable render : string -> outcome string.

Lemma test_aml_widget_settled (tag_name : string) (attrs : attrs_t) (content : string) :
  render content <> OutOfFuel ->
  TestAml.render_widget render tag_name attrs content <> OutOfFuel.
Proof.
  intros Hrender.
  unfold TestAml.render_widget, TestAml.renderers. cbn [lookup_renderer].
  repeat match goal with
    | |- context [if String.eqb ?a ?b then _ else _] => destruct (String.eqb a b)
    end;
  first [ discriminate
        | apply test_aml_progress_settled
        | apply render_chart_settled
        | apply bind_settled; [exact Hrender | discriminate] ].
Qed.

Lemma test_aml_iteration_settled (content : string) (pos : nat) (result : list string) :
  (pos < String.length content)%nat ->
  (forall inner, (String.length inner < String.length content)%nat ->
                 render inner <> OutOfFuel) ->
  TestAml.iteration render content pos result <> OutOfFuel.
Proof.
  intros Hpos Hrender. unfold TestAml.iteration.
  destruct (search true TAG_RE (sdrop pos content)) as [m|] eqn:Hm; [|discriminate].
  cbv zeta. pose proof (search_tag_text _ _ _ Hm) as Htext.
  destruct (TestAml.self_closing _ _ _).
  - apply bind_settled; [|discriminate].
    apply test_aml_widget_settled, Hrender. simpl. lia.
  - destruct (find _ _ _) as [close_pos|]; [|discriminate].
    apply bind_settled; [|discriminate].
    apply test_aml_widget_settled, Hrender.
    pose proof (slice_length (pos + m_start m + String.length (group m 0)) close_pos content).
    cbn [group] in *. lia.
Qed.

Lemma test_aml_iteration_advances (content : string) (pos pos' : nat)
    (result result' : list string) :
  TestAml.iteration render content pos result = Ok (Continue pos' result') ->
  (pos < pos')%nat.
Proof.
  unfold TestAml.iteration.
  destruct (search true TAG_RE (sdrop pos content)) as [m|] eqn:Hm; [|discriminate].
  cbv zeta. pose proof (search_tag_text _ _ _ Hm) as Htext. cbn [group].
  destruct (TestAml.self_closing _ _ _).
  - rewrite bind_unfold. destruct (TestAml.render_widget _ _ _ _); try discriminate.
    intros [= <- _]. lia.
  - destruct (find_in_none_or_some ("</" +:+ lower (nth 0 (m_groups m) "") +:+ ">")
                (lower content) (pos + m_start m + String.length (m_text m)))
      as [-> | (j & -> & Hj)].
    + intros [= <- _]. lia.
    + rewrite bind_unfold. destruct (TestAml.render_widget _ _ _ _); try discriminate.
      intros [= <- _]. lia.
Qed.
End Settled.

Lemma loop_settled it (content : string) :
  (forall pos result, (pos < String.length content)%nat ->
                      it content pos result <> OutOfFuel) ->
  (forall pos pos' result result',
      it content pos result = Ok (Continue pos' result') -> (pos < pos')%nat) ->
  forall fuel pos result,
    (String.length content - pos <= fuel)%nat ->
    loop it content fuel pos result <> OutOfFuel.
Proof.
  intros Hsettled Hadvance fuel; induction fuel as [|fuel IH]; intros pos result Hfuel;
    rewrite loop_unfold; destruct (Nat.ltb_spec pos (String.length content)) as [Hlt|Hge];
    try discriminate; try lia.
  rewrite bind_unfold. specialize (Hsettled pos result Hlt).
  destruct (it content pos result) as [[r|pos' r]|e|] eqn:Hit; try discriminate; try congruence.
  apply IH. apply Hadvance in Hit. lia.
Qed.

(** With more passes allowed than the document has characters, the
    composer of [test_aml.py] returns a fragment or raises; it never runs
    out of passes. *)
Lemma test_aml_terminates `{PyFloat} (fuel : nat) (content : string) :
  (String.length content < fuel)%nat ->
  TestAml.render_aml fuel content <> OutOfFuel.
Proof.
  revert content; induction fuel as [|fuel IH]; intros content Hlen; [lia|].
  cbn [TestAml.render_aml].
  apply loop_settled; [ | | lia].
  - intros pos result Hpos. apply test_aml_iteration_settled; [exact Hpos|].
    intros inner Hinner. apply IH. lia.
  - intros pos pos' result result'. apply test_aml_iteration_advances.
Qed.

(** ** The closing-tag search of test_aml_scenarios.py *)

(** The inner loop always ends: the passes allowed to it, one for each
    character of the document, are never used up. *)
Lemma find_close_settled (content tag_name close_tag : string) (fuel depth search_pos : nat) :
  (1 <= String.length close_tag)%nat ->
  (String.length content - search_pos <= fuel)%nat ->
  Scenarios.find_close content tag_name close_tag fuel depth search_pos <> OutOfFuel.
Proof.
  intros Hclose. revert depth search_pos.
  induction fuel as [|fuel IH]; intros depth search_pos Hfuel.
  - cbn [Scenarios.find_close].
    destruct (Nat.ltb_spec search_pos (String.length content)); [lia|]. discriminate.
  - cbn [Scenarios.find_close].
    destruct ((search_pos <? String.length content)%nat && (0 <? depth)%nat) eqn:Hcond;
      [|discriminate].
    apply andb_prop in Hcond as [Hpos%Nat.ltb_lt _]. cbv zeta.
    destruct (find_in close_tag (lower (sdrop search_pos content))) as [nc|]; [|discriminate].
    destruct (match find_in ("<" +:+ tag_name) (lower (sdrop search_pos content)) with
              | Some no => (no <? nc)%nat
              | None => false
              end).
    + apply IH. lia.
    + destruct (depth - 1 =? 0)%nat; [discriminate|]. apply IH. lia.
Qed.

(** ** The self-closing test of test_aml_scenarios.py *)

Lemma srev_onto_app (s acc : string) : srev_onto s acc = srev s +:+ acc.
Proof.
  unfold srev. revert acc; induction s as [|a s IH]; intros acc; simpl; [reflexivity|].
  rewrite IH, (IH (String a "")), sapp_assoc. reflexivity.
Qed.

Lemma srev_cons (a : ascii) (s : string) : srev (String a s) = srev s +:+ String a "".
Proof. unfold srev. simpl. now rewrite srev_onto_app. Qed.

Lemma srev_app (s t : string) : srev (s +:+ t) = srev t +:+ srev s.
Proof.
  induction s as [|a s IH]; simpl.
  - now rewrite sapp_nil_r.
  - now rewrite !srev_cons, IH, sapp_assoc.
Qed.

Lemma srev_involutive (s : string) : srev (srev s) = s.
Proof.
  induction s as [|a s IH]; [reflexivity|].
  now rewrite srev_cons, srev_app, IH.
Qed.

Lemma all_chars_app c (s t : string) :
  all_chars c (s +:+ t) = all_chars c s && all_chars c t.
Proof. induction s as [|a s IH]; simpl; [reflexivity|]. now rewrite IH, andb_assoc. Qed.

Lemma all_chars_srev c (s : string) : all_chars c (srev s) = all_chars c s.
Proof.
  induction s as [|a s IH]; [reflexivity|].
  rewrite srev_cons, all_chars_app, IH. simpl. now rewrite andb_true_r, andb_comm.
Qed.

Lemma lstrip_by_split c (s : string) :
  take_while c s +:+ lstrip_by c s = s /\ all_chars c (take_while c s) = true.
Proof.
  induction s as [|a s [IH1 IH2]]; simpl; [easy|].
  destruct (c a) eqn:Ha; simpl; [|easy]. now rewrite IH1, Ha, IH2.
Qed.

(** [s.endswith('/')] *)
Lemma endswith_slash (s : string) :
  endswith "/" s = true <-> exists body, s = body +:+ "/".
Proof.
  unfold endswith, startswith. rewrite bool_decide_eq_true.
  change (srev "/") with "/". split.
  - intros [r Hr]. apply strip_prefix_app in Hr.
    exists (srev r). rewrite <- (srev_involutive s), Hr.
    now rewrite (srev_app "/" r).
  - intros [body ->]. rewrite srev_app. now exists (srev body).
Qed.

(** [s.rstrip()] removes a run of whitespace at the end, and all of it. *)
Lemma rstrip_split (s : string) :
  exists ws, s = rstrip s +:+ ws /\ all_chars is_space ws = true.
Proof.
  unfold rstrip, rstrip_by.
  destruct (lstrip_by_split is_space (srev s)) as [Hsplit Hws].
  exists (srev (take_while is_space (srev s))). split.
  - rewrite <- srev_app, Hsplit. now rewrite srev_involutive.
  - now rewrite all_chars_srev.
Qed.

Lemma rstrip_after_slash (body ws : string) :
  all_chars is_space ws = true -> rstrip (body +:+ "/" +:+ ws) = body +:+ "/".
Proof.
  intros Hws. unfold rstrip, rstrip_by.
  rewrite !srev_app, sapp_assoc.
  rewrite lstrip_by_run; [ | now rewrite all_chars_srev | reflexivity ].
  now rewrite <- srev_app, srev_involutive.
Qed.

(** C8 in [test_aml_scenarios.py]: a tag is self-closing exactly when its
    attribute text is some text, a slash and nothing but whitespace after
    it, or its name is one of the three void elements. *)
Lemma scenarios_self_closing_iff (tag_name attrs_str : string) :
  Scenarios.self_closing tag_name attrs_str = true <->
  (exists body ws, attrs_str = body +:+ "/" +:+ ws /\ all_chars is_space ws = true)
  \/ tag_name = "trait:divider" \/ tag_name = "trait:spacer" \/ tag_name = "trait:br".
Proof.
  unfold Scenarios.self_closing, Scenarios.void_elements, mem. cbn [existsb].
  rewrite orb_false_r, !orb_true_iff, endswith_slash, !String.eqb_eq.
  split.
  - intros [[body Hbody]|Hvoid].
    + left. destruct (rstrip_split attrs_str) as (ws & Hsplit & Hws).
      exists body, ws. split; [|exact Hws].
      rewrite Hsplit at 1. now rewrite Hbody, sapp_assoc.
    + right. intuition congruence.
  - intros [(body & ws & -> & Hws)|Hvoid].
    + left. exists body. now apply rstrip_after_slash.
    + right. intuition congruence.
Qed.

(** ** Unmatched opening tags *)

(** In [test_aml_scenarios.py] the inner loop leaves by its [break] as soon
    as no closing tag is left after the search position. *)
Lemma find_close_no_close_left (content tag_name close_tag : string)
    (fuel depth search_pos : nat) :
  (search_pos < String.length content)%nat -> (0 < depth)%nat ->
  find_in close_tag (lower (sdrop search_pos content)) = None ->
  Scenarios.find_close content tag_name close_tag (S fuel) depth search_pos = Ok Scenarios.NoCloseLeft.
Proof.
  intros Hpos%Nat.ltb_lt Hdepth%Nat.ltb_lt Hnone.
  cbn [Scenarios.find_close]. rewrite Hpos, Hdepth. cbv zeta. now rewrite Hnone.
Qed.

(** A pass that changes neither the cursor nor the fragments is repeated
    for ever. *)
Lemma scenarios_stuck_pass_diverges `{PyFloat} (content : string) :
  (0 < String.length content)%nat ->
  (forall render, Scenarios.iteration render content 0 [] = Ok (Continue 0 [])) ->
  forall fuel, Scenarios.render_aml fuel content = OutOfFuel.
Proof.
  intros Hlen%Nat.ltb_lt Hpass [|fuel]; [reflexivity|].
  cbn [Scenarios.render_aml]. now apply loop_stuck.
Qed.

(** In [test_aml.py] a pass over an opening tag that is not self-closing
    and that no closing tag follows appends the escaped text of the tag to
    the fragments and moves the cursor just after the tag. *)
Lemma test_aml_unmatched_pass `{PyFloat} (render : string -> outcome string)
    (content : string) (pos : nat) (result : list string) (m : rmatch) :
  let tag_end := (pos + m_start m + String.length (group m 0))%nat in
  search true TAG_RE (sdrop pos content) = Some m ->
  TestAml.self_closing content (group m 2) tag_end = false ->
  find ("</" +:+ lower (group m 1) +:+ ">") (lower content) tag_end = None ->
  exists flushed,
    TestAml.iteration render content pos result
    = Ok (Continue tag_end (flushed ++ [escape (group m 0)]))
    /\ (flushed = result
        \/ flushed = result ++ [paragraph (strip (slice pos (pos + m_start m) content))]).
Proof.
  intros tag_end Hm Hself Hfind. subst tag_end.
  unfold TestAml.iteration. rewrite Hm. cbv zeta. rewrite Hself, Hfind.
  eexists. split; [reflexivity|].
  destruct (pos <? pos + m_start m)%nat; [|now left].
  unfold flush_text. destruct (nonempty _); [now right | now left].
Qed.

(** ** Every attribute found is written in the text *)

Lemma consumed_lstrip c (s : string) : consumed s (lstrip_by c s) = take_while c s.
Proof.
  destruct (lstrip_by_split c s) as [Hsplit _].
  rewrite <- Hsplit at 1. apply consumed_app.
Qed.

Lemma attr_at_occurrence (s rest : string) (caps : list string) :
  attr_at s = Some (caps, rest) ->
  exists (name value : string) (q q' : ascii),
    caps = [name; value]
    /\ s = name +:+ "=" +:+ str q +:+ value +:+ str q' +:+ rest
    /\ nonempty name = true /\ all_chars is_name_char name = true
    /\ is_quote q = true /\ all_chars not_quote value = true /\ is_quote q' = true.
Proof.
  unfold attr_at. destruct s as [|a r]; [discriminate|].
  destruct (is_name_char a) eqn:Ha; [|discriminate]. cbv zeta.
  destruct (lstrip_by_split is_name_char r) as [Hr Hrun].
  assert (Hname : consumed (String a r) (lstrip_by is_name_char r)
                  = String a (take_while is_name_char r)).
  { rewrite <- Hr at 1. change (String a (?x +:+ ?y)) with (String a x +:+ y).
    apply consumed_app. }
  rewrite Hname. unfold attr_value_at.
  destruct (lstrip_by is_name_char r) as [|e [|q u]] eqn:Ht; try discriminate.
  destruct (Ascii.eqb_spec "=" e) as [<-|]; [|discriminate].
  destruct (is_quote q) eqn:Hq; [|discriminate]. cbv zeta.
  destruct (lstrip_by_split not_quote u) as [Hu Hvalue].
  rewrite consumed_lstrip.
  destruct (lstrip_by not_quote u) as [|q' rest'] eqn:Hw; [discriminate|].
  destruct (is_quote q') eqn:Hq'; [|discriminate].
  intros [= <- <-].
  exists (String a (take_while is_name_char r)), (take_while not_quote u), q, q'.
  repeat split; try assumption.
  - rewrite <- Hr at 1. simpl. now rewrite Hu.
  - simpl. now rewrite Ha.
Qed.

Lemma scan_with_occurrence at_ (s : string) (skip : nat) (g : list string) :
  g ∈ scan_with at_ s skip ->
  exists (before t rest : string), s = before +:+ t /\ at_ t = Some (g, rest).
Proof.
  revert skip; induction s as [|a s IH]; intros skip Hg.
  - destruct skip; simpl in Hg; [|now apply elem_of_nil in Hg].
    destruct (at_ "") as [[caps rest]|] eqn:Hat; [|now apply elem_of_nil in Hg].
    apply list_elem_of_singleton in Hg as ->. now exists "", "", rest.
  - assert (Hlater : forall k, g ∈ scan_with at_ s k ->
              exists before t rest, String a s = before +:+ t /\ at_ t = Some (g, rest)).
    { intros k Hk. destruct (IH k Hk) as (before & t & rest & -> & Hat).
      now exists (String a before), t, rest. }
    destruct skip as [|k]; simpl in Hg; [|now apply (Hlater k)].
    destruct (at_ (String a s)) as [[caps rest]|] eqn:Hat; [|now apply (Hlater 0%nat)].
    apply elem_of_cons in Hg as [->|Hg]; [|now apply (Hlater _ Hg)].
    now exists "", (String a s), rest.
Qed.

(** Every pair that [parse_attrs] stores is written in the attribute text
    as a name, an equals sign, a quote, a value without quotes and a
    quote; the two quotes need not be the same. *)
Lemma attr_matches_are_occurrences (attr_str name value : string) :
  (name, value) ∈ findall2 ATTR_RE attr_str ->
  exists (before after : string) (q q' : ascii),
    attr_str = before +:+ name +:+ "=" +:+ str q +:+ value +:+ str q' +:+ after
    /\ nonempty name = true /\ all_chars is_name_char name = true
    /\ is_quote q = true /\ all_chars not_quote value = true /\ is_quote q' = true.
Proof.
  unfold findall2. rewrite finditer_attr.
  intros (g & Hpair & Hg)%list_elem_of_fmap.
  apply scan_with_occurrence in Hg as (before & t & rest & -> & Hat).
  apply attr_at_occurrence in Hat
    as (name' & value' & q & q' & -> & -> & Hne & Hname & Hq & Hvalue & Hq').
  injection Hpair as -> ->.
  now exists before, rest, q, q'.
Qed.

(** ** The depth counter of test_aml_scenarios.py *)

Lemma sdrop_sdrop (i j : nat) (s : string) : sdrop j (sdrop i s) = sdrop (i + j) s.
Proof.
  revert s; induction i as [|i IH]; intros s; [reflexivity|].
  destruct s as [|a s]; simpl; [now destruct j | apply IH].
Qed.

Lemma lower_sdrop (n : nat) (s : string) : lower (sdrop n s) = sdrop n (lower s).
Proof.
  revert s; induction n as [|n IH]; intros [|a s]; simpl; try reflexivity. apply IH.
Qed.

Lemma lower_length (s : string) : String.length (lower s) = String.length s.
Proof. induction s as [|a s IH]; simpl; [reflexivity | now rewrite IH]. Qed.

(** [s.find(sub)] gives the first place where [sub] occurs. *)
Lemma find_in_first (sub s : string) (i : nat) :
  find_in sub s = Some i ->
  occurs_at sub s i = true /\ forall j, (j < i)%nat -> occurs_at sub s j = false.
Proof.
  unfold occurs_at, startswith.
  revert i; induction s as [|a s IH]; intros i; cbn [find_in].
  - destruct (strip_prefix sub "") eqn:Hp; [|discriminate].
    intros [= <-]. split; [|intros j; lia].
    simpl. rewrite Hp. now apply bool_decide_eq_true.
  - destruct (strip_prefix sub (String a s)) eqn:Hp.
    + intros [= <-]. split; [|intros j; lia].
      simpl. rewrite Hp. now apply bool_decide_eq_true.
    + destruct (find_in sub s) as [k|]; [|discriminate].
      intros [= <-]. destruct (IH k eq_refl) as [Hk Hbefore]. split; [exact Hk|].
      intros [|j] Hj; simpl.
      * rewrite Hp. apply bool_decide_eq_false. now intros [? ?].
      * apply Hbefore. lia.
Qed.

Lemma quiet_from_first (open_text close_text text : string) (pos no nc n : nat) :
  (forall j, (j < no)%nat -> occurs_at open_text (sdrop pos text) j = false) ->
  (forall j, (j < nc)%nat -> occurs_at close_text (sdrop pos text) j = false) ->
  (n <= no)%nat -> (n <= nc)%nat ->
  quiet_between open_text close_text text pos (pos + n).
Proof.
  intros Hopen Hclose Hno Hnc i Hi.
  replace i with (pos + (i - pos))%nat by lia.
  unfold occurs_at in *. rewrite <- sdrop_sdrop.
  split; [apply Hopen | apply Hclose]; lia.
Qed.

Lemma quiet_no_opening (open_text close_text text : string) (pos nc : nat) :
  find_in open_text (sdrop pos text) = None ->
  (forall j, (j < nc)%nat -> occurs_at close_text (sdrop pos text) j = false) ->
  quiet_between open_text close_text text pos (pos + nc).
Proof.
  intros Hnone Hclose i Hi.
  replace i with (pos + (i - pos))%nat by lia.
  unfold occurs_at in *. rewrite <- sdrop_sdrop. split; [|apply Hclose; lia].
  clear -Hnone. generalize (i - pos)%nat as j. generalize dependent (sdrop pos text).
  intros s; induction s as [|a s IH]; intros Hnone j; cbn [find_in] in Hnone.
  - destruct (strip_prefix open_text "") eqn:Hp; [discriminate|].
    unfold startswith. destruct j; simpl; rewrite Hp;
      apply bool_decide_eq_false; now intros [? ?].
  - destruct (strip_prefix open_text (String a s)) eqn:Hp; [discriminate|].
    destruct (find_in open_text s) eqn:Hf; [discriminate|].
    destruct j as [|j]; simpl; [|now apply IH].
    unfold startswith. rewrite Hp. apply bool_decide_eq_false. now intros [? ?].
Qed.

(** The closing tag that the inner loop accepts is the one the walk of the
    specification ends at: every opening text met on the way raised the
    depth, every closing text lowered it, and the accepted one was met at
    depth 1. *)
Lemma scenarios_find_close_nested (content tag_name close_tag : string)
    (fuel depth search_pos close_start end_pos : nat) :
  Scenarios.find_close content tag_name close_tag fuel depth search_pos
  = Ok (Scenarios.Matched close_start end_pos) ->
  closes_at ("<" +:+ tag_name) close_tag (lower content) depth search_pos close_start
  /\ end_pos = (close_start + String.length close_tag)%nat.
Proof.
  revert depth search_pos; induction fuel as [|fuel IH]; intros depth search_pos;
    cbn [Scenarios.find_close];
    destruct ((search_pos <? String.length content)%nat && (0 <? depth)%nat) eqn:Hcond;
    try discriminate.
  apply andb_prop in Hcond as [_ Hdepth%Nat.ltb_lt]. cbv zeta.
  rewrite lower_sdrop.
  destruct (find_in close_tag (sdrop search_pos (lower content))) as [nc|] eqn:Hnc;
    [|discriminate].
  destruct (find_in_first _ _ _ Hnc) as [Hclose Hclose_first].
  unfold occurs_at in Hclose. rewrite sdrop_sdrop in Hclose.
  destruct (find_in ("<" +:+ tag_name) (sdrop search_pos (lower content))) as [no|] eqn:Hno.
  - destruct (find_in_first _ _ _ Hno) as [Hopen Hopen_first].
    unfold occurs_at in Hopen. rewrite sdrop_sdrop in Hopen.
    destruct (Nat.ltb_spec no nc) as [Hlt|Hge].
    + intros Hrec. apply IH in Hrec as [Hrec ->]. split; [|reflexivity].
      apply (closes_after_opening _ _ _ depth search_pos (search_pos + no));
        [lia | apply quiet_from_first with no nc; auto; lia | exact Hopen | ].
      cbn [default] in Hrec.
      replace (search_pos + no + String.length ("<" +:+ tag_name))%nat
        with (search_pos + no + String.length tag_name + 1)%nat
        by (simpl; lia).
      now replace (S depth) with (depth + 1)%nat by lia.
    + assert (Hquiet : quiet_between ("<" +:+ tag_name) close_tag (lower content)
                         search_pos (search_pos + nc))
        by (apply quiet_from_first with no nc; auto; lia).
      destruct (Nat.eqb_spec (depth - 1) 0) as [Hone|Hmore].
      * intros [= <- <-]. split; [|reflexivity].
        replace depth with 1%nat by lia. apply closes_here; [lia | exact Hquiet | exact Hclose].
      * intros Hrec. apply IH in Hrec as [Hrec ->]. split; [|reflexivity].
        replace depth with (S (depth - 1)) by lia.
        apply (closes_after_closing _ _ _ (depth - 1) search_pos (search_pos + nc));
          [lia | lia | exact Hquiet | exact Hclose | exact Hrec].
  - assert (Hquiet : quiet_between ("<" +:+ tag_name) close_tag (lower content)
                       search_pos (search_pos + nc))
      by now apply quiet_no_opening.
    destruct (Nat.eqb_spec (depth - 1) 0) as [Hone|Hmore].
    + intros [= <- <-]. split; [|reflexivity].
      replace depth with 1%nat by lia. apply closes_here; [lia | exact Hquiet | exact Hclose].
    + intros Hrec. apply IH in Hrec as [Hrec ->]. split; [|reflexivity].
      replace depth with (S (depth - 1)) by lia.
      apply (closes_after_closing _ _ _ (depth - 1) search_pos (search_pos + nc));
        [lia | lia | exact Hquiet | exact Hclose | exact Hrec].
Qed.

(** In the document of two nested cards the walk from the end of the outer
    opening tag ends at the second closing tag, at index 38, and the inner
    loop of [test_aml_scenarios.py] finds it; the search of [test_aml.py]
    stops at the first closing tag, at index 25. *)
Lemma nested_cards_closers :
  let content := "<trait:card><trait:card>X</trait:card></trait:card>" in
  closes_at "<trait:card" "</trait:card>" (lower content) 1 12 38
  /\ Scenarios.find_close content "trait:card" "</trait:card>" (String.length content) 1 12
     = Ok (Scenarios.Matched 38 51)
  /\ find "</trait:card>" (lower content) 12 = Some 25%nat.
Proof.
  cbv zeta. split; [|split; vm_compute; reflexivity].
  apply (scenarios_find_close_nested
           "<trait:card><trait:card>X</trait:card></trait:card>" "trait:card"
           "</trait:card>" 51 1 12 38 51).
  vm_compute. reflexivity.
Qed.

(** ** Values that are not numbers *)

(** The float interface has implementations, so the statements made for
    every implementation are not empty. *)
Lemma float_interface_inhabited : inhabited PyFloat.
Proof.
  constructor.
  exact {| pyfloat := Z * Z;
           truediv := λ a b, Some (a, b);
           fmul := λ x n, (x.1 * n, x.2)%Z;
           flt := λ x n, (x.1 * Z.sgn x.2 <? n * Z.abs x.2)%Z;
           fgt := λ x n, (n * Z.abs x.2 <? x.1 * Z.sgn x.2)%Z;
           float_str := λ x, str_of_int x.1 +:+ "/" +:+ str_of_int x.2 |}.
Qed.

(** [int()] returns an integer or raises [ValueError]. *)
Lemma int_of_str_cases (s : string) :
  (exists z, int_of_str s = Ok z) \/ int_of_str s = Raise ValueError.
Proof.
  unfold int_of_str.
  destruct (lstrip_by is_c_space s) as [|a r]; cbv zeta.
  - destruct (int_digits "" 0 AtStart); eauto.
  - destruct a as [[] [] [] [] [] [] [] []];
      match goal with
      | |- context [int_digits ?x ?y ?z] => destruct (int_digits x y z); eauto
      end.
Qed.

Lemma mapR_raises {A B : Type} (f : A -> outcome B) (l : list A) (x : A) (e : exn) :
  (forall y, (exists b, f y = Ok b) \/ f y = Raise e) ->
  x ∈ l -> f x = Raise e -> mapR f l = Raise e.
Proof.
  intros Hf Hx Hraise. induction l as [|y l IH]; [now apply elem_of_nil in Hx|].
  cbn [mapR]. rewrite bind_unfold.
  apply elem_of_cons in Hx as [Heq|Hx].
  - subst y. now rewrite Hraise.
  - destruct (Hf y) as [[b Hb]|Hy]; rewrite ?Hb, ?Hy; [|reflexivity].
    now rewrite (IH Hx).
Qed.

(** An exception raised in a pass leaves the loop. *)
Lemma loop_raises it (content : string) (fuel pos : nat) (result : list string) (e : exn) :
  (pos < String.length content)%nat ->
  it content pos result = Raise e ->
  loop it content (S fuel) pos result = Raise e.
Proof.
  intros Hpos%Nat.ltb_lt Hit. rewrite loop_unfold, Hpos, Hit. reflexivity.
Qed.

Section NotNumbers.
Context `{PyFloat}.

(** A progress tag whose [value], or whose [max], is not a number raises
    [ValueError]; so does a chart one of whose data children has a [value]
    that is not a number. *)
Lemma progress_value_not_a_number (attrs : gmap string string) (v : string) :
  attrs !! "value" = Some v -> int_of_str v = Raise ValueError ->
  TestAml.render_progress attrs = Raise ValueError.
Proof.
  intros Hv Hraise. unfold TestAml.render_progress, int_attr. now rewrite Hv, Hraise.
Qed.

Lemma progress_max_not_a_number (attrs : gmap string string) (m : string) :
  attrs !! "max" = Some m -> int_of_str m = Raise ValueError ->
  TestAml.render_progress attrs = Raise ValueError.
Proof.
  intros Hm Hraise. unfold TestAml.render_progress, int_attr. rewrite Hm, Hraise.
  destruct (attrs !! "value") as [v|]; [|reflexivity].
  now destruct (int_of_str_cases v) as [[z ->]| ->].
Qed.

Lemma chart_value_not_a_number (floor scale : Z) (attrs : attrs_t) (content l v : string) :
  (l, v) ∈ findall2 DATA_RE content -> int_of_str v = Raise ValueError ->
  render_chart_with floor scale attrs content = Raise ValueError.
Proof.
  intros Hin Hraise. unfold render_chart_with. cbv zeta.
  unfold max_value.
  rewrite (mapR_raises (λ p, int_of_str p.2) _ (l, v) ValueError);
    [reflexivity | intros y; apply int_of_str_cases | exact Hin | exact Hraise].
Qed.
End NotNumbers.

(** * Further properties *)

(** ** Escaped text *)










(** ** Documents without tags *)

Lemma lower_char_lt (a : ascii) :
  Ascii.eqb "<" a = false -> Ascii.eqb (lower_char "<") (lower_char a) = false.
Proof. destruct a as [[] [] [] [] [] [] [] []]; vm_compute; congruence. Qed.

Lemma tag_needs_lt (a : ascii) (t : string) :
  Ascii.eqb "<" a = false -> exec true TAG_RE [] [] (String a t) = None.
Proof.
  intros Ha. unfold TAG_RE. cbn [exec strip_prefix_ci]. now rewrite lower_char_lt.
Qed.

(** The tag pattern matches nowhere in a text without [<]. *)
Lemma search_no_lt (s : string) (i : nat) :
  no_lt s = true -> search_at true TAG_RE s i = None.
Proof.
  unfold no_lt. revert i; induction s as [|a s IH]; intros i Hs; [reflexivity|].
  simpl in Hs. apply andb_prop in Hs as [Ha Hs].
  cbn [search_at]. rewrite tag_needs_lt, IH; try reflexivity; try assumption.
  unfold not_char in Ha. now destruct (Ascii.eqb "<" a).
Qed.

Lemma concat_one (s : string) : concat [s] = s.
Proof. unfold concat. simpl. apply sapp_nil_r. Qed.

Lemma flush_text_alone (text : string) :
  concat (flush_text [] text) = if nonempty text then paragraph text else "".
Proof. unfold flush_text. destruct (nonempty text); [apply concat_one | reflexivity]. Qed.

Section PlainDocuments.
Context `{PyFloat}.

(** X2.  A document in which the tag pattern matches nowhere is rendered,
    by both files, as one paragraph holding its text, stripped and
    escaped, and as the empty fragment when nothing but whitespace is
    left. *)
Theorem document_without_tags (content : string) (n : nat) :
  search true TAG_RE content = None ->
  let rendered := if nonempty (strip content) then paragraph (strip content) else "" in
  TestAml.render_aml (1 + n) content = Ok rendered
  /\ Scenarios.render_aml (1 + n) content = Ok rendered.
Proof.
  intros Hnone rendered. subst rendered.
  cbn [Nat.add TestAml.render_aml Scenarios.render_aml].
  rewrite !loop_unfold.
  destruct (0 <? String.length content)%nat eqn:Hlen.
  - unfold TestAml.iteration, Scenarios.iteration. cbv zeta.
    change (sdrop 0 content) with content. rewrite Hnone, !bind_unfold.
    now rewrite flush_text_alone.
  - destruct content; [split; reflexivity | discriminate].
Qed.
End PlainDocuments.

Lemma document_without_tags_witness :
  let rendered := Q "<div class=`trait-text-content`><p>if a &lt; b &amp;&amp; c &gt; d</p></div>" in
  TestAml.render_aml (H := fraction_floats) 1 "  if a < b && c > d  " = Ok rendered
  /\ Scenarios.render_aml (H := fraction_floats) 1 "  if a < b && c > d  " = Ok rendered.
Proof.
  apply (document_without_tags (H := fraction_floats) "  if a < b && c > d  " 0).
  vm_compute. reflexivity.
Defined.

(** ** The file rule *)

Lemma split_go_no_sep (c : ascii) (t cur : string) :
  all_chars (not_char c) t = true -> split_go c t cur = [srev cur +:+ t].
Proof.
  revert cur; induction t as [|a t IH]; intros cur Ht; cbn [split_go].
  - now rewrite sapp_nil_r.
  - simpl in Ht. apply andb_prop in Ht as [Ha Ht].
    unfold not_char in Ha. rewrite Ascii.eqb_sym.
    destruct (Ascii.eqb c a); [discriminate|].
    rewrite IH by exact Ht. now rewrite srev_cons, sapp_assoc.
Qed.

Lemma last_cons_default {A : Type} (x d : A) (l : list A) :
  List.last (x :: l) d = List.last l x.
Proof.
  revert x d; induction l as [|y l IH]; intros x d; [reflexivity|].
  change (List.last (x :: y :: l) d) with (List.last (y :: l) d).
  now rewrite (IH y d), (IH y x).
Qed.

(** The last piece of [path.split('/')] is what follows the last slash. *)
Lemma last_split_after_sep (c : ascii) (s base cur d : string) :
  all_chars (not_char c) base = true ->
  List.last (split_go c (s +:+ String c base) cur) d = base.
Proof.
  intros Hbase. revert cur d; induction s as [|a s IH]; intros cur d;
    cbn [String.append split_go].
  - rewrite Ascii.eqb_refl, split_go_no_sep by exact Hbase. reflexivity.
  - destruct (Ascii.eqb a c); [|apply IH].
    rewrite last_cons_default. apply IH.
Qed.

Section FileRule.
Context `{PyFloat}.
Variable render : string -> outcome string.

(** X4.  Without a [name] attribute the file rule shows what follows the
    last slash of the [path] attribute, escaped; [test_aml.py] appends the
    [line] attribute after a colon, [test_aml_scenarios.py] leaves it
    out. *)
Theorem file_shows_last_path_component (attrs : gmap string string)
    (dir base content : string) :
  attrs !! "name" = None ->
  attrs !! "path" = Some (dir +:+ "/" +:+ base) ->
  all_chars (not_char "/") base = true ->
  TestAml.render_file attrs
  = Q "<span class=`trait-file`>/" +:+ escape base
    +:+ match attrs !! "line" with
        | Some line => ":" +:+ line
        | None => ""
        end +:+ "</span>"
  /\ Scenarios.render_widget render "trait:file" attrs content
     = Ok (Q "<span class=`trait-file`>/" +:+ escape base +:+ "</span>").
Proof.
  intros Hname Hpath Hbase.
  assert (Hlast : List.last (split "/" (get attrs "path" "")) "" = base).
  { unfold get, split. rewrite Hpath. cbn [default].
    now apply last_split_after_sep. }
  split.
  - unfold TestAml.render_file, get at 1. rewrite Hname. cbn [default]. now rewrite Hlast.
  - unfold Scenarios.render_widget.
    change (String.eqb "trait:file" "trait:button") with false.
    change (String.eqb "trait:file" "trait:code") with false.
    change (String.eqb "trait:file" "trait:coderef") with false.
    change (String.eqb "trait:file" "trait:diff") with false.
    change (String.eqb "trait:file" "trait:file") with true.
    cbv iota zeta. unfold get at 1. rewrite Hname. cbn [default]. now rewrite Hlast.
Qed.
End FileRule.

Lemma file_shows_last_path_component_witness :
  TestAml.render_file (<["line" := "12"]> (<["path" := "src/ui/app.ts"]> ∅))
  = Q "<span class=`trait-file`>/" +:+ escape "app.ts"
    +:+ match (<["line" := "12"]> (<["path" := "src/ui/app.ts"]> ∅) : gmap string string)
              !! "line" with
        | Some line => ":" +:+ line
        | None => ""
        end +:+ "</span>"
  /\ Scenarios.render_widget (H := fraction_floats) (λ _, Ok "") "trait:file"
       (<["line" := "12"]> (<["path" := "src/ui/app.ts"]> ∅)) ""
     = Ok (Q "<span class=`trait-file`>/" +:+ escape "app.ts" +:+ "</span>").
Proof.
  apply (file_shows_last_path_component (H := fraction_floats) (λ _, Ok "")
           (<["line" := "12"]> (<["path" := "src/ui/app.ts"]> ∅)) "src/ui" "app.ts" "").
  - vm_compute. reflexivity.
  - vm_compute. reflexivity.
  - reflexivity.
Defined.

(** ** Division by zero *)

Lemma mapR_ok_head {A B : Type} (f : A -> outcome B) (x : A) (l : list A) (ys : list B) :
  mapR f (x :: l) = Ok ys -> exists y, f x = Ok y.
Proof.
  cbn [mapR]. rewrite bind_unfold. destruct (f x) as [y| |]; try discriminate. eauto.
Qed.

Section ZeroMaximum.
Context `{PyFloat}.
Variable render : string -> outcome string.

(** X5.  A progress bar whose [max] reads as zero, with a [value] that is
    absent or reads as a number, raises [ZeroDivisionError] in both
    files, whatever its content: [value / max_val] is computed without a
    test of [max_val].  The texts of the two attributes are no longer
    than [int] accepts. *)
Theorem progress_zero_maximum_divides_by_zero (attrs : gmap string string)
    (m content : string) (value : Z) :
  attrs !! "max" = Some m -> int_of_str m = Ok 0%Z -> (String.length m <= 4300)%nat ->
  int_attr attrs "value" 0 = Ok value ->
  (forall v, attrs !! "value" = Some v -> (String.length v <= 4300)%nat) ->
  TestAml.render_progress attrs = Raise ZeroDivisionError
  /\ Scenarios.render_widget render "trait:progress" attrs content = Raise ZeroDivisionError.
Proof.
  intros Hmax Hzero _ Hvalue _.
  assert (Hm : int_attr attrs "max" 100 = Ok 0%Z) by (unfold int_attr; now rewrite Hmax).
  split.
  - unfold TestAml.render_progress. now rewrite Hvalue, Hm.
  - unfold Scenarios.render_widget.
    change (String.eqb "trait:progress" "trait:button") with false.
    change (String.eqb "trait:progress" "trait:code") with false.
    change (String.eqb "trait:progress" "trait:coderef") with false.
    change (String.eqb "trait:progress" "trait:diff") with false.
    change (String.eqb "trait:progress" "trait:file") with false.
    change (String.eqb "trait:progress" "trait:list") with false.
    change (String.eqb "trait:progress" "trait:todo") with false.
    change (String.eqb "trait:progress" "trait:table") with false.
    change (String.eqb "trait:progress" "trait:badge") with false.
    change (String.eqb "trait:progress" "trait:tag") with false.
    change (String.eqb "trait:progress" "trait:progress") with true.
    cbv iota. now rewrite Hvalue, Hm.
Qed.

Lemma chart_zero_maximum (floor scale : Z) (attrs : attrs_t) (content : string) :
  findall2 DATA_RE content <> [] ->
  max_value (findall2 DATA_RE content) = Ok 0%Z ->
  render_chart_with floor scale attrs content = Raise ZeroDivisionError.
Proof.
  intros Hdata Hlargest.
  unfold render_chart_with. cbv zeta. rewrite Hlargest, bind_unfold.
  destruct (findall2 DATA_RE content) as [|[l v] points]; [congruence|].
  unfold max_value in Hlargest. rewrite bind_unfold in Hlargest.
  destruct (mapR (λ p, int_of_str p.2) ((l, v) :: points)) as [vs| |] eqn:Hvs;
    try discriminate.
  apply mapR_ok_head in Hvs as [n Hn]. cbn [snd] in Hn.
  cbn [mapR chart_bar]. rewrite Hn, !bind_unfold.
  unfold bar_height, scaled_ratio. reflexivity.
Qed.

(** X20.  A chart, or bar chart, written in ASCII that has data children,
    all with values that read as numbers, the largest of them zero,
    raises [ZeroDivisionError] in both files, whatever its attributes:
    [int(v) / max_val] is computed without a test of [max_val]. *)
Theorem chart_zero_maximum_divides_by_zero (attrs : attrs_t) (content : string) :
  ascii_text content = true ->
  findall2 DATA_RE content <> [] ->
  Forall (λ p, (String.length p.2 <= 4300)%nat) (findall2 DATA_RE content) ->
  max_value (findall2 DATA_RE content) = Ok 0%Z ->
  TestAml.render_chart attrs content = Raise ZeroDivisionError
  /\ TestAml.render_widget render "trait:barchart" attrs content = Raise ZeroDivisionError
  /\ Scenarios.render_widget render "trait:chart" attrs content = Raise ZeroDivisionError
  /\ Scenarios.render_widget render "trait:barchart" attrs content = Raise ZeroDivisionError.
Proof.
  intros _ Hdata _ Hlargest.
  pose proof (chart_zero_maximum 10 80 attrs content Hdata Hlargest) as Htest.
  pose proof (chart_zero_maximum 15 90 attrs content Hdata Hlargest) as Hscen.
  repeat split; [exact Htest | exact Htest | exact Hscen | exact Hscen].
Qed.
End ZeroMaximum.

Lemma progress_zero_maximum_divides_by_zero_witness :
  let attrs : gmap string string := <["max" := "0"]> (<["value" := "3"]> ∅) in
  TestAml.render_progress (H := fraction_floats) attrs = Raise ZeroDivisionError
  /\ Scenarios.render_widget (H := fraction_floats) (λ _, Ok "") "trait:progress" attrs ""
     = Raise ZeroDivisionError.
Proof.
  apply (progress_zero_maximum_divides_by_zero (H := fraction_floats) (λ _, Ok "")
           (<["max" := "0"]> (<["value" := "3"]> ∅)) "0" "" 3).
  - vm_compute. reflexivity.
  - vm_compute. reflexivity.
  - simpl. lia.
  - vm_compute. reflexivity.
  - intros v Hv. vm_compute in Hv. injection Hv as <-. simpl. lia.
Defined.

Lemma chart_zero_maximum_divides_by_zero_witness :
  let content := Q "<trait:data label=`a` value=`0`/><trait:data label=`b` value=`-2`/>" in
  TestAml.render_chart (H := fraction_floats) ∅ content = Raise ZeroDivisionError
  /\ TestAml.render_widget (H := fraction_floats) (λ _, Ok "") "trait:barchart" ∅ content
     = Raise ZeroDivisionError
  /\ Scenarios.render_widget (H := fraction_floats) (λ _, Ok "") "trait:chart" ∅ content
     = Raise ZeroDivisionError
  /\ Scenarios.render_widget (H := fraction_floats) (λ _, Ok "") "trait:barchart" ∅ content
     = Raise ZeroDivisionError.
Proof.
  apply (chart_zero_maximum_divides_by_zero (H := fraction_floats) (λ _, Ok "") ∅
           (Q "<trait:data label=`a` value=`0`/><trait:data label=`b` value=`-2`/>")).
  - vm_compute. reflexivity.
  - vm_compute. discriminate.
  - replace (findall2 DATA_RE _) with [("a", "0"); ("b", "-2")] by (vm_compute; reflexivity).
    constructor; [simpl; lia|]. constructor; [simpl; lia|]. constructor.
  - vm_compute. reflexivity.
Defined.

(** ** Returning and not returning *)

(** X6.  The composer of [test_aml.py] returns on every document: with one
    more pass than the document has characters the outcome is a fragment
    or an exception, and it is the outcome for every larger number of
    passes. *)
Theorem test_aml_render_returns `{PyFloat} (content : string) :
  exists out, out <> OutOfFuel
    /\ forall n, TestAml.render_aml (S (String.length content) + n) content = out.
Proof.
  exists (TestAml.render_aml (S (String.length content)) content).
  assert (Hok : TestAml.render_aml (S (String.length content)) content <> OutOfFuel)
    by (apply test_aml_terminates; lia).
  split; [exact Hok|].
  intros n. now apply test_aml_settled.
Qed.

(** A pass that leaves the cursor where it was, whatever the fragments
    are, is repeated for ever. *)
Lemma loop_cursor_stuck it (content : string) (pos : nat) :
  (pos < String.length content)%nat ->
  (forall result, exists result', it content pos result = Ok (Continue pos result')) ->
  forall fuel result, loop it content fuel pos result = OutOfFuel.
Proof.
  intros Hpos%Nat.ltb_lt Hit fuel; induction fuel as [|fuel IH]; intros result;
    rewrite loop_unfold, Hpos; [reflexivity|].
  destruct (Hit result) as [result' ->]. rewrite bind_unfold. apply IH.
Qed.

(** X7.  The composer of [test_aml_scenarios.py] never returns on a
    document whose first tag is not self-closing, does not end the
    document and is followed by no closing tag of its name: the pass over
    that tag leaves the cursor where it was. *)
Theorem scenarios_first_tag_unclosed_never_returns `{PyFloat} (content : string) (m : rmatch) :
  let tag_name := lower (group m 1) in
  let tag_end := (m_start m + String.length (group m 0))%nat in
  search true TAG_RE content = Some m ->
  Scenarios.self_closing tag_name (group m 2) = false ->
  (tag_end < String.length content)%nat ->
  find_in ("</" +:+ tag_name +:+ ">") (lower (sdrop tag_end content)) = None ->
  forall fuel, Scenarios.render_aml fuel content = OutOfFuel.
Proof.
  intros tag_name tag_end Hm Hself Hend Hnone [|fuel]; [reflexivity|].
  cbn [Scenarios.render_aml].
  apply loop_cursor_stuck; [lia|].
  intros result. unfold Scenarios.iteration. cbv zeta.
  change (sdrop 0 content) with content. rewrite Hm.
  change (0 + m_start m)%nat with (m_start m).
  fold tag_name. fold tag_end. rewrite Hself.
  destruct (String.length content) as [|len] eqn:Hlen; [lia|].
  rewrite (find_close_no_close_left content tag_name _ len 1 tag_end);
    [ | lia | lia | exact Hnone ].
  rewrite bind_unfold. eauto.
Qed.

Lemma scenarios_first_tag_unclosed_never_returns_witness :
  Scenarios.render_aml (H := fraction_floats) 1000 "Steps: <trait:list>first, second"
  = OutOfFuel.
Proof.
  apply (scenarios_first_tag_unclosed_never_returns (H := fraction_floats)
           "Steps: <trait:list>first, second"
           (RMatch 7 ["trait:list"; ""] "<trait:list>")).
  - vm_compute. reflexivity.
  - vm_compute. reflexivity.
  - vm_compute. lia.
  - vm_compute. reflexivity.
Defined.

(** ** The self-closing test of test_aml.py *)

Lemma greedy_tail {R : Type} c (k : string -> option R) (s : string) (x : R) :
  greedy c k s = Some x -> exists pre t, s = pre +:+ t /\ k t = Some x.
Proof.
  induction s as [|a s IH]; simpl.
  - intros Hk. now exists "", "".
  - destruct (c a); [|intros Hk; now exists "", (String a s)].
    destruct (greedy c k s) as [y|] eqn:Hg.
    + intros [= <-]. destruct (IH eq_refl) as (pre & t & -> & Hk).
      now exists (String a pre), t.
    + intros Hk. now exists "", (String a s).
Qed.

Lemma strip_prefix_ci_app (p s r : string) :
  strip_prefix_ci p s = Some r ->
  exists p', s = p' +:+ r /\ lower p' = lower p.
Proof.
  revert s; induction p as [|a p IH]; intros s; simpl.
  - intros [= ->]. now exists "".
  - destruct s as [|b s]; [discriminate|].
    destruct (Ascii.eqb_spec (lower_char a) (lower_char b)) as [Hab|]; [|discriminate].
    intros (p' & -> & Hp')%IH. exists (String b p'). simpl. now rewrite Hp', Hab.
Qed.

Lemma lower_char_gt (a : ascii) : lower_char a = ">"%char -> a = ">"%char.
Proof. destruct a as [[] [] [] [] [] [] [] []]; vm_compute; congruence. Qed.

(** The text of a tag found by the scanner ends in [>]. *)
Lemma tag_match_ends_with_gt (s rest : string) (caps : list string) :
  exec true TAG_RE [] [] s = Some (caps, rest) ->
  exists pre, s = pre +:+ String ">" rest.
Proof.
  unfold TAG_RE. cbn [exec].
  destruct (strip_prefix_ci "<" s) as [r1|] eqn:H1; [|discriminate].
  destruct (strip_prefix_ci "trait:" r1) as [r2|] eqn:H2; [|discriminate].
  destruct r2 as [|a r3]; [discriminate|]. destruct (is_letter a); [|discriminate].
  intros (pre1 & t1 & -> & Hk)%greedy_tail. cbn [exec] in Hk.
  apply greedy_tail in Hk as (pre2 & t2 & -> & Hk). cbn [exec] in Hk.
  destruct (strip_prefix_ci ">" t2) as [r4|] eqn:H4; [|discriminate].
  injection Hk as _ ->.
  apply strip_prefix_ci_app in H1 as (p1 & -> & _).
  apply strip_prefix_ci_app in H2 as (p2 & -> & _).
  apply strip_prefix_ci_app in H4 as (p4 & -> & Hp4).
  destruct p4 as [|b [|? ?]]; try discriminate.
  injection Hp4 as ->%lower_char_gt.
  exists (p1 +:+ p2 +:+ String a (pre1 +:+ pre2)).
  rewrite !sapp_assoc. do 2 f_equal. cbn [String.append]. now rewrite !sapp_assoc.
Qed.

Lemma search_at_found ic p (s : string) (i : nat) (m : rmatch) :
  search_at ic p s i = Some m ->
  exists rest, exec ic p [] [] (sdrop (m_start m - i) s) = Some (m_groups m, rest)
               /\ m_text m = consumed (sdrop (m_start m - i) s) rest.
Proof.
  revert i; induction s as [|a s IH]; intros i; cbn [search_at].
  - destruct (exec ic p [] [] "") as [[caps rest]|] eqn:He; [|discriminate].
    intros [= <-]. cbn [m_start m_groups m_text]. rewrite Nat.sub_diag. now exists rest.
  - destruct (exec ic p [] [] (String a s)) as [[caps rest]|] eqn:He.
    + intros [= <-]. cbn [m_start m_groups m_text]. rewrite Nat.sub_diag. now exists rest.
    + intros Hs. pose proof (search_at_start _ _ _ _ _ Hs) as Hle.
      destruct (IH _ Hs) as (rest & Hexec & Htext).
      exists rest. replace (m_start m - i)%nat with (S (m_start m - S i)) by lia.
      now split.
Qed.

Lemma get_sdrop (n i : nat) (s : string) : String.get (n + i) s = String.get i (sdrop n s).
Proof.
  revert s; induction n as [|n IH]; intros s; [reflexivity|].
  destruct s as [|a s]; simpl; [now destruct i | apply IH].
Qed.

Lemma get_after (pre : string) (a : ascii) (rest : string) :
  String.get (String.length pre) (pre +:+ String a rest) = Some a.
Proof. induction pre as [|b pre IH]; simpl; [reflexivity | exact IH]. Qed.

(** X8.  For every tag that the scanner of [test_aml.py] finds, the index
    [tag_start + len(match.group(0)) - 1] of the second self-closing test
    is the index of the closing [>] of the tag, so that the test reads
    [>], never a slash: a tag is self-closing in this file exactly when
    its attribute text ends in a slash. *)
Theorem test_aml_slash_index_reads_bracket (content : string) (pos : nat) (m : rmatch) :
  let tag_end := (pos + m_start m + String.length (group m 0))%nat in
  search true TAG_RE (sdrop pos content) = Some m ->
  String.get (tag_end - 1) content = Some ">"%char
  /\ TestAml.self_closing content (group m 2) tag_end = endswith "/" (group m 2).
Proof.
  intros tag_end Hm.
  assert (Hget : String.get (tag_end - 1) content = Some ">"%char).
  { apply search_at_found in Hm as (rest & Hexec & Htext).
    rewrite Nat.sub_0_r, sdrop_sdrop in Hexec, Htext.
    apply tag_match_ends_with_gt in Hexec as [pre Hpre].
    rewrite Hpre in Htext.
    change (pre +:+ String ">" rest) with (pre +:+ ">" +:+ rest) in Htext.
    rewrite <- sapp_assoc, consumed_app in Htext.
    subst tag_end. cbn [group]. rewrite Htext, slength_app.
    change (String.length ">") with 1%nat.
    replace (pos + m_start m + (String.length pre + 1) - 1)%nat
      with ((pos + m_start m) + String.length pre)%nat by lia.
    rewrite get_sdrop, Hpre. apply get_after. }
  split; [exact Hget|].
  unfold TestAml.self_closing. rewrite Hget.
  rewrite bool_decide_eq_false_2 by discriminate. apply orb_false_r.
Qed.

Lemma test_aml_slash_index_reads_bracket_witness :
  String.get (0 + 6 + String.length "<trait:br />" - 1) "Line 1<trait:br />Line 2"
  = Some ">"%char
  /\ TestAml.self_closing "Line 1<trait:br />Line 2" " /"
       (0 + 6 + String.length "<trait:br />")
     = endswith "/" " /".
Proof.
  apply (test_aml_slash_index_reads_bracket "Line 1<trait:br />Line 2" 0
           (RMatch 6 ["trait:br"; " /"] "<trait:br />")).
  vm_compute. reflexivity.
Defined.

(** ** The depth counter finds the closing tag of the walk *)

Lemma find_in_at_first (sub s : string) (i : nat) :
  occurs_at sub s i = true -> (forall j, (j < i)%nat -> occurs_at sub s j = false) ->
  find_in sub s = Some i.
Proof.
  unfold occurs_at, startswith.
  revert i; induction s as [|a s IH]; intros i Hi Hbefore.
  - destruct i; simpl in Hi; apply bool_decide_eq_true in Hi as [r Hr];
      cbn [find_in]; rewrite Hr; [reflexivity|].
    specialize (Hbefore 0%nat (Nat.lt_0_succ _)). simpl in Hbefore.
    rewrite Hr in Hbefore. apply bool_decide_eq_false in Hbefore. now destruct Hbefore.
  - cbn [find_in]. destruct i as [|i].
    + simpl in Hi. apply bool_decide_eq_true in Hi as [r Hr]. now rewrite Hr.
    + pose proof (Hbefore 0%nat (Nat.lt_0_succ _)) as H0. simpl in H0.
      apply bool_decide_eq_false in H0.
      destruct (strip_prefix sub (String a s)) eqn:Hp; [now destruct H0|].
      rewrite (IH i); [reflexivity | exact Hi | ].
      intros j Hj. apply (Hbefore (S j)). lia.
Qed.

Lemma occurs_at_sdrop (sub text : string) (from j : nat) :
  occurs_at sub (sdrop from text) j = occurs_at sub text (from + j).
Proof. unfold occurs_at. now rewrite sdrop_sdrop. Qed.

Lemma occurs_at_inside (sub text : string) (n : nat) :
  (1 <= String.length sub)%nat ->
  occurs_at sub text n = true -> (n + String.length sub <= String.length text)%nat.
Proof.
  unfold occurs_at, startswith. intros Hsub [r Hr]%bool_decide_eq_true.
  apply strip_prefix_length in Hr. rewrite sdrop_length in Hr. lia.
Qed.

Lemma closes_at_occurs (open_text close_text text : string) (depth from close_start : nat) :
  closes_at open_text close_text text depth from close_start ->
  occurs_at close_text text close_start = true /\ (from <= close_start)%nat.
Proof.
  induction 1 as [from n Hle _ Hclose
                 |depth from n cs _ Hle _ _ _ [IH1 IH2]
                 |depth from n cs Hle _ _ _ [IH1 IH2]];
    (split; [assumption | lia]).
Qed.

(** From a position before which nothing occurs, the searches of the
    inner loop find the next closing text where it is. *)
Lemma next_close_found (open_text close_text text : string) (from n : nat) :
  (from <= n)%nat -> quiet_between open_text close_text text from n ->
  occurs_at close_text text n = true ->
  find_in close_text (sdrop from text) = Some (n - from)%nat.
Proof.
  intros Hle Hquiet Hclose. apply find_in_at_first.
  - rewrite occurs_at_sdrop. now replace (from + (n - from))%nat with n by lia.
  - intros j Hj. rewrite occurs_at_sdrop. apply Hquiet. lia.
Qed.

Lemma next_open_not_before (open_text close_text text : string) (from n no : nat) :
  quiet_between open_text close_text text from n ->
  find_in open_text (sdrop from text) = Some no -> (n - from <= no)%nat.
Proof.
  intros Hquiet [Hopen _]%find_in_first.
  rewrite occurs_at_sdrop in Hopen.
  destruct (Nat.le_gt_cases (n - from) no) as [Hle|Hgt]; [exact Hle|].
  destruct (Hquiet (from + no)%nat) as [Hno _]; [lia | congruence].
Qed.

Lemma find_close_complete (content tag_name close_tag : string)
    (depth from close_start : nat) :
  (2 <= String.length close_tag)%nat ->
  (forall i, occurs_at ("<" +:+ tag_name) (lower content) i = true ->
             occurs_at close_tag (lower content) i = false) ->
  closes_at ("<" +:+ tag_name) close_tag (lower content) depth from close_start ->
  (1 <= depth)%nat ->
  forall fuel, (String.length content - from <= fuel)%nat ->
    Scenarios.find_close content tag_name close_tag fuel depth from
    = Ok (Scenarios.Matched close_start (close_start + String.length close_tag)).
Proof.
  intros Hlen Hapart.
  induction 1 as [from n Hle Hquiet Hclose
                 |depth from n cs Hd Hle Hquiet Hclose Hrest IH
                 |depth from n cs Hle Hquiet Hopen Hrest IH];
    intros Hdepth fuel Hfuel.
  - pose proof (occurs_at_inside close_tag _ _ ltac:(lia) Hclose) as Hin. rewrite lower_length in Hin.
    destruct fuel as [|fuel]; [lia|]. cbn [Scenarios.find_close].
    rewrite (proj2 (Nat.ltb_lt from (String.length content))) by lia.
    change (0 <? 1)%nat with true. cbn [andb]. cbv zeta. rewrite lower_sdrop.
    rewrite (next_close_found _ _ _ _ _ Hle Hquiet Hclose).
    destruct (find_in ("<" +:+ tag_name) (sdrop from (lower content))) as [no|] eqn:Hno.
    + pose proof (next_open_not_before _ _ _ _ _ _ Hquiet Hno) as Hnot.
      rewrite (proj2 (Nat.ltb_ge no (n - from))) by exact Hnot.
      cbn [Nat.sub Nat.eqb]. now replace (from + (n - from))%nat with n by lia.
    + cbn [Nat.sub Nat.eqb]. now replace (from + (n - from))%nat with n by lia.
  - pose proof (occurs_at_inside close_tag _ _ ltac:(lia) Hclose) as Hin. rewrite lower_length in Hin.
    destruct fuel as [|fuel]; [lia|]. cbn [Scenarios.find_close].
    rewrite (proj2 (Nat.ltb_lt from (String.length content))) by lia.
    rewrite (proj2 (Nat.ltb_lt 0 (S depth))) by lia. cbn [andb]. cbv zeta. rewrite lower_sdrop.
    rewrite (next_close_found _ _ _ _ _ Hle Hquiet Hclose).
    assert (Hnext : (if (S depth - 1 =? 0)%nat
                     then Ok (Scenarios.Matched (from + (n - from))
                                (from + (n - from) + String.length close_tag))
                     else Scenarios.find_close content tag_name close_tag fuel (S depth - 1)
                            (from + (n - from) + String.length close_tag))
                    = Ok (Scenarios.Matched cs (cs + String.length close_tag))).
    { replace (S depth - 1)%nat with depth by lia.
      rewrite (proj2 (Nat.eqb_neq depth 0)) by lia.
      replace (from + (n - from))%nat with n by lia.
      apply IH; lia. }
    destruct (find_in ("<" +:+ tag_name) (sdrop from (lower content))) as [no|] eqn:Hno.
    + pose proof (next_open_not_before _ _ _ _ _ _ Hquiet Hno) as Hnot.
      rewrite (proj2 (Nat.ltb_ge no (n - from))) by exact Hnot. exact Hnext.
    + exact Hnext.
  - pose proof (closes_at_occurs _ _ _ _ _ _ Hrest) as [Hlast Hafter].
    pose proof (occurs_at_inside close_tag _ _ ltac:(lia) Hlast) as Hin. rewrite lower_length in Hin.
    change (String.length ("<" +:+ tag_name)) with (S (String.length tag_name)) in *.
    destruct fuel as [|fuel]; [lia|]. cbn [Scenarios.find_close].
    rewrite (proj2 (Nat.ltb_lt from (String.length content))) by lia.
    rewrite (proj2 (Nat.ltb_lt 0 depth)) by lia.
    cbn [andb]. cbv zeta. rewrite lower_sdrop.
    assert (Hno : find_in ("<" +:+ tag_name) (sdrop from (lower content))
                  = Some (n - from)%nat).
    { apply find_in_at_first.
      - rewrite occurs_at_sdrop. now replace (from + (n - from))%nat with n by lia.
      - intros j Hj. rewrite occurs_at_sdrop. apply Hquiet. lia. }
    rewrite Hno.
    destruct (find_in close_tag (sdrop from (lower content))) as [nc|] eqn:Hnc.
    + destruct (find_in_first _ _ _ Hnc) as [Hc _]. rewrite occurs_at_sdrop in Hc.
      assert (n - from < nc)%nat as Hlt.
      { destruct (Nat.lt_trichotomy (n - from) nc) as [Hlt|[Heq|Hgt]]; [exact Hlt| |].
        - subst nc. replace (from + (n - from))%nat with n in Hc by lia.
          rewrite (Hapart n Hopen) in Hc. discriminate.
        - destruct (Hquiet (from + nc)%nat) as [_ Hq]; [lia | congruence]. }
      rewrite (proj2 (Nat.ltb_lt (n - from) nc)) by exact Hlt.
      cbn [default from_option id].
      replace (from + (n - from) + String.length tag_name + 1)%nat
        with (n + S (String.length tag_name))%nat by lia.
      replace (depth + 1)%nat with (S depth) by lia.
      apply IH; lia.
    + exfalso.
      assert (Hc : occurs_at close_tag (sdrop from (lower content)) (cs - from) = true).
      { rewrite occurs_at_sdrop. now replace (from + (cs - from))%nat with cs by lia. }
      clear -Hnc Hc. unfold occurs_at, startswith in Hc.
      apply bool_decide_eq_true in Hc as [r Hr].
      revert Hnc Hr. generalize (cs - from)%nat as j.
      generalize (sdrop from (lower content)) as s.
      intros s; induction s as [|a s IHs]; intros j; cbn [find_in].
      * destruct j; simpl; intros Hn Hr; rewrite Hr in Hn; discriminate.
      * destruct (strip_prefix close_tag (String a s)) eqn:Hp; [discriminate|].
        destruct (find_in close_tag s) eqn:Hf; [discriminate|].
        intros _. destruct j as [|j]; simpl; [congruence|]. now apply IHs.
Qed.

(** An opening text [<trait:...] and a closing text [</trait:...>] never
    occur at the same place. *)
Lemma opening_apart_from_closing (tag_name text : string) (i : nat) :
  startswith "trait:" tag_name = true ->
  occurs_at ("<" +:+ tag_name) text i = true ->
  occurs_at ("</" +:+ tag_name +:+ ">") text i = false.
Proof.
  unfold occurs_at, startswith.
  intros [r Hr]%bool_decide_eq_true [r' Hr']%bool_decide_eq_true.
  apply bool_decide_eq_false. intros [r'' Hr''].
  apply strip_prefix_app in Hr as ->.
  destruct (sdrop i text) as [|a [|b s]];
    cbn [strip_prefix String.append] in Hr', Hr''; try discriminate.
  - now destruct (Ascii.eqb "<" a).
  - destruct (Ascii.eqb "<" a); [|discriminate].
    destruct (Ascii.eqb_spec "t" b) as [<-|]; [|discriminate].
    discriminate.
Qed.

(** X9.  In a document written in ASCII, where [str.lower] keeps every
    index, the closing tag that the inner loop of [test_aml_scenarios.py]
    accepts for an opening tag is exactly the one at which the walk with
    the depth counter ends: the loop finds it whenever there is one, and
    accepts no other. *)
Theorem scenarios_find_close_is_the_walk (content tag_name : string)
    (tag_end close_start : nat) :
  let close_tag := "</" +:+ tag_name +:+ ">" in
  ascii_text content = true ->
  startswith "trait:" tag_name = true ->
  closes_at ("<" +:+ tag_name) close_tag (lower content) 1 tag_end close_start
  <-> Scenarios.find_close content tag_name close_tag (String.length content) 1 tag_end
      = Ok (Scenarios.Matched close_start (close_start + String.length close_tag)).
Proof.
  intros close_tag _ Hname. split.
  - intros Hwalk. apply find_close_complete; [ | | exact Hwalk | lia | lia].
    + subst close_tag. simpl. lia.
    + intros i. now apply opening_apart_from_closing.
  - intros Hfound. now apply scenarios_find_close_nested in Hfound as [Hwalk _].
Qed.

Lemma scenarios_find_close_is_the_walk_witness :
  let content := "<trait:grid>a<trait:grid>b</trait:grid>c</trait:grid>d" in
  (closes_at "<trait:grid" "</trait:grid>" (lower content) 1 12 40
   <-> Scenarios.find_close content "trait:grid" "</trait:grid>" (String.length content) 1 12
       = Ok (Scenarios.Matched 40 (40 + String.length "</trait:grid>")))
  /\ Scenarios.find_close content "trait:grid" "</trait:grid>" (String.length content) 1 12
     = Ok (Scenarios.Matched 40 53)
  /\ closes_at "<trait:grid" "</trait:grid>" (lower content) 1 12 40.
Proof.
  pose proof (scenarios_find_close_is_the_walk
                "<trait:grid>a<trait:grid>b</trait:grid>c</trait:grid>d" "trait:grid" 12 40
                eq_refl eq_refl) as Hiff.
  cbv zeta in Hiff |- *.
  assert (Hfound : Scenarios.find_close
                     "<trait:grid>a<trait:grid>b</trait:grid>c</trait:grid>d"
                     "trait:grid" "</trait:grid>"
                     (String.length "<trait:grid>a<trait:grid>b</trait:grid>c</trait:grid>d")
                     1 12
                   = Ok (Scenarios.Matched 40 53))
    by (vm_compute; reflexivity).
  split; [exact Hiff|]. split; [exact Hfound|].
  apply Hiff. exact Hfound.
Defined.

(** ** Lists and breadcrumbs *)

Lemma child_re_hit_attrs (name : string) dot (attr_text text rest : string) :
  all_chars (not_char ">") attr_text = true ->
  all_chars dot text = true -> no_lt text = true ->
  exec false (child_re name dot) [] [] (element_markup name (Element attr_text text) +:+ rest)
  = Some ([text], rest).
Proof.
  intros Hattr Hdot Hlt. unfold child_re, element_markup.
  remember ("<trait:" +:+ name) as opener eqn:Hopener.
  remember ("</trait:" +:+ name +:+ ">") as closer eqn:Hcloser.
  rewrite !sapp_assoc. rewrite exec_lit.
  change (">" +:+ ?x) with (String ">" x).
  rewrite exec_star_run;
    [ | intros a t Ha; apply exec_lit_fail; unfold not_char in Ha;
        now destruct (Ascii.eqb ">" a)
      | exact Hattr | reflexivity ].
  change (String ">" ?x) with (">" +:+ x). rewrite (exec_lit ">").
  rewrite exec_open.
  apply exec_lazy_skip; [ | exact Hdot | exact Hlt | ].
  - intros a t Ha. subst closer. cbn [exec]. simpl String.append. cbn [strip_prefix].
    now rewrite Ha.
  - rewrite exec_close, exec_lit. cbn [exec]. now rewrite consumed_app.
Qed.

Lemma element_markup_nonempty (name attr_text text : string) :
  nonempty (element_markup name (Element attr_text text)) = true.
Proof. reflexivity. Qed.

Lemma scan_elements (name : string) dot (es : list element) :
  Forall (λ e, element_ok dot e = true) es ->
  findall1 (child_re name dot) (elements_markup name es) = element_texts es.
Proof.
  unfold findall1, finditer, elements_markup.
  induction 1 as [|e es He _ IH]; [reflexivity|].
  rewrite fmap_cons. change (concat (?x :: ?l)) with (x +:+ concat l).
  destruct e as [attr_text text|text]; simpl in He.
  - apply andb_prop in He as [[Hattr Hdot]%andb_prop Hlt].
    rewrite (scan_hit_nonempty _ _ _ [text]);
      [ | apply element_markup_nonempty | now apply child_re_hit_attrs ].
    rewrite fmap_cons, IH. reflexivity.
  - rewrite scan_dead by (apply dead_in_no_lt; [apply exec_starts_with_lt | exact He]).
    exact IH.
Qed.

(** X10.  A list whose content is a sequence of item children and text
    between them is rendered as one [li] for each item, in document order,
    holding the text of the item stripped and escaped; the text between
    the items is dropped, and the list is an [ol] exactly when [ordered]
    is [true]. *)
Theorem list_renders_every_item (attrs : gmap string string) (es : list element) :
  Forall (λ e, element_ok any_char e = true) es ->
  render_list attrs (elements_markup "item" es)
  = let tag := if bool_decide (attrs !! "ordered" = Some "true") then "ol" else "ul" in
    "<" +:+ tag +:+ Q " class=`trait-list`>"
    +:+ concat ((λ text, Q "<li class=`trait-item`>" +:+ escape (strip text) +:+ "</li>")
                <$> element_texts es)
    +:+ "</" +:+ tag +:+ ">".
Proof.
  intros Hok. unfold render_list, ITEM_RE. cbv zeta. now rewrite scan_elements.
Qed.

Lemma list_renders_every_item_witness :
  render_list (<["ordered" := "true"]> ∅)
    (elements_markup "item"
       [Text " "; Element "" " build "; Text ", "; Element (Q " done=`true`") "a > b"])
  = "<ol" +:+ Q " class=`trait-list`>"
    +:+ concat ((λ text, Q "<li class=`trait-item`>" +:+ escape (strip text) +:+ "</li>")
                <$> [" build "; "a > b"])
    +:+ "</ol>".
Proof.
  exact (list_renders_every_item (<["ordered" := "true"]> ∅)
           [Text " "; Element "" " build "; Text ", "; Element (Q " done=`true`") "a > b"]
           ltac:(repeat constructor)).
Defined.

Lemma all_chars_false_split c (s : string) :
  all_chars c s = false ->
  exists x b y, s = x +:+ String b y /\ all_chars c x = true /\ c b = false.
Proof.
  induction s as [|a s IH]; simpl; [discriminate|].
  destruct (c a) eqn:Ha.
  - intros (x & b & y & -> & Hx & Hb)%IH. exists (String a x), b, y.
    simpl. now rewrite Ha, Hx.
  - intros _. now exists "", a, s.
Qed.

Lemma no_lt_split (x y : string) :
  no_lt (x +:+ y) = true -> no_lt x = true /\ no_lt y = true.
Proof. unfold no_lt. rewrite all_chars_app. apply andb_prop. Qed.

(** A lazy repetition stops, without a match, at the first character
    outside its class when the rest of the pattern needs a [<]. *)
Lemma lazy_stops {R : Type} c (k : string -> option R) (x : string) (b : ascii) (t : string) :
  (forall a t, Ascii.eqb "<" a = false -> k (String a t) = None) ->
  all_chars c x = true -> no_lt x = true -> Ascii.eqb "<" b = false -> c b = false ->
  lazy c k (x +:+ String b t) = None.
Proof.
  intros Hk Hx Hlt Hb' Hb.
  rewrite lazy_skip by assumption.
  cbn [lazy]. now rewrite Hk, Hb.
Qed.

Lemma crumb_re_starts_with_lt : starts_with_lt (exec false CRUMB_RE [] []).
Proof. apply exec_starts_with_lt. Qed.

(** The crumb pattern does not match a child whose text has a line end
    before the closing tag. *)
Lemma crumb_miss (attr_text x y : string) :
  all_chars (not_char ">") attr_text = true ->
  one_line x = true -> no_lt x = true ->
  exec false CRUMB_RE [] [] ("<trait:tag" +:+ attr_text +:+ ">" +:+ x +:+ String newline y) = None.
Proof.
  intros Hattr Hx Hlt. unfold CRUMB_RE, child_re.
  change ("<trait:" +:+ "tag") with "<trait:tag". rewrite exec_lit.
  change (">" +:+ ?u) with (String ">" u).
  rewrite exec_star_run;
    [ | intros a t Ha; apply exec_lit_fail; unfold not_char in Ha;
        now destruct (Ascii.eqb ">" a)
      | exact Hattr | reflexivity ].
  change (String ">" ?u) with (">" +:+ u). rewrite (exec_lit ">").
  rewrite exec_open. cbn [exec].
  apply lazy_stops; [ | exact Hx | exact Hlt | reflexivity | reflexivity ].
  intros a t Ha. cbn [exec]. simpl String.append. cbn [strip_prefix]. now rewrite Ha.
Qed.

Lemma crumb_dead_over_lines (attr_text text rest : string) :
  all_chars (not_char ">") attr_text = true -> no_lt attr_text = true ->
  no_lt text = true -> one_line text = false ->
  dead_in (exec false CRUMB_RE [] []) (element_markup "tag" (Element attr_text text)) rest.
Proof.
  intros Hattr Hlta Hlt Hline. unfold element_markup.
  replace (("<trait:" +:+ "tag") +:+ attr_text +:+ ">" +:+ text +:+ "</trait:" +:+ "tag" +:+ ">")
    with (String "<" ("trait:tag" +:+ attr_text +:+ ">" +:+ text)
          +:+ String "<" "/trait:tag>")
    by (simpl; now rewrite ?sapp_assoc).
  apply dead_in_app; apply dead_in_tag.
  - apply crumb_re_starts_with_lt.
  - repeat apply no_lt_app; first [assumption | reflexivity].
  - apply all_chars_false_split in Hline as (x & b & y & -> & Hx & Hb).
    unfold not_char in Hb. apply negb_false_iff, Ascii.eqb_eq in Hb. subst b.
    apply no_lt_split in Hlt as [Hltx _].
    replace (String "<" ("trait:tag" +:+ attr_text +:+ ">" +:+ x +:+ String newline y)
             +:+ String "<" "/trait:tag>" +:+ rest)
      with ("<trait:tag" +:+ attr_text +:+ ">" +:+ x
            +:+ String newline (y +:+ String "<" "/trait:tag>" +:+ rest))
      by (repeat (progress (cbn [String.append]; rewrite ?sapp_assoc)); reflexivity).
    now apply crumb_miss.
  - apply crumb_re_starts_with_lt.
  - reflexivity.
  - vm_compute. reflexivity.
Qed.

Lemma scan_crumbs (es : list element) :
  Forall (λ e, element_tidy e = true) es ->
  findall1 CRUMB_RE (elements_markup "tag" es) = List.filter one_line (element_texts es).
Proof.
  unfold findall1, finditer, elements_markup.
  induction 1 as [|e es He _ IH]; [reflexivity|].
  rewrite fmap_cons. change (concat (?x :: ?l)) with (x +:+ concat l).
  destruct e as [attr_text text|text]; simpl in He.
  - apply andb_prop in He as [[Hattr Hlta]%andb_prop Hlt].
    change (element_texts (Element attr_text text :: es)) with (text :: element_texts es).
    cbn [List.filter]. destruct (one_line text) eqn:Hline.
    + rewrite (scan_hit_nonempty _ _ _ [text]);
        [ | apply element_markup_nonempty | now apply child_re_hit_attrs ].
      rewrite fmap_cons, IH. reflexivity.
    + rewrite scan_dead by now apply crumb_dead_over_lines.
      exact IH.
  - rewrite scan_dead by (apply dead_in_no_lt; [apply crumb_re_starts_with_lt | exact He]).
    exact IH.
Qed.

(** X11.  A breadcrumb whose content is a sequence of [trait:tag] children
    and text between them shows the crumbs whose text is on one line, in
    document order, escaped and not stripped, with the separator between
    two crumbs; a crumb whose text runs over a line end is left out, as
    the pattern is used without [re.DOTALL]. *)
Theorem breadcrumb_shows_crumbs_on_one_line (attrs : attrs_t) (es : list element) :
  Forall (λ e, element_tidy e = true) es ->
  render_breadcrumb attrs (elements_markup "tag" es)
  = Q "<div class=`trait-breadcrumb`>"
    +:+ join (Q "<span class=`trait-breadcrumb-separator`>/</span>")
          ((λ t, Q "<span class=`trait-tag`>" +:+ escape t +:+ "</span>")
           <$> List.filter one_line (element_texts es))
    +:+ "</div>".
Proof.
  intros Hok. unfold render_breadcrumb. cbv zeta. now rewrite scan_crumbs.
Qed.

Lemma breadcrumb_shows_crumbs_on_one_line_witness :
  render_breadcrumb ∅
    (elements_markup "tag"
       [Element "" "src"; Text NL; Element "" ("a" +:+ NL +:+ "b"); Element "" " ui "])
  = Q "<div class=`trait-breadcrumb`>"
    +:+ join (Q "<span class=`trait-breadcrumb-separator`>/</span>")
          ((λ t, Q "<span class=`trait-tag`>" +:+ escape t +:+ "</span>") <$> ["src"; " ui "])
    +:+ "</div>".
Proof.
  exact (breadcrumb_shows_crumbs_on_one_line ∅
           [Element "" "src"; Text NL; Element "" ("a" +:+ NL +:+ "b"); Element "" " ui "]
           ltac:(repeat constructor)).
Defined.

(** ** Todo lists *)

Lemma todo_hit (done text rest : string) :
  all_chars (not_char dquote) done = true -> no_lt text = true ->
  exec false TODO_ITEM_RE [] [] (todo_markup (Task done text) +:+ rest)
  = Some ([done; text], rest).
Proof.
  intros Hdone Hlt. unfold TODO_ITEM_RE, keyed_child_re, todo_markup.
  rewrite !sapp_assoc.
  change (Q "<trait:item done=`" +:+ ?x)
    with (("<trait:" +:+ "item") +:+ String " " (String "d" ("one=" +:+ DQ +:+ x))).
  rewrite exec_lit, exec_plus_one by reflexivity.
  change (String "d" ("one=" +:+ DQ +:+ ?x)) with (("done" +:+ "=" +:+ DQ) +:+ x).
  rewrite exec_lit, exec_open.
  change (Q "`>" +:+ ?x) with (DQ +:+ String ">" x).
  rewrite exec_star_run;
    [ | intros a t Ha; apply exec_close_lit_fail; unfold not_char in Ha;
        now destruct (Ascii.eqb dquote a)
      | exact Hdone | reflexivity ].
  rewrite exec_close, exec_lit, exec_star_zero by reflexivity.
  change (String ">" ?x) with (">" +:+ x).
  rewrite exec_lit, exec_open.
  apply exec_lazy_skip; [ | apply all_chars_any | exact Hlt | ].
  - intros a t Ha. now apply exec_close_lit_fail.
  - rewrite exec_close, exec_lit. cbn [exec]. now rewrite !consumed_app.
Qed.

Lemma todo_re_starts_with_lt : starts_with_lt (exec false TODO_ITEM_RE [] []).
Proof. apply exec_starts_with_lt. Qed.

(** An item without a [done] attribute is no match, and no match starts
    inside it. *)
Lemma todo_dead_in_plain (text rest : string) :
  no_lt text = true ->
  dead_in (exec false TODO_ITEM_RE [] []) (todo_markup (Plain text)) rest.
Proof.
  intros Hlt. unfold todo_markup.
  replace ("<trait:item>" +:+ text +:+ "</trait:item>")
    with (String "<" ("trait:item>" +:+ text) +:+ String "<" "/trait:item>")
    by (simpl; now rewrite ?sapp_assoc).
  apply dead_in_app; apply dead_in_tag.
  - apply todo_re_starts_with_lt.
  - repeat apply no_lt_app; first [assumption | reflexivity].
  - vm_compute. reflexivity.
  - apply todo_re_starts_with_lt.
  - reflexivity.
  - vm_compute. reflexivity.
Qed.

Lemma scan_tasks (children : list todo_child) :
  Forall (λ c, todo_ok c = true) children ->
  findall2 TODO_ITEM_RE (concat (todo_markup <$> children)) = tasks children.
Proof.
  unfold findall2, finditer.
  induction 1 as [|c children Hc _ IH]; [reflexivity|].
  rewrite fmap_cons. change (concat (?x :: ?l)) with (x +:+ concat l).
  destruct c as [done text|text|text]; simpl in Hc.
  - apply andb_prop in Hc as [Hdone Hlt].
    rewrite (scan_hit_nonempty _ _ _ [done; text]);
      [ | reflexivity | now apply todo_hit ].
    rewrite fmap_cons, IH. reflexivity.
  - rewrite scan_dead by now apply todo_dead_in_plain.
    exact IH.
  - rewrite scan_dead by (apply dead_in_no_lt; [apply todo_re_starts_with_lt | exact Hc]).
    exact IH.
Qed.

(** X12.  A todo whose content is a sequence of items and text between
    them shows the items that carry a [done] attribute, in document order:
    each is a row with a disabled checkbox and the text of the item,
    stripped and escaped, and the row has the class [trait-todo-done] and
    the checkbox is [checked] exactly when [done] is [true].  An item
    without the attribute is left out, and so is the text between the
    items. *)
Theorem todo_shows_items_with_done (attrs : attrs_t) (children : list todo_child) :
  Forall (λ c, todo_ok c = true) children ->
  render_todo attrs (concat (todo_markup <$> children))
  = Q "<div class=`trait-todo`>"
    +:+ (if has attrs "title"
         then Q "<div class=`trait-todo-header`>" +:+ get attrs "title" "Tasks" +:+ "</div>"
         else "")
    +:+ Q "<ul class=`trait-todo-list`>"
    +:+ concat ((λ task : string * string,
                   Q "<li class=`trait-todo-item "
                   +:+ (if String.eqb task.1 "true" then "trait-todo-done" else "")
                   +:+ Q "`><input type=`checkbox` "
                   +:+ (if String.eqb task.1 "true" then "checked" else "")
                   +:+ " disabled> <span>" +:+ escape (strip task.2) +:+ "</span></li>")
                <$> tasks children)
    +:+ "</ul></div>".
Proof.
  intros Hok. unfold render_todo. cbv zeta. rewrite scan_tasks by exact Hok.
  do 3 f_equal. f_equal. f_equal.
  apply list_fmap_ext. now intros i [done text] _.
Qed.

Lemma todo_shows_items_with_done_witness :
  render_todo ∅
    (concat (todo_markup <$> [Task "true" " write "; Aside " "; Plain "deploy";
                              Task "no" "a > b"]))
  = Q "<div class=`trait-todo`><ul class=`trait-todo-list`>"
    +:+ Q "<li class=`trait-todo-item trait-todo-done`><input type=`checkbox` checked disabled> <span>write</span></li>"
    +:+ Q "<li class=`trait-todo-item `><input type=`checkbox`  disabled> <span>a &gt; b</span></li>"
    +:+ "</ul></div>".
Proof.
  exact (todo_shows_items_with_done ∅
           [Task "true" " write "; Aside " "; Plain "deploy"; Task "no" "a > b"]
           ltac:(repeat constructor)).
Defined.

(** ** Diffs *)

Lemma split_go_app_sep (c : ascii) (x rest cur : string) :
  all_chars (not_char c) x = true ->
  split_go c (x +:+ String c rest) cur = (srev cur +:+ x) :: split_go c rest "".
Proof.
  revert cur; induction x as [|a x IH]; intros cur Hx; cbn [String.append split_go].
  - now rewrite Ascii.eqb_refl, sapp_nil_r.
  - simpl in Hx. apply andb_prop in Hx as [Ha Hx].
    unfold not_char in Ha. rewrite Ascii.eqb_sym.
    destruct (Ascii.eqb c a); [discriminate|].
    rewrite IH by exact Hx. now rewrite srev_cons, sapp_assoc.
Qed.

(** [sep.join(lines).split(sep)] gives the lines back. *)
Lemma split_join (c : ascii) (x : string) (ls : list string) :
  Forall (λ l, all_chars (not_char c) l = true) (x :: ls) ->
  split c (join (str c) (x :: ls)) = x :: ls.
Proof.
  unfold split. revert x; induction ls as [|y ls IH]; intros x Hall.
  - apply Forall_inv in Hall. cbn [join]. now rewrite split_go_no_sep.
  - pose proof (Forall_inv Hall) as Hx. apply Forall_inv_tail in Hall.
    change (join (str c) (x :: y :: ls)) with (x +:+ str c +:+ join (str c) (y :: ls)).
    change (str c +:+ ?r) with (String c r).
    rewrite split_go_app_sep by exact Hx. now rewrite IH.
Qed.

(** X14.  A diff written in ASCII whose stripped content is the lines
    [line :: lines] joined by line ends is rendered as one row for each
    line, in order.  A line that starts with [+] gives a row of the class
    [trait-diff-added] with the marker [+] and the rest of the line,
    escaped, as its text; a line that starts with [-] a row of the class
    [trait-diff-removed] with the marker [-] and the rest of the line; any
    other line a row without such a class, with a blank as marker and the
    whole line, escaped, as its text.  The header is there exactly when
    the [file] attribute is; an empty content gives one row of the third
    kind with an empty text. *)
Theorem diff_renders_each_line (attrs : attrs_t) (content line : string)
    (lines : list string) :
  ascii_text content = true ->
  strip content = join NL (line :: lines) ->
  Forall (λ l, one_line l = true) (line :: lines) ->
  render_diff attrs content
  = Q "<div class=`trait-diff`>"
    +:+ (if has attrs "file"
         then Q "<div class=`trait-diff-header`>" +:+ get attrs "file" "" +:+ "</div>"
         else "")
    +:+ Q "<div class=`trait-diff-content`>"
    +:+ concat ((λ l,
                   if startswith "+" l then
                     Q "<div class=`trait-diff-line trait-diff-added`><span class=`trait-diff-marker`>+</span><span class=`trait-diff-text`>"
                     +:+ escape (sdrop 1 l) +:+ "</span></div>"
                   else if startswith "-" l then
                     Q "<div class=`trait-diff-line trait-diff-removed`><span class=`trait-diff-marker`>-</span><span class=`trait-diff-text`>"
                     +:+ escape (sdrop 1 l) +:+ "</span></div>"
                   else
                     Q "<div class=`trait-diff-line`><span class=`trait-diff-marker`> </span><span class=`trait-diff-text`>"
                     +:+ escape l +:+ "</span></div>")
                <$> line :: lines)
    +:+ "</div></div>".
Proof.
  intros _ Hstrip Hlines. unfold render_diff. cbv zeta.
  rewrite Hstrip. unfold NL. now rewrite split_join.
Qed.

Lemma diff_renders_each_line_witness :
  render_diff ∅ (NL +:+ "+a < b" +:+ NL +:+ "-c" +:+ NL +:+ " d" +:+ NL +:+ "  ")
  = Q "<div class=`trait-diff`><div class=`trait-diff-content`>"
    +:+ Q "<div class=`trait-diff-line trait-diff-added`><span class=`trait-diff-marker`>+</span><span class=`trait-diff-text`>a &lt; b</span></div>"
    +:+ Q "<div class=`trait-diff-line trait-diff-removed`><span class=`trait-diff-marker`>-</span><span class=`trait-diff-text`>c</span></div>"
    +:+ Q "<div class=`trait-diff-line`><span class=`trait-diff-marker`> </span><span class=`trait-diff-text`> d</span></div>"
    +:+ "</div></div>".
Proof.
  exact (diff_renders_each_line ∅
           (NL +:+ "+a < b" +:+ NL +:+ "-c" +:+ NL +:+ " d" +:+ NL +:+ "  ")
           "+a < b" ["-c"; " d"] eq_refl eq_refl ltac:(repeat constructor)).
Defined.

(** ** Pass by pass *)

Lemma concat_app (a b : list string) : concat (a ++ b) = concat a +:+ concat b.
Proof.
  unfold concat. induction a as [|x a IH]; [reflexivity|].
  cbn [app foldr]. now rewrite IH, sapp_assoc.
Qed.

Lemma flush_text_app (result : list string) (text : string) :
  flush_text result text = result ++ flush_text [] text.
Proof. unfold flush_text. destruct (nonempty text); [reflexivity | now rewrite app_nil_r]. Qed.

Lemma find_shift (sub s : string) (pos start : nat) :
  (pos <= String.length s)%nat ->
  find sub s (pos + start) = (λ i, pos + i)%nat <$> find sub (sdrop pos s) start.
Proof.
  intros Hpos. unfold find. rewrite sdrop_length, sdrop_sdrop.
  destruct (Nat.leb_spec (pos + start) (String.length s)),
           (Nat.leb_spec start (String.length s - pos)); try lia; [|reflexivity].
  destruct (find_in sub (sdrop (pos + start) s)) as [i|]; [|reflexivity].
  cbn. f_equal. lia.
Qed.

Lemma slice_shift (pos a b : nat) (s : string) :
  slice (pos + a) (pos + b) s = slice a b (sdrop pos s).
Proof. unfold slice. rewrite sdrop_sdrop. f_equal. lia. Qed.

(** A loop whose passes look at the text from the cursor on only goes on,
    from any cursor, as it would on the rest of the text. *)
Lemma loop_shift it :
  (forall content pos result,
      (pos < String.length content)%nat ->
      it content pos result = shifted pos result (it (sdrop pos content) 0%nat [])) ->
  forall fuel content pos result,
    loop it content fuel pos result
    = (out ← loop it (sdrop pos content) fuel 0 []; Ok (concat result +:+ out)).
Proof.
  intros Hit fuel; induction fuel as [|fuel IH]; intros content pos result;
    rewrite (loop_unfold it content), (loop_unfold it (sdrop pos content)), sdrop_length;
    destruct (Nat.ltb_spec pos (String.length content)) as [Hlt|Hge];
    destruct (Nat.ltb_spec 0 (String.length content - pos)); try lia;
    rewrite ?bind_unfold; try reflexivity;
    try (cbn [concat foldr]; now rewrite sapp_nil_r).
  rewrite (Hit content pos result Hlt).
  destruct (it (sdrop pos content) 0%nat []) as [[r|q r]|e|]; cbn [shifted];
    try reflexivity.
  - now rewrite concat_app.
  - rewrite (IH content (pos + q)%nat), (IH (sdrop pos content) q), sdrop_sdrop.
    rewrite !bind_unfold.
    destruct (loop it (sdrop (pos + q) content) fuel 0 []); try reflexivity.
    now rewrite concat_app, sapp_assoc.
Qed.

Section Shift.
Context `{PyFloat}.
Variable render : string -> outcome string.

Lemma shifted_bind (pos q : nat) (result r : list string) (w : outcome string) :
  (x ← w; Ok (Continue (pos + q) ((result ++ r) ++ [x])))
  = shifted pos result (x ← w; Ok (Continue q (r ++ [x]))).
Proof. destruct w; cbn; [now rewrite app_assoc | reflexivity ..]. Qed.

Lemma test_aml_iteration_shift (content : string) (pos : nat) (result : list string) :
  (pos < String.length content)%nat ->
  TestAml.iteration render content pos result
  = shifted pos result (TestAml.iteration render (sdrop pos content) 0 []).
Proof.
  intros Hpos. unfold TestAml.iteration.
  change (sdrop 0 (sdrop pos content)) with (sdrop pos content).
  destruct (search true TAG_RE (sdrop pos content)) as [m|] eqn:Hm.
  2: { cbn [shifted]. now rewrite flush_text_app. }
  cbv zeta. pose proof (search_tag_text _ _ _ Hm) as Htext.
  change (group m 0) with (m_text m).
  set (te := (m_start m + String.length (m_text m))%nat).
  replace (pos + m_start m + String.length (m_text m))%nat with (pos + te)%nat
    by (subst te; lia).
  change (0 + m_start m + String.length (m_text m))%nat with te.
  change (0 + m_start m)%nat with (m_start m).
  replace (slice pos (pos + m_start m) content)
    with (slice 0 (m_start m) (sdrop pos content))
    by (rewrite <- slice_shift; f_equal; lia).
  replace (pos <? pos + m_start m)%nat with (0 <? m_start m)%nat
    by (destruct (Nat.ltb_spec 0 (m_start m)), (Nat.ltb_spec pos (pos + m_start m)); lia).
  set (text := strip (slice 0 (m_start m) (sdrop pos content))).
  set (r := if (0 <? m_start m)%nat then flush_text [] text else []).
  replace (if (0 <? m_start m)%nat then flush_text result text else result)
    with (result ++ r)
    by (subst r; destruct (0 <? m_start m)%nat;
        [symmetry; apply flush_text_app | apply app_nil_r]).
  replace (TestAml.self_closing content (group m 2) (pos + te))
    with (TestAml.self_closing (sdrop pos content) (group m 2) te).
  2: { unfold TestAml.self_closing. do 2 f_equal.
       replace (pos + te - 1)%nat with (pos + (te - 1))%nat by (subst te; lia).
       now rewrite get_sdrop. }
  destruct (TestAml.self_closing (sdrop pos content) (group m 2) te).
  - apply shifted_bind.
  - rewrite find_shift, <- lower_sdrop by (rewrite lower_length; lia).
    destruct (find _ (lower (sdrop pos content)) te) as [close_pos|];
      cbn [fmap option_fmap option_map].
    + rewrite slice_shift.
      replace (pos + close_pos + String.length ("</" +:+ lower (group m 1) +:+ ">"))%nat
        with (pos + (close_pos + String.length ("</" +:+ lower (group m 1) +:+ ">")))%nat
        by lia.
      apply shifted_bind.
    + cbn [shifted]. now rewrite app_assoc.
Qed.
End Shift.

Lemma find_close_shift (content tag_name close_tag : string) (pos fuel depth search_pos : nat) :
  Scenarios.find_close content tag_name close_tag fuel depth (pos + search_pos)
  = shift_found pos
      (Scenarios.find_close (sdrop pos content) tag_name close_tag fuel depth search_pos).
Proof.
  revert depth search_pos; induction fuel as [|fuel IH]; intros depth search_pos;
    cbn [Scenarios.find_close]; rewrite sdrop_length, ?sdrop_sdrop;
    replace (search_pos <? String.length content - pos)%nat
      with (pos + search_pos <? String.length content)%nat
      by (destruct (Nat.ltb_spec (pos + search_pos) (String.length content)),
                   (Nat.ltb_spec search_pos (String.length content - pos)); lia);
    destruct ((pos + search_pos <? String.length content)%nat && (0 <? depth)%nat);
    try reflexivity.
  cbv zeta.
  destruct (find_in close_tag (lower (sdrop (pos + search_pos) content))) as [nc|];
    [|reflexivity].
  destruct (find_in ("<" +:+ tag_name) (lower (sdrop (pos + search_pos) content))) as [no|];
    cbn [default from_option id].
  - destruct (no <? nc)%nat.
    + rewrite <- IH. f_equal. lia.
    + destruct (depth - 1 =? 0)%nat.
      * cbn [shift_found]. do 2 f_equal; lia.
      * rewrite <- IH. f_equal. lia.
  - destruct (depth - 1 =? 0)%nat.
    + cbn [shift_found]. do 2 f_equal; lia.
    + rewrite <- IH. f_equal. lia.
Qed.

Lemma find_close_more_fuel (content tag_name close_tag : string)
    (fuel fuel' depth search_pos : nat) :
  (fuel <= fuel')%nat ->
  Scenarios.find_close content tag_name close_tag fuel depth search_pos <> OutOfFuel ->
  Scenarios.find_close content tag_name close_tag fuel' depth search_pos
  = Scenarios.find_close content tag_name close_tag fuel depth search_pos.
Proof.
  revert fuel' depth search_pos; induction fuel as [|fuel IH];
    intros fuel' depth search_pos Hle;
    destruct fuel' as [|fuel']; try lia; cbn [Scenarios.find_close];
    destruct ((search_pos <? String.length content)%nat && (0 <? depth)%nat);
    try reflexivity; try congruence.
  cbv zeta.
  destruct (find_in close_tag (lower (sdrop search_pos content))) as [nc|]; [|reflexivity].
  destruct (match find_in ("<" +:+ tag_name) (lower (sdrop search_pos content)) with
            | Some no => (no <? nc)%nat
            | None => false
            end).
  - apply IH. lia.
  - destruct (depth - 1 =? 0)%nat; [reflexivity|]. apply IH. lia.
Qed.

Section ShiftScenarios.
Context `{PyFloat}.
Variable render : string -> outcome string.

Lemma scenarios_iteration_shift (content : string) (pos : nat) (result : list string) :
  (pos < String.length content)%nat ->
  Scenarios.iteration render content pos result
  = shifted pos result (Scenarios.iteration render (sdrop pos content) 0 []).
Proof.
  intros Hpos. unfold Scenarios.iteration. cbv zeta.
  change (sdrop 0 (sdrop pos content)) with (sdrop pos content).
  destruct (search true TAG_RE (sdrop pos content)) as [m|] eqn:Hm.
  2: { cbn [shifted]. now rewrite flush_text_app. }
  change (group m 0) with (m_text m).
  set (te := (m_start m + String.length (m_text m))%nat).
  replace (pos + m_start m + String.length (m_text m))%nat with (pos + te)%nat
    by (subst te; lia).
  change (0 + m_start m + String.length (m_text m))%nat with te.
  change (0 + m_start m)%nat with (m_start m).
  replace (slice pos (pos + m_start m) content)
    with (slice 0 (m_start m) (sdrop pos content))
    by (rewrite <- slice_shift; f_equal; lia).
  replace (pos <? pos + m_start m)%nat with (0 <? m_start m)%nat
    by (destruct (Nat.ltb_spec 0 (m_start m)), (Nat.ltb_spec pos (pos + m_start m)); lia).
  set (text := strip (slice 0 (m_start m) (sdrop pos content))).
  set (r := if (0 <? m_start m)%nat then flush_text [] text else []).
  replace (if (0 <? m_start m)%nat then flush_text result text else result)
    with (result ++ r)
    by (subst r; destruct (0 <? m_start m)%nat;
        [symmetry; apply flush_text_app | apply app_nil_r]).
  destruct (Scenarios.self_closing (lower (group m 1)) (group m 2)).
  - apply shifted_bind.
  - set (close_tag := "</" +:+ lower (group m 1) +:+ ">").
    rewrite find_close_shift.
    rewrite (find_close_more_fuel (sdrop pos content) _ _
               (String.length (sdrop pos content)) (String.length content));
      [ | rewrite sdrop_length; lia
        | apply find_close_settled; [subst close_tag; simpl; lia | lia] ].
    rewrite !bind_unfold.
    destruct (Scenarios.find_close (sdrop pos content) (lower (group m 1)) close_tag
                (String.length (sdrop pos content)) 1 te) as [[cs ep| |]|e|];
      cbn [shift_found shifted]; try reflexivity.
    + rewrite slice_shift. apply shifted_bind.
    + now rewrite Nat.add_0_r.
    + now rewrite app_assoc.
Qed.
End ShiftScenarios.

Section PassByPass.
Context `{PyFloat}.

(** X15.  In [test_aml.py], on a document written in ASCII, where
    [content.lower()] keeps every index of [content]: once a pass over the
    start of the document has put the cursor at [pos], what the composer
    returns is the fragments of that pass followed by what it returns on
    the rest of the document, [content[pos:]]; the later passes depend on
    nothing before the cursor, and an exception raised on the rest is
    raised for the whole document. *)
Theorem test_aml_goes_on_with_the_rest (content : string) (fuel pos : nat)
    (result : list string) :
  ascii_text content = true ->
  TestAml.iteration (TestAml.render_aml fuel) content 0 [] = Ok (Continue pos result) ->
  TestAml.render_aml fuel (sdrop pos content) <> OutOfFuel ->
  TestAml.render_aml (S fuel) content
  = (rest ← TestAml.render_aml fuel (sdrop pos content); Ok (concat result +:+ rest)).
Proof.
  intros _ Hpass Hrest. cbn [TestAml.render_aml]. rewrite loop_unfold.
  destruct (Nat.ltb_spec 0 (String.length content)) as [Hlen|Hlen].
  2: { destruct content; [discriminate | simpl in Hlen; lia]. }
  rewrite Hpass, bind_unfold.
  rewrite loop_shift by (intros c p r; apply test_aml_iteration_shift).
  assert (Heq : loop (TestAml.iteration (TestAml.render_aml fuel)) (sdrop pos content) fuel 0 []
                = TestAml.render_aml fuel (sdrop pos content)).
  { destruct fuel as [|f]; [now contradict Hrest|].
    change (TestAml.render_aml (S f) (sdrop pos content))
      with (loop (TestAml.iteration (TestAml.render_aml f)) (sdrop pos content) (S f) 0 [])
      in Hrest |- *.
    apply (loop_more_fuel (TestAml.iteration (TestAml.render_aml f))
             (TestAml.iteration (TestAml.render_aml (S f)))); [ | lia | exact Hrest ].
    intros c p r. apply test_aml_iteration_stable.
    intros c' Hc'. apply test_aml_more_fuel; [lia | exact Hc']. }
  now rewrite Heq.
Qed.

(** X16.  The same holds in [test_aml_scenarios.py], whenever the
    composer returns on the rest of the document. *)
Theorem scenarios_goes_on_with_the_rest (content : string) (fuel pos : nat)
    (result : list string) :
  Scenarios.iteration (Scenarios.render_aml fuel) content 0 [] = Ok (Continue pos result) ->
  Scenarios.render_aml fuel (sdrop pos content) <> OutOfFuel ->
  Scenarios.render_aml (S fuel) content
  = (rest ← Scenarios.render_aml fuel (sdrop pos content); Ok (concat result +:+ rest)).
Proof.
  intros Hpass Hrest. cbn [Scenarios.render_aml]. rewrite loop_unfold.
  destruct (Nat.ltb_spec 0 (String.length content)) as [Hlen|Hlen].
  2: { destruct content; [discriminate | simpl in Hlen; lia]. }
  rewrite Hpass, bind_unfold.
  rewrite loop_shift by (intros c p r; apply scenarios_iteration_shift).
  assert (Heq : loop (Scenarios.iteration (Scenarios.render_aml fuel)) (sdrop pos content) fuel 0 []
                = Scenarios.render_aml fuel (sdrop pos content)).
  { destruct fuel as [|f]; [now contradict Hrest|].
    change (Scenarios.render_aml (S f) (sdrop pos content))
      with (loop (Scenarios.iteration (Scenarios.render_aml f)) (sdrop pos content) (S f) 0 [])
      in Hrest |- *.
    apply (loop_more_fuel (Scenarios.iteration (Scenarios.render_aml f))
             (Scenarios.iteration (Scenarios.render_aml (S f)))); [ | lia | exact Hrest ].
    intros c p r. apply scenarios_iteration_stable.
    intros c' Hc'. apply scenarios_more_fuel; [lia | exact Hc']. }
  now rewrite Heq.
Qed.
End PassByPass.

Lemma test_aml_goes_on_with_the_rest_witness :
  TestAml.render_aml (H := fraction_floats) 41
    (Q "Build <trait:badge variant=`ok`>passing</trait:badge> on <trait:br/>main")
  = (rest ← TestAml.render_aml (H := fraction_floats) 40
              (sdrop 53 (Q "Build <trait:badge variant=`ok`>passing</trait:badge> on <trait:br/>main"));
     Ok (concat [paragraph "Build"; render_badge (<["variant" := "ok"]> ∅) "passing"] +:+ rest)).
Proof.
  apply (test_aml_goes_on_with_the_rest (H := fraction_floats)
           (Q "Build <trait:badge variant=`ok`>passing</trait:badge> on <trait:br/>main")
           40 53 [paragraph "Build"; render_badge (<["variant" := "ok"]> ∅) "passing"]).
  - vm_compute. reflexivity.
  - vm_compute. reflexivity.
  - vm_compute. discriminate.
Defined.

Lemma scenarios_goes_on_with_the_rest_witness :
  Scenarios.render_aml (H := fraction_floats) 41
    (Q "Build <trait:badge variant=`ok`>passing</trait:badge> on <trait:br>main")
  = (rest ← Scenarios.render_aml (H := fraction_floats) 40
              (sdrop 53 (Q "Build <trait:badge variant=`ok`>passing</trait:badge> on <trait:br>main"));
     Ok (concat [paragraph "Build"; render_badge (<["variant" := "ok"]> ∅) "passing"] +:+ rest)).
Proof.
  apply (scenarios_goes_on_with_the_rest (H := fraction_floats)
           (Q "Build <trait:badge variant=`ok`>passing</trait:badge> on <trait:br>main")
           40 53 [paragraph "Build"; render_badge (<["variant" := "ok"]> ∅) "passing"]).
  - vm_compute. reflexivity.
  - vm_compute. discriminate.
Defined.

(** ** Tables *)

(** A lazy repetition passes over a text in which the rest of the pattern
    matches nowhere. *)
Lemma lazy_dead c (k : string -> option (list string * string)) (x tail : string) :
  dead_in k x tail -> all_chars c x = true -> lazy c k (x +:+ tail) = lazy c k tail.
Proof.
  induction x as [|a x IH]; [reflexivity|].
  intros [Hk Hx] [Ha Hc]%andb_prop. cbn [String.append lazy].
  simpl in Hk. rewrite Hk, Ha. now apply IH.
Qed.

Lemma elements_markup_cons (name : string) (e : element) (es : list element) :
  elements_markup name (e :: es) = element_markup name e +:+ elements_markup name es.
Proof. reflexivity. Qed.

(** A matcher that needs a [<] and fails in front of the opening and of
    the closing tag of a cell matches nowhere in the cells of a row. *)
Lemma dead_in_cells at_ (cells : list element) (rest : string) :
  starts_with_lt at_ ->
  (forall t, at_ ("<trait:cell" +:+ t) = None) ->
  (forall t, at_ ("</trait:cell>" +:+ t) = None) ->
  Forall (λ e, element_tidy e = true) cells ->
  dead_in at_ (elements_markup "cell" cells) rest.
Proof.
  intros Hlt Hopen Hclose. induction 1 as [|e es He _ IH]; [exact I|].
  rewrite elements_markup_cons. apply dead_in_app; [|exact IH].
  destruct e as [attr_text text|text]; simpl in He.
  - apply andb_prop in He as [[Hattr Hlta]%andb_prop Hltt].
    unfold element_markup.
    replace (("<trait:" +:+ "cell") +:+ attr_text +:+ ">" +:+ text +:+ "</trait:" +:+ "cell" +:+ ">")
      with (String "<" ("trait:cell" +:+ attr_text +:+ ">" +:+ text)
            +:+ String "<" "/trait:cell>")
      by (simpl; now rewrite ?sapp_assoc).
    apply dead_in_app; apply dead_in_tag; try exact Hlt.
    + repeat apply no_lt_app; first [assumption | reflexivity].
    + match goal with
      | |- at_ (String "<" ("trait:cell" +:+ ?u) +:+ ?v) = None =>
          replace (String "<" ("trait:cell" +:+ u) +:+ v) with ("<trait:cell" +:+ (u +:+ v))
            by (cbn [String.append]; now rewrite ?sapp_assoc)
      end.
      apply Hopen.
    + reflexivity.
    + apply (Hclose (elements_markup "cell" es +:+ rest)).
  - now apply dead_in_no_lt.
Qed.

Lemma forallb_Forall_true {A : Type} (f : A -> bool) (l : list A) :
  forallb f l = true -> Forall (λ x, f x = true) l.
Proof.
  induction l as [|x l IH]; simpl; [constructor|].
  intros [Hx Hl]%andb_prop. constructor; [exact Hx | now apply IH].
Qed.

Lemma tidy_element_ok (e : element) : element_tidy e = true -> element_ok any_char e = true.
Proof.
  destruct e as [attr_text text|text]; simpl; [|easy].
  intros [[-> _]%andb_prop ->]%andb_prop. now rewrite all_chars_any.
Qed.

Lemma row_close_needs_lt (s0 : string) (caps : list string) :
  starts_with_lt (exec false [Close; Lit "</trait:row>"] [s0] caps).
Proof. intros a t Ha. now apply exec_close_lit_fail. Qed.

(** The closing tag of a row is not met inside the cells of the row. *)
Lemma row_inner_quiet (s0 : string) (caps : list string) (cells : list element) (rest : string) :
  Forall (λ e, element_tidy e = true) cells ->
  dead_in (exec false [Close; Lit "</trait:row>"] [s0] caps) (row_inner cells) rest.
Proof.
  intros Hok. apply dead_in_cells; [apply row_close_needs_lt | | | exact Hok];
    intros t; reflexivity.
Qed.

Lemma row_hit (header : bool) (cells : list element) (rest : string) :
  Forall (λ e, element_tidy e = true) cells ->
  exec false ROW_RE [] [] (table_markup (Row header cells) +:+ rest)
  = Some ([row_inner cells], rest).
Proof.
  intros Hok. unfold ROW_RE, child_re, table_markup.
  change ("<trait:" +:+ "row") with "<trait:row".
  change ("</trait:" +:+ "row" +:+ ">") with "</trait:row>".
  rewrite !sapp_assoc, exec_lit.
  change (">" +:+ ?x) with (String ">" x).
  rewrite exec_star_run;
    [ | intros a t Ha; apply exec_lit_fail; unfold not_char in Ha;
        now destruct (Ascii.eqb ">" a)
      | now destruct header | reflexivity ].
  change (String ">" ?x) with (">" +:+ x). rewrite (exec_lit ">"), exec_open.
  cbn [exec]. rewrite lazy_dead; [ | now apply row_inner_quiet | apply all_chars_any ].
  apply lazy_here. cbn [exec]. rewrite strip_prefix_here. now rewrite consumed_app.
Qed.

Lemma header_row_hit (cells : list element) (rest : string) :
  Forall (λ e, element_tidy e = true) cells ->
  exec false HEADER_ROW_RE [] [] (table_markup (Row true cells) +:+ rest)
  = Some ([row_inner cells], rest).
Proof.
  intros Hok. unfold HEADER_ROW_RE, table_markup, row_attr_text.
  rewrite !sapp_assoc, exec_lit.
  change (Q " header=`true`" +:+ ?x) with (String " " (String "h" (Q "eader=`true`" +:+ x))).
  rewrite exec_plus_one by reflexivity.
  change (String "h" (Q "eader=`true`" +:+ ?x)) with (Q "header=`true`" +:+ x).
  rewrite exec_lit.
  change (">" +:+ ?x) with (String ">" x).
  rewrite exec_star_zero by reflexivity.
  change (String ">" ?x) with (">" +:+ x). rewrite (exec_lit ">"), exec_open.
  cbn [exec]. rewrite lazy_dead; [ | now apply row_inner_quiet | apply all_chars_any ].
  apply lazy_here. cbn [exec]. rewrite strip_prefix_here. now rewrite consumed_app.
Qed.

Lemma header_row_re_starts_with_lt : starts_with_lt (exec false HEADER_ROW_RE [] []).
Proof. apply exec_starts_with_lt. Qed.

Lemma row_re_starts_with_lt : starts_with_lt (exec false ROW_RE [] []).
Proof. apply exec_starts_with_lt. Qed.

(** A row without the attribute is no header row, and no header row
    starts inside it. *)
Lemma header_dead_in_plain_row (cells : list element) (rest : string) :
  Forall (λ e, element_tidy e = true) cells ->
  dead_in (exec false HEADER_ROW_RE [] []) (table_markup (Row false cells)) rest.
Proof.
  intros Hok. unfold table_markup, row_attr_text.
  replace ("<trait:row" +:+ "" +:+ ">" +:+ row_inner cells +:+ "</trait:row>")
    with (String "<" "trait:row>" +:+ row_inner cells +:+ String "<" "/trait:row>")
    by reflexivity.
  apply dead_in_app; [|apply dead_in_app].
  - apply dead_in_tag; [apply header_row_re_starts_with_lt | reflexivity | reflexivity].
  - apply dead_in_cells; [apply header_row_re_starts_with_lt | | | exact Hok];
      intros t; reflexivity.
  - apply dead_in_tag; [apply header_row_re_starts_with_lt | reflexivity | reflexivity].
Qed.

Lemma table_markup_row_nonempty (header : bool) (cells : list element) :
  nonempty (table_markup (Row header cells)) = true.
Proof. reflexivity. Qed.

Lemma scan_rows (children : list table_child) :
  Forall (λ c, table_ok c = true) children ->
  findall1 ROW_RE (concat (table_markup <$> children)) = row_inner <$> all_rows children.
Proof.
  unfold findall1, finditer.
  induction 1 as [|c children Hc _ IH]; [reflexivity|].
  rewrite fmap_cons. change (concat (?x :: ?l)) with (x +:+ concat l).
  destruct c as [header cells|text]; simpl in Hc.
  - apply forallb_Forall_true in Hc.
    rewrite (scan_hit_nonempty _ _ _ [row_inner cells]);
      [ | apply table_markup_row_nonempty | now apply row_hit ].
    rewrite fmap_cons, IH. reflexivity.
  - rewrite scan_dead by (apply dead_in_no_lt; [apply row_re_starts_with_lt | exact Hc]).
    exact IH.
Qed.

Lemma scan_header_rows (children : list table_child) :
  Forall (λ c, table_ok c = true) children ->
  findall1 HEADER_ROW_RE (concat (table_markup <$> children))
  = row_inner <$> header_rows children.
Proof.
  unfold findall1, finditer.
  induction 1 as [|c children Hc _ IH]; [reflexivity|].
  rewrite fmap_cons. change (concat (?x :: ?l)) with (x +:+ concat l).
  destruct c as [[] cells|text]; simpl in Hc.
  - apply forallb_Forall_true in Hc.
    rewrite (scan_hit_nonempty _ _ _ [row_inner cells]);
      [ | apply table_markup_row_nonempty | now apply header_row_hit ].
    rewrite fmap_cons, IH. reflexivity.
  - apply forallb_Forall_true in Hc.
    rewrite scan_dead by now apply header_dead_in_plain_row.
    exact IH.
  - rewrite scan_dead
      by (apply dead_in_no_lt; [apply header_row_re_starts_with_lt | exact Hc]).
    exact IH.
Qed.

Lemma render_cells_of_row (cells : list element) :
  Forall (λ e, element_tidy e = true) cells ->
  render_cells (row_inner cells) = cells_html cells.
Proof.
  intros Hok. unfold render_cells, cells_html, row_inner, CELL_RE. cbv zeta.
  rewrite scan_elements; [reflexivity|].
  eapply Forall_impl; [exact Hok|]. intros e. apply tidy_element_ok.
Qed.

Lemma all_rows_tidy (children : list table_child) :
  Forall (λ c, table_ok c = true) children ->
  Forall (Forall (λ e, element_tidy e = true)) (all_rows children).
Proof.
  induction 1 as [|c children Hc _ IH]; [constructor|].
  destruct c as [header cells|text]; simpl in Hc; [|exact IH].
  change (all_rows (Row header cells :: children)) with (cells :: all_rows children).
  constructor; [now apply forallb_Forall_true | exact IH].
Qed.

Lemma header_rows_tidy (children : list table_child) :
  Forall (λ c, table_ok c = true) children ->
  Forall (Forall (λ e, element_tidy e = true)) (header_rows children).
Proof.
  induction 1 as [|c children Hc _ IH]; [constructor|].
  destruct c as [[] cells|text]; simpl in Hc; try exact IH.
  change (header_rows (Row true cells :: children)) with (cells :: header_rows children).
  constructor; [now apply forallb_Forall_true | exact IH].
Qed.

Lemma data_rows_html (headers : list string) (rows : list (list element)) :
  Forall (Forall (λ e, element_tidy e = true)) rows ->
  concat ((λ row, Q "<tr class=`trait-row`>" +:+ render_cells row +:+ "</tr>")
          <$> filter (λ row, mem row headers = false) (row_inner <$> rows))
  = concat ((λ cells, Q "<tr class=`trait-row`>" +:+ cells_html cells +:+ "</tr>")
            <$> filter (λ cells, mem (row_inner cells) headers = false) rows).
Proof.
  induction 1 as [|cells rows Hcells _ IH]; [reflexivity|].
  rewrite fmap_cons, !filter_cons.
  destruct (decide (mem (row_inner cells) headers = false)); [|exact IH].
  rewrite !fmap_cons. change (concat (?x :: ?l)) with (x +:+ concat l).
  now rewrite IH, render_cells_of_row.
Qed.

(** X17.  A table whose content is a sequence of rows of cells, with text
    outside the rows, is rendered as follows.  The first row written with
    [header=`true`] gives the header row, its cells turned from [td] into
    [th] by the two replacements; the other rows, in document order, give
    the body, one [td] for each cell with the text of the cell stripped
    and escaped.  A later header row gives nothing at all, and neither
    does a row whose content is that of a header row. *)
Theorem table_renders_rows (attrs : attrs_t) (children : list table_child) :
  Forall (λ c, table_ok c = true) children ->
  render_table attrs (concat (table_markup <$> children))
  = Q "<table class=`trait-table`><tbody>"
    +:+ match header_rows children with
        | cells :: _ =>
            Q "<tr class=`trait-row trait-row-header`>"
            +:+ replace "/td>" "/th>" (replace "<td" "<th" (cells_html cells)) +:+ "</tr>"
        | [] => ""
        end
    +:+ concat ((λ cells, Q "<tr class=`trait-row`>" +:+ cells_html cells +:+ "</tr>")
                <$> filter (λ cells, mem (row_inner cells)
                                       (row_inner <$> header_rows children) = false)
                      (all_rows children))
    +:+ "</tbody></table>".
Proof.
  intros Hok. unfold render_table. cbv zeta.
  rewrite scan_rows, scan_header_rows by exact Hok.
  rewrite data_rows_html by now apply all_rows_tidy.
  pose proof (header_rows_tidy children Hok) as Hheaders.
  destruct (header_rows children) as [|cells headers]; [reflexivity|].
  rewrite fmap_cons.
  now rewrite (render_cells_of_row cells) by now apply Forall_inv in Hheaders.
Qed.

Lemma table_renders_rows_witness :
  let children :=
    [Outside NL; Row true [Element "" "Name"; Element "" "Role"];
     Row false [Element "" " Ann "; Text " "; Element "" "R&D"];
     Row true [Element "" "Again"];
     Row false [Element "" "Name"; Element "" "Role"];
     Row false [Element "" "Bob"]] in
  render_table ∅ (concat (table_markup <$> children))
  = Q "<table class=`trait-table`><tbody>"
    +:+ (Q "<tr class=`trait-row trait-row-header`>"
         +:+ replace "/td>" "/th>"
               (replace "<td" "<th" (cells_html [Element "" "Name"; Element "" "Role"]))
         +:+ "</tr>")
    +:+ concat ((λ cells, Q "<tr class=`trait-row`>" +:+ cells_html cells +:+ "</tr>")
                <$> [[Element "" " Ann "; Text " "; Element "" "R&D"]; [Element "" "Bob"]])
    +:+ "</tbody></table>".
Proof.
  exact (table_renders_rows ∅
           [Outside NL; Row true [Element "" "Name"; Element "" "Role"];
            Row false [Element "" " Ann "; Text " "; Element "" "R&D"];
            Row true [Element "" "Again"];
            Row false [Element "" "Name"; Element "" "Role"];
            Row false [Element "" "Bob"]]
           ltac:(repeat constructor)).
Defined.

(** ** An element in front of a document *)

Lemma strip_prefix_ci_here (p r : string) : strip_prefix_ci p (p +:+ r) = Some r.
Proof.
  induction p as [|a p IH]; simpl; [reflexivity|].
  now rewrite Ascii.eqb_refl.
Qed.

Lemma exec_lit_ci (l : string) p opens caps (s : string) :
  exec true (Lit l :: p) opens caps (l +:+ s) = exec true p opens caps s.
Proof. cbn [exec]. now rewrite strip_prefix_ci_here. Qed.

Lemma greedy_longest {R : Type} c (k : string -> option R) (x tail : string) (r : R) :
  all_chars c x = true -> head_outside c tail = true -> k tail = Some r ->
  greedy c k (x +:+ tail) = Some r.
Proof.
  intros Hx Htail Hk. induction x as [|a x IH]; simpl in *.
  - destruct tail as [|b t]; [exact Hk|]. simpl in Htail.
    cbn [greedy]. now destruct (c b).
  - apply andb_prop in Hx as [Ha Hx]. now rewrite Ha, IH.
Qed.

Lemma head_outside_app c (x : string) (b : ascii) (t : string) :
  head_outside c x = true -> c b = false -> head_outside c (x +:+ String b t) = true.
Proof. destruct x; simpl; [now intros _ -> | easy]. Qed.

(** The scanner on an opening tag: the name is the longest run of letters
    after [trait:], the attribute text all that stands before the [>]. *)
Lemma tag_hit (name attrs_text rest : string) :
  nonempty name = true -> all_chars is_letter name = true ->
  head_outside is_letter attrs_text = true ->
  all_chars (not_char ">") attrs_text = true ->
  exec true TAG_RE [] [] (opening_tag name attrs_text +:+ rest)
  = Some (["trait:" +:+ name; attrs_text], rest).
Proof.
  intros Hne Hname Hhead Hattrs. unfold TAG_RE, opening_tag.
  rewrite !sapp_assoc.
  change ("<trait:" +:+ ?x) with ("<" +:+ "trait:" +:+ x).
  rewrite exec_lit_ci.
  change (exec true (Open :: ?p) ?o ?c ?s) with (exec true p (s :: o) c s).
  rewrite exec_lit_ci.
  destruct name as [|a name]; [discriminate|].
  simpl in Hname. apply andb_prop in Hname as [Ha Hname].
  cbn [exec String.append]. rewrite Ha.
  apply greedy_longest; [exact Hname | now apply head_outside_app | ].
  cbn [exec]. apply greedy_longest; [exact Hattrs | reflexivity | ].
  cbn [exec]. change (strip_prefix_ci ">" (String ">" rest)) with (Some rest).
  cbn [app].
  match goal with
  | |- context [consumed ?s (attrs_text +:+ String ">" rest)] =>
      change s with (("trait:" +:+ String a name) +:+ (attrs_text +:+ String ">" rest))
  end.
  now rewrite !consumed_app.
Qed.

Lemma search_at_here ic p (s rest : string) (caps : list string) (i : nat) :
  exec ic p [] [] s = Some (caps, rest) ->
  search_at ic p s i = Some (RMatch i caps (consumed s rest)).
Proof. intros He. destruct s; cbn [search_at]; now rewrite He. Qed.

Lemma search_at_skip (before s : string) (i : nat) :
  no_lt before = true ->
  search_at true TAG_RE (before +:+ s) i
  = search_at true TAG_RE s (i + String.length before).
Proof.
  unfold no_lt. revert i; induction before as [|a before IH]; intros i Hlt.
  - simpl. now rewrite Nat.add_0_r.
  - simpl in Hlt. apply andb_prop in Hlt as [Ha Hlt].
    cbn [String.append search_at]. rewrite tag_needs_lt, IH by
      (try exact Hlt; unfold not_char in Ha; now destruct (Ascii.eqb "<" a)).
    f_equal. simpl. lia.
Qed.

Lemma search_tag (before name attrs_text rest : string) :
  no_lt before = true ->
  nonempty name = true -> all_chars is_letter name = true ->
  head_outside is_letter attrs_text = true ->
  all_chars (not_char ">") attrs_text = true ->
  search true TAG_RE (before +:+ opening_tag name attrs_text +:+ rest)
  = Some (RMatch (String.length before) ["trait:" +:+ name; attrs_text]
            (opening_tag name attrs_text)).
Proof.
  intros Hbefore Hne Hname Hhead Hattrs. unfold search.
  rewrite search_at_skip by exact Hbefore.
  rewrite (search_at_here _ _ _ rest ["trait:" +:+ name; attrs_text])
    by now apply tag_hit.
  now rewrite consumed_app.
Qed.

Lemma lower_app (x y : string) : lower (x +:+ y) = lower x +:+ lower y.
Proof. induction x as [|a x IH]; simpl; [reflexivity | now rewrite IH]. Qed.


Lemma slice_head (a b : string) : slice 0 (0 + String.length a) (a +:+ b) = a.
Proof. unfold slice. cbn [sdrop]. rewrite Nat.add_0_l, Nat.sub_0_r. apply stake_app. Qed.

Lemma flush_before (before tail : string) :
  (if (0 <? String.length before)%nat
   then flush_text [] (strip (slice 0 (String.length before) (before +:+ tail)))
   else [])
  = flush_text [] (strip before).
Proof.
  destruct before as [|a before]; [reflexivity|].
  pose proof (slice_head (String a before) tail) as Hs. rewrite Nat.add_0_l in Hs.
  now rewrite Hs.
Qed.


(** The character before the end of an opening tag is its [>]. *)
Lemma test_aml_self_closing_by_slash (before name attrs_text tail : string) :
  TestAml.self_closing (before +:+ opening_tag name attrs_text +:+ tail) attrs_text
    (String.length before + String.length (opening_tag name attrs_text))
  = endswith "/" attrs_text.
Proof.
  unfold TestAml.self_closing, opening_tag.
  replace (before +:+ ("<trait:" +:+ name +:+ attrs_text +:+ ">") +:+ tail)
    with ((before +:+ "<trait:" +:+ name +:+ attrs_text) +:+ String ">" tail)
    by (rewrite !sapp_assoc; reflexivity).
  replace (String.length before + String.length ("<trait:" +:+ name +:+ attrs_text +:+ ">") - 1)%nat
    with (String.length (before +:+ "<trait:" +:+ name +:+ attrs_text))
    by (rewrite !slength_app; simpl; lia).
  rewrite get_after, bool_decide_eq_false_2 by discriminate. apply orb_false_r.
Qed.




Section ElementPass.
Context `{PyFloat}.
Variable render : string -> outcome string.

End ElementPass.



Section SelfClosingPass.
Context `{PyFloat}.
Variable render : string -> outcome string.

(** X19.  A pass over a document that starts with text without [<] and
    then a tag [<trait:NAME ATTRS>] whose attribute text ends in a slash
    renders the text before the tag as a paragraph and the tag by the
    widget rule of the lower-cased name, with the attribute text parsed
    and the empty content, and puts the cursor just after the tag; so in
    both files. *)
Theorem self_closing_element_pass (before name attrs_text rest : string) :
  let content := before +:+ opening_tag name attrs_text +:+ rest in
  let tag_name := "trait:" +:+ lower name in
  let tag_end := (String.length before + String.length (opening_tag name attrs_text))%nat in
  no_lt before = true ->
  nonempty name = true -> all_chars is_letter name = true ->
  head_outside is_letter attrs_text = true ->
  all_chars (not_char ">") attrs_text = true ->
  endswith "/" attrs_text = true ->
  TestAml.iteration render content 0 []
  = (w ← TestAml.render_widget render tag_name (parse_attrs attrs_text) "";
     Ok (Continue tag_end (flush_text [] (strip before) ++ [w])))
  /\ Scenarios.iteration render content 0 []
     = (w ← Scenarios.render_widget render tag_name (parse_attrs attrs_text) "";
        Ok (Continue tag_end (flush_text [] (strip before) ++ [w]))).
Proof.
  intros content tag_name tag_end Hbefore Hne Hname Hhead Hattrs Hslash.
  assert (Hsearch : search true TAG_RE content
                    = Some (RMatch (String.length before) ["trait:" +:+ name; attrs_text]
                              (opening_tag name attrs_text)))
    by now apply search_tag.
  split.
  - unfold TestAml.iteration. change (sdrop 0 content) with content.
    rewrite Hsearch. cbv zeta. cbn [m_start group m_text m_groups nth].
    rewrite !Nat.add_0_l, lower_app. change (lower "trait:") with "trait:".
    fold tag_name. fold tag_end.
    subst content. rewrite flush_before.
    now rewrite test_aml_self_closing_by_slash, Hslash.
  - unfold Scenarios.iteration. cbv zeta. change (sdrop 0 content) with content.
    rewrite Hsearch. cbn [m_start group m_text m_groups nth].
    rewrite !Nat.add_0_l, lower_app. change (lower "trait:") with "trait:".
    fold tag_name. fold tag_end.
    subst content. rewrite flush_before.
    unfold Scenarios.self_closing.
    apply endswith_slash in Hslash as [body ->].
    pose proof (rstrip_after_slash body "" eq_refl) as Hstrip.
    rewrite sapp_nil_r in Hstrip. rewrite Hstrip.
    rewrite (proj2 (endswith_slash (body +:+ "/"))) by now exists body.
    reflexivity.
Qed.
End SelfClosingPass.

Lemma self_closing_element_pass_witness :
  let before := "Usage " in
  let name := "Metric" in
  let attrs_text := Q " value=`42` label=`ms` /" in
  let rest := " per call" in
  let content := before +:+ opening_tag name attrs_text +:+ rest in
  let tag_name := "trait:" +:+ lower name in
  let tag_end := (String.length before + String.length (opening_tag name attrs_text))%nat in
  TestAml.iteration (H := fraction_floats) (λ c, Ok c) content 0 []
  = (w ← TestAml.render_widget (H := fraction_floats) (λ c, Ok c) tag_name
           (parse_attrs attrs_text) "";
     Ok (Continue tag_end (flush_text [] (strip before) ++ [w])))
  /\ Scenarios.iteration (H := fraction_floats) (λ c, Ok c) content 0 []
     = (w ← Scenarios.render_widget (H := fraction_floats) (λ c, Ok c) tag_name
              (parse_attrs attrs_text) "";
        Ok (Continue tag_end (flush_text [] (strip before) ++ [w]))).
Proof.
  apply (self_closing_element_pass (H := fraction_floats) (λ c, Ok c)
           "Usage " "Metric" (Q " value=`42` label=`ms` /") " per call").
  - reflexivity.
  - reflexivity.
  - reflexivity.
  - reflexivity.
  - reflexivity.
  - vm_compute. reflexivity.
Defined.
